(** * Snapchat memories handler: bundle processing and destination sync

    A shallow embedding of [extract_memories.py] (the script with the
    Google Drive destination and the overlay compositing) and of the main
    loop of [extract_memories_only_local.py].

    Conventions of the embedding.
    - Python [str] values are [string]; case folding is the ASCII one
      (names outside ASCII are left as they are).
    - Python [bytes] values are [list byte].
    - [pathlib.Path] is the POSIX flavour: components are separated by [/],
      empty and [.] components are dropped, [suffix] is the text from the
      last dot of the final component, provided that dot is neither its
      first nor its last character.
    - Everything the script reaches outside itself (network, archive
      library, imaging library, the compositing tool, the disk, the Drive
      API, the tagging libraries) is a field of the record [World]; the
      contents of the local folder and of the Drive folder are part of the
      threaded [State], next to the module-level globals.
    - The temporary directory of the video chain is taken to work: the
      chain is modelled on the content of the file [current_input] names.
    - The path [name:snapchat_metadata] the last embedding strategy
      writes to names, under the POSIX flavour, an ordinary file of the
      folder, next to the file [name].
    - A write the script makes itself (lines 456-459 and 547-551) opens
      the file before it writes, so a write that fails may leave the
      file created or truncated, with the first bytes only; the calls
      into the tagging libraries either succeed or leave the file as it
      was.
    - [sys.exit] and a raised exception are the two abnormal outcomes
      [Exit] and [Raise]; both carry the state reached, and an exception
      nobody catches ends the run like an exit does.
    - The rows of the export table are given as [Rec] values, with the
      prefix lines 395-401 assign. *)

From Stdlib Require Import Strings.Byte Strings.Ascii Strings.String NArith ZArith.
From stdpp Require Import base option list strings gmap pretty.

Local Open Scope string_scope.
Local Open Scope list_scope.

(** ** Strings *)

Module Str.

Definition lower_ascii (c : ascii) : ascii :=
  let n := Ascii.N_of_ascii c in
  if ((65 <=? n) && (n <=? 90))%N then Ascii.ascii_of_N (n + 32) else c.

(** [str.lower()] *)
Fixpoint lower (s : string) : string :=
  match s with
  | EmptyString => EmptyString
  | String c t => String (lower_ascii c) (lower t)
  end.

(** [s.startswith(p)] *)
Definition startswith (s p : string) : bool := String.prefix p s.

(** [p in s] *)
Fixpoint contains (p s : string) : bool :=
  startswith s p ||
  match s with
  | EmptyString => false
  | String _ t => contains p t
  end.

(** [s.endswith(p)] *)
Fixpoint endswith (s p : string) : bool :=
  String.eqb s p ||
  match s with
  | EmptyString => false
  | String _ t => endswith t p
  end.

(** [s[:-n]] for [0 < n]; callers guard the case [n = 0]. *)
Definition drop_end (n : nat) (s : string) : string :=
  String.substring 0 (String.length s - n) s.

(** [s.split('/')] *)
Fixpoint split_slash (s : string) : list string :=
  match s with
  | EmptyString => [EmptyString]
  | String c t =>
      if Ascii.eqb c "/" then EmptyString :: split_slash t
      else match split_slash t with
           | [] => [String c EmptyString]
           | w :: ws => String c w :: ws
           end
  end.

(** ASCII white space, as [str.isspace] has it. *)
Definition is_space (c : ascii) : bool :=
  let n := Ascii.N_of_ascii c in
  ((9 <=? n) && (n <=? 13) || (28 <=? n) && (n <=? 32))%N.

Fixpoint lstrip (s : string) : string :=
  match s with
  | EmptyString => EmptyString
  | String c t => if is_space c then lstrip t else s
  end.

Fixpoint rstrip (s : string) : string :=
  match s with
  | EmptyString => EmptyString
  | String c t =>
      match rstrip t with
      | EmptyString => if is_space c then EmptyString else String c EmptyString
      | r => String c r
      end
  end.

(** [s.strip()] *)
Definition strip (s : string) : string := rstrip (lstrip s).

(** [s.split(';', 1)[0]] *)
Fixpoint before_semicolon (s : string) : string :=
  match s with
  | EmptyString => EmptyString
  | String c t => if Ascii.eqb c ";" then EmptyString else String c (before_semicolon t)
  end.

End Str.

(** ** Paths *)

Module PathLib.

(** [Path(p).name]: the last component that is neither empty nor [.]. *)
Definition name (p : string) : string :=
  List.last
    (List.filter (fun c => negb (String.eqb c "" || String.eqb c "."))
       (Str.split_slash p))
    "".

(** The text from the last dot of [s] on, when [s] has a dot. *)
Fixpoint from_last_dot (s : string) : option string :=
  match s with
  | EmptyString => None
  | String c t =>
      match from_last_dot t with
      | Some r => Some r
      | None => if Ascii.eqb c "." then Some s else None
      end
  end.

(** [Path(p).suffix]: with [i = name.rfind('.')], the text [name[i:]] when
    [0 < i < len(name) - 1], the empty string otherwise. *)
Definition suffix_of_name (nm : string) : string :=
  match nm with
  | EmptyString => ""
  | String _ t =>
      match from_last_dot t with
      | Some r => if Nat.eqb (String.length r) 1 then "" else r
      | None => ""
      end
  end.

Definition suffix (p : string) : string := suffix_of_name (name p).

End PathLib.

(** ** Archive member classification (lines 599-613) *)

Inductive Role := Main | Overlay.

#[export] Instance Role_eq_dec : EqDecision Role.
Proof. solve_decision. Defined.

Definition newline : ascii := Ascii.ascii_of_nat 10.

(** The alternation [-(?:main|overlay)] under [re.I], tried at the head
    of [s]. *)
Definition marker_here (s : string) : bool :=
  Str.startswith (Str.lower s) "-main" || Str.startswith (Str.lower s) "-overlay".

(** Offset of the first marker in [s] that no newline precedes. *)
Fixpoint marker_pos (s : string) : option nat :=
  if marker_here s then Some 0
  else match s with
       | EmptyString => None
       | String c t => if Ascii.eqb c newline then None else S <$> marker_pos t
       end.

(** [re.match(r'(.+?)-(?:main|overlay)', s, re.I)], giving [m.group(1)]:
    the lazy group takes at least one character, none of them a newline,
    and stops at the first place where the marker follows. *)
Definition match_base (s : string) : option string :=
  match s with
  | EmptyString => None
  | String c t =>
      if Ascii.eqb c newline then None
      else p ← marker_pos t; Some (String.substring 0 (S p) s)
  end.

Definition main_exts : list string := [".jpg"; ".jpeg"; ".mp4"].

Definition is_main_ext (ext : string) : bool :=
  bool_decide (ext ∈ main_exts).

(** Lines 603-605. *)
Definition member_ext (member : string) : string :=
  let nm := PathLib.name member in
  Str.lower (PathLib.suffix nm).

Definition member_stem (member : string) : string :=
  let nm := PathLib.name member in
  let ext := member_ext member in
  if String.eqb ext "" then nm else Str.drop_end (String.length ext) nm.

(** The body of the loop over [z.namelist()]: [None] is the [continue]
    and the fall-through of the [if]/[elif]; otherwise the dictionary
    key and the dictionary the member goes to. *)
Definition classify (member : string) : option (string * Role) :=
  let ext := member_ext member in
  let name_no_ext := member_stem member in
  base ← match_base name_no_ext;
  if Str.contains "-main" (Str.lower name_no_ext) && is_main_ext ext
  then Some (base, Main)
  else if Str.contains "-overlay" (Str.lower name_no_ext) && String.eqb ext ".png"
  then Some (base, Overlay)
  else None.


(** ** Data model *)

Definition bytes := list byte.

(** One row of the export table.  [rec_url] is the value stored under
    both ['Media Download Url'] and ['Download Link'] (line 333),
    [rec_prefix] the value stored under ['_prefix'] (line 401). *)
Record Rec := {
  rec_date : string;
  rec_media_type : string;
  rec_location : string;
  rec_url : option string;
  rec_prefix : string;
}.

(** [record.get('Media Download Url') or record.get('Download Link')]
    followed by [if not url]: [None] and the empty string are both
    falsy. *)
Definition url_of (r : Rec) : option string :=
  match rec_url r with
  | Some u => if String.eqb u "" then None else Some u
  | None => None
  end.

Inductive Dest := DestLocal | DestGdrive.
Inductive ConflictMode := ModeSkip | ModeOverwrite | ModeNew.

(** The [meta] and [app_props] dictionaries (lines 240-247, 265-272);
    the two coordinates are present together or absent together.  The
    last key is set by the local-only script alone. *)
Record Meta := {
  meta_date : string;
  meta_media_type : string;
  meta_location : string;
  meta_coords : option (string * string);
  meta_source : option string;
  meta_archive_member : option string;
}.

(** An object of the Drive folder. *)
Record DriveFile := {
  df_id : string;
  df_name : string;
  df_content : bytes;
  df_mime : string;
  df_props : Meta;
}.

(** What [save_or_upload_bytes] returns. *)
Inductive Info :=
  | InfoSkipped (gdrive_ids : list string)
  | InfoUploaded (gdrive_id : string) (webViewLink : option string)
  | InfoPath (path : string).

(** An element of [saved_files]: the archive path appends the [Info],
    the plain path appends the file name (line 752). *)
Inductive Saved :=
  | SavedInfo (i : Info)
  | SavedName (name : string).

(** Messages printed by the script. *)
Inductive Diag :=
  | DHttpError (url : string)
  | DDownloadError (url : string)
  | DZipOpenFailed (url : string)
  | DNoMain (url : string)
  | DPillowMissing
  | DReadMainFailed (member : string)
  | DOverlayFailed (om main : string)
  | DCompositeFailed (main : string)
  | DFfmpegMissing
  | DOverlaySkipped (om : string)
  | DFfmpegFailed (om main : string)
  | DOverlayStepFailed (om main : string)
  | DUnsupportedMain (member : string)
  | DSaveFailed (url name : string)
  | DMetadataFailed (name : string)
  | DGdriveNotConfigured
  | DQuotaQueryFailed
  | DQuotaNoLimit
  | DQuotaUnparsable
  | DQuotaInsufficient
  | DDiskUnknown
  | DDiskInsufficient
  | DDeleteFailed (fid name : string)
  | DUploadQuota
  | DUploadFailed (name : string)
  | DServiceAccountMissing
  | DInitFailedFallback
  | DFolderInaccessible
  | DFolderCreateFailed
  | DListingFailed
  | DLocalListingFailed
  | DNewModeSummary (skipped kept : nat)
  | DProcessing (url : string)
  | DExtractFailed (member url : string)
  | DNoMedia (url : string).

(** What the script does to the outside, in the order it does it. *)
Inductive Event :=
  | EvLog (d : Diag)
  | EvDownload (url : string)
  | EvLocalWrite (name : string) (data : bytes)
  | EvEmbed (name : string)
  | EvDelete (fid : string)
  | EvUpload (name : string) (data : bytes)
  | EvFfmpeg (om : string).

(** ** The outside world *)

Inductive HttpAnswer :=
  | HttpFailed
  | TransportFailed
  | HttpOk (data : bytes) (content_type : option string).

Record Archive := {
  namelist : list string;
  read_member : string -> option bytes;
}.

Inductive QuotaAnswer :=
  | QuotaQueryFailed
  | QuotaNoLimit
  | QuotaUnparsable
  | Quota (limit usage : Z).

Inductive UploadAnswer :=
  | UploadOk (id : string) (webViewLink : option string)
  | UploadQuotaError
  | UploadError.

Inductive FfmpegAnswer :=
  | FfmpegOk (out : bytes)
  | FfmpegNonZero
  | FfmpegRaised.

Inductive CreateAnswer :=
  | CreateFailed
  | Created (id : option string).

(** A decoded picture. *)
Definition Image := bytes.

Record World := {
  (* network and archive library *)
  http_get : string -> HttpAnswer;
  url_path : string -> string;
  is_zipfile : bytes -> bool;
  open_zip : bytes -> option Archive;
  (* imaging library and compositing tool *)
  pillow_installed : bool;
  image_open : bytes -> option Image;
  alpha_composite : Image -> Image -> option Image;
  encode_jpeg : Image -> option bytes;
  overlay_to_png : bytes -> option Image;
  ffmpeg_path : option string;
  ffmpeg_overlay : bytes -> Image -> FfmpegAnswer;
  (* local disk *)
  disk_free : gmap string bytes -> option Z;
  local_write_ok : string -> bool;
  (* what a write that fails leaves under the name: nothing new when the
     file could not be opened, the first [n] bytes otherwise *)
  write_left : string -> bytes -> option nat;
  local_listing_ok : bool;
  (* Drive API *)
  init_gdrive_service : string -> bool;
  folder_accessible : string -> bool;
  create_gdrive_folder : CreateAnswer;
  drive_listing_ok : bool;
  drive_quota : list DriveFile -> QuotaAnswer;
  drive_delete_ok : string -> bool;
  drive_upload : list DriveFile -> string -> bytes -> UploadAnswer;
  (* metadata *)
  regex_coords : string -> option (string * string);
  piexif_installed : bool;
  exif_insert : bytes -> string * string -> option bytes;
  mp4_tag : bytes -> Meta -> option bytes;
  stream_write_ok : string -> bool;
  json_dumps : Meta -> bytes;
}.

(** ** Program state *)

Record State := {
  (* module-level globals, lines 22-28 *)
  DESTINATION : Dest;
  GDRIVE_SERVICE : bool;
  GDRIVE_FOLDER_ID : option string;
  CONFLICT_MODE : ConflictMode;
  GDRIVE_EXISTING : gmap string (list string);
  (* the two destinations *)
  drive : list DriveFile;
  local_dir : gmap string bytes;
  (* everything done so far, oldest first *)
  trace : list Event;
}.

Definition with_trace (f : list Event -> list Event) (s : State) : State :=
  {| DESTINATION := DESTINATION s; GDRIVE_SERVICE := GDRIVE_SERVICE s;
     GDRIVE_FOLDER_ID := GDRIVE_FOLDER_ID s; CONFLICT_MODE := CONFLICT_MODE s;
     GDRIVE_EXISTING := GDRIVE_EXISTING s; drive := drive s;
     local_dir := local_dir s; trace := f (trace s) |}.

Definition with_existing (f : gmap string (list string) -> gmap string (list string))
    (s : State) : State :=
  {| DESTINATION := DESTINATION s; GDRIVE_SERVICE := GDRIVE_SERVICE s;
     GDRIVE_FOLDER_ID := GDRIVE_FOLDER_ID s; CONFLICT_MODE := CONFLICT_MODE s;
     GDRIVE_EXISTING := f (GDRIVE_EXISTING s); drive := drive s;
     local_dir := local_dir s; trace := trace s |}.

Definition with_drive (f : list DriveFile -> list DriveFile) (s : State) : State :=
  {| DESTINATION := DESTINATION s; GDRIVE_SERVICE := GDRIVE_SERVICE s;
     GDRIVE_FOLDER_ID := GDRIVE_FOLDER_ID s; CONFLICT_MODE := CONFLICT_MODE s;
     GDRIVE_EXISTING := GDRIVE_EXISTING s; drive := f (drive s);
     local_dir := local_dir s; trace := trace s |}.

Definition with_local_dir (f : gmap string bytes -> gmap string bytes) (s : State) : State :=
  {| DESTINATION := DESTINATION s; GDRIVE_SERVICE := GDRIVE_SERVICE s;
     GDRIVE_FOLDER_ID := GDRIVE_FOLDER_ID s; CONFLICT_MODE := CONFLICT_MODE s;
     GDRIVE_EXISTING := GDRIVE_EXISTING s; drive := drive s;
     local_dir := f (local_dir s); trace := trace s |}.

(** ** Control: normal return, [sys.exit], a raised exception *)

Inductive Outcome (A : Type) :=
  | Ret (a : A) (s : State)
  | Exit (s : State)
  | Raise (s : State).
Arguments Ret {A} a s.
Arguments Exit {A} s.
Arguments Raise {A} s.

Definition M (A : Type) : Type := State -> Outcome A.

Definition ret {A} (a : A) : M A := fun s => Ret a s.

Definition bind {A B} (m : M A) (k : A -> M B) : M B :=
  fun s => match m s with
           | Ret a s' => k a s'
           | Exit s' => Exit s'
           | Raise s' => Raise s'
           end.

Declare Scope prog_scope.
Delimit Scope prog_scope with prog.
Notation "x <~ m ;; k" := (bind m (fun x => k))
  (at level 100, m at next level, right associativity) : prog_scope.
Notation "m ;; k" := (bind m (fun _ => k))
  (at level 100, right associativity) : prog_scope.
Local Open Scope prog_scope.

(** [sys.exit(1)] *)
Definition exit {A} : M A := fun s => Exit s.
(** [raise] *)
Definition raise {A} : M A := fun s => Raise s.
(** [try: m  except Exception: h]; [SystemExit] is not an [Exception]. *)
Definition try_except {A} (m : M A) (h : M A) : M A :=
  fun s => match m s with
           | Raise s' => h s'
           | o => o
           end.

Definition gets {A} (f : State -> A) : M A := fun s => Ret (f s) s.
Definition modify (f : State -> State) : M unit := fun s => Ret tt (f s).
Definition emit (e : Event) : M unit := modify (with_trace (fun t => t ++ [e])).
(** [print(...)] *)
Definition log (d : Diag) : M unit := emit (EvLog d).
(** [print(...); sys.exit(1)] *)
Definition fatal {A} (d : Diag) : M A := log d ;; exit.

(** The state an outcome ends in. *)
Definition final {A} (o : Outcome A) : State :=
  match o with Ret _ s | Exit s | Raise s => s end.

(** ** Destination: space guard, conflict handling, write (lines 137-277) *)

Definition snapchat_dir : string := "snapchat_memories".

(** [bool(x)] of an optional string. *)
Definition truthy (o : option string) : bool :=
  match o with
  | Some x => negb (String.eqb x "")
  | None => false
  end.

Section Destination.

Variable w : World.

(** Lines 462-481; [regex_coords] stands for the two searches and the
    conversion of the matched decimal texts. *)
Definition parse_location (location_str : string) : option (string * string) :=
  if String.eqb location_str "" then None else regex_coords w location_str.

Definition meta_of (rec : Rec) : Meta :=
  {| meta_date := rec_date rec;
     meta_media_type := rec_media_type rec;
     meta_location := rec_location rec;
     meta_coords := parse_location (rec_location rec);
     meta_source := rec_url rec;
     meta_archive_member := None |}.

Definition check_local_space (required : nat) : M unit :=
  dir <~ gets local_dir ;;
  match disk_free w dir with
  | None => fatal DDiskUnknown
  | Some free =>
      if (free <? Z.of_nat required)%Z then fatal DDiskInsufficient else ret tt
  end.

Definition check_gdrive_space (required : nat) : M unit :=
  files <~ gets drive ;;
  match drive_quota w files with
  | QuotaQueryFailed => fatal DQuotaQueryFailed
  | QuotaNoLimit => fatal DQuotaNoLimit
  | QuotaUnparsable => fatal DQuotaUnparsable
  | Quota limit usage =>
      if (limit - usage <? Z.of_nat required)%Z then fatal DQuotaInsufficient
      else ret tt
  end.

Definition delete_gdrive_file (fid : string) : M unit :=
  emit (EvDelete fid) ;;
  if drive_delete_ok w fid
  then modify (with_drive (List.filter (fun f => negb (String.eqb (df_id f) fid))))
  else raise.

(** Lines 231-236. *)
Fixpoint delete_all (filename : string) (ids : list string) : M unit :=
  match ids with
  | [] => ret tt
  | fid :: rest =>
      try_except (delete_gdrive_file fid) (fatal (DDeleteFailed fid filename)) ;;
      delete_all filename rest
  end.

Definition mime_of (ext : string) : string :=
  if String.eqb ext ".jpg" || String.eqb ext ".jpeg" then "image/jpeg"
  else if String.eqb ext ".mp4" then "video/mp4"
  else "application/octet-stream".

(** Lines 181-206; the created object is returned as its id and link. *)
Definition upload_bytes_to_gdrive (filename : string) (bts : bytes) (mime : string)
    (props : Meta) : M (string * option string) :=
  emit (EvUpload filename bts) ;;
  files <~ gets drive ;;
  match drive_upload w files filename bts with
  | UploadOk id link =>
      modify (with_drive (fun fs => fs ++
        [{| df_id := id; df_name := filename; df_content := bts;
            df_mime := mime; df_props := props |}])) ;;
      ret (id, link)
  | UploadQuotaError => fatal DUploadQuota
  | UploadError => raise
  end.

Definition is_jpeg_ext (ext : string) : bool :=
  String.eqb ext ".jpg" || String.eqb ext ".jpeg".

(** One strategy of the chain: [Some b] is [return b], [None] is the
    swallowed exception or the skipped branch. *)
Definition embed_exif (filename : string) (meta : Meta) : M (option bool) :=
  if negb (is_jpeg_ext (Str.lower (PathLib.suffix filename))) then ret None
  else if negb (piexif_installed w && pillow_installed w) then ret None
  else match meta_coords meta with
       | None => ret (Some false)
       | Some c =>
           dir <~ gets local_dir ;;
           match dir !! filename with
           | None => ret None
           | Some content =>
               match exif_insert w content c with
               | None => ret None
               | Some content' =>
                   modify (with_local_dir (insert filename content')) ;;
                   ret (Some true)
               end
           end
       end.

Definition embed_mp4 (filename : string) (meta : Meta) : M (option bool) :=
  if negb (String.eqb (Str.lower (PathLib.suffix filename)) ".mp4") then ret None
  else
    dir <~ gets local_dir ;;
    match dir !! filename with
    | None => ret None
    | Some content =>
        match mp4_tag w content meta with
        | None => ret None
        | Some content' =>
            modify (with_local_dir (insert filename content')) ;;
            ret (Some true)
        end
    end.

(** What [with open(path, 'w') as f: f.write(bts)] leaves when it
    fails: the open creates or truncates the file before anything is
    written. *)
Definition failed_write (filename : string) (bts : bytes) : M unit :=
  match write_left w filename bts with
  | Some n => modify (with_local_dir (insert filename (take n bts)))
  | None => ret tt
  end.

(** Lines 546-554. *)
Definition embed_stream (filename : string) (meta : Meta) : M bool :=
  let ads_path := filename +:+ ":snapchat_metadata" in
  if stream_write_ok w filename
  then modify (with_local_dir (insert ads_path (json_dumps w meta))) ;;
       ret true
  else failed_write ads_path (json_dumps w meta) ;;
       log (DMetadataFailed filename) ;; ret false.

(** Lines 483-554. *)
Definition write_file_metadata (filename : string) (meta : Meta) : M bool :=
  emit (EvEmbed filename) ;;
  r1 <~ embed_exif filename meta ;;
  match r1 with
  | Some b => ret b
  | None =>
      r2 <~ embed_mp4 filename meta ;;
      match r2 with
      | Some b => ret b
      | None => embed_stream filename meta
      end
  end.

(** Lines 456-459. *)
Definition save_bytes_to_file (bts : bytes) (filename : string) : M unit :=
  emit (EvLocalWrite filename bts) ;;
  if local_write_ok w filename
  then modify (with_local_dir (insert filename bts))
  else failed_write filename bts ;; raise.

Definition gdrive_configured (s : State) : bool :=
  GDRIVE_SERVICE s && truthy (GDRIVE_FOLDER_ID s).

(** Lines 224-238: [Some info] is the early [return]. *)
Definition resolve_conflict (filename : string) : M (option Info) :=
  existing <~ gets GDRIVE_EXISTING ;;
  mode <~ gets CONFLICT_MODE ;;
  let existing_ids := default [] (existing !! filename) in
  match existing_ids with
  | [] => ret None
  | _ :: _ =>
      match mode with
      | ModeSkip => ret (Some (InfoSkipped existing_ids))
      | ModeOverwrite =>
          delete_all filename existing_ids ;;
          modify (with_existing (delete filename)) ;;
          ret None
      | ModeNew => ret None
      end
  end.

(** Lines 209-277. *)
Definition save_or_upload_bytes (bts : bytes) (filename : string) (rec : Rec)
    (ext : string) : M Info :=
  let required := List.length bts in
  dest <~ gets DESTINATION ;;
  match dest with
  | DestGdrive =>
      ok <~ gets gdrive_configured ;;
      if negb ok then fatal DGdriveNotConfigured else
      check_gdrive_space required ;;
      ok' <~ gets gdrive_configured ;;
      if negb ok' then fatal DGdriveNotConfigured else
      early <~ resolve_conflict filename ;;
      match early with
      | Some info => ret info
      | None =>
          try_except
            (created <~ upload_bytes_to_gdrive filename bts (mime_of ext) (meta_of rec) ;;
             modify (with_existing (fun m =>
               <[filename := default [] (m !! filename) ++ [created.1]]> m)) ;;
             ret (InfoUploaded created.1 created.2))
            (fatal (DUploadFailed filename))
      end
  | DestLocal =>
      check_local_space required ;;
      save_bytes_to_file bts filename ;;
      try_except (write_file_metadata filename (meta_of rec) ;; ret tt) (ret tt) ;;
      ret (InfoPath (snapchat_dir +:+ "/" +:+ filename))
  end.

End Destination.

(** ** Bundle processor (lines 430-453, 556-756) *)

(** Insertion-ordered dictionaries: assigning to a key that is present
    keeps the key where it is. *)
Fixpoint dict_set {V} (k : string) (v : V) (d : list (string * V)) : list (string * V) :=
  match d with
  | [] => [(k, v)]
  | (k', v') :: d' =>
      if String.eqb k' k then (k', v) :: d' else (k', v') :: dict_set k v d'
  end.

Fixpoint dict_get {V} (k : string) (d : list (string * V)) : option V :=
  match d with
  | [] => None
  | (k', v') :: d' => if String.eqb k' k then Some v' else dict_get k d'
  end.

(** The loop of lines 602-613 over the remaining member names, from the
    dictionaries built so far. *)
Fixpoint collect (names : list string) (mains : list (string * string))
    (overlays : list (string * list string))
    : list (string * string) * list (string * list string) :=
  match names with
  | [] => (mains, overlays)
  | member :: rest =>
      match classify member with
      | Some (base, Main) => collect rest (dict_set base member mains) overlays
      | Some (base, Overlay) =>
          collect rest mains
            (dict_set base (default [] (dict_get base overlays) ++ [member]) overlays)
      | None => collect rest mains overlays
      end
  end.

Definition allowed_char (c : ascii) : bool :=
  let n := Ascii.N_of_ascii c in
  ((48 <=? n) && (n <=? 57) || (65 <=? n) && (n <=? 90) || (97 <=? n) && (n <=? 122)
   || (n =? 46) || (n =? 95) || (n =? 45))%N.

(** [re.sub(r"\s+", "_", s)] *)
Fixpoint squeeze_spaces (in_run : bool) (s : string) : string :=
  match s with
  | EmptyString => EmptyString
  | String c t =>
      if Str.is_space c
      then if in_run then squeeze_spaces true t else String "_" (squeeze_spaces true t)
      else String c (squeeze_spaces false t)
  end.

(** [re.sub(r'[^A-Za-z0-9._-]', '_', s)] *)
Fixpoint replace_disallowed (s : string) : string :=
  match s with
  | EmptyString => EmptyString
  | String c t => String (if allowed_char c then c else "_"%char) (replace_disallowed t)
  end.

Definition sanitize_prefix (date_str location_str : string) : string :=
  replace_disallowed (squeeze_spaces false (date_str +:+ "_" +:+ location_str)).

(** [record.get('_prefix') or sanitize_prefix(...)] *)
Definition prefix_of (record : Rec) : string :=
  if String.eqb (rec_prefix record) ""
  then sanitize_prefix (rec_date record) (rec_location record)
  else rec_prefix record.

Definition get_extension_from_content_type (ct : option string) : option string :=
  match ct with
  | None => None
  | Some ct =>
      if String.eqb ct "" then None else
      let ct := Str.lower (Str.strip (Str.before_semicolon ct)) in
      if String.eqb ct "image/jpeg" || String.eqb ct "image/jpg" then Some ".jpg"
      else if String.eqb ct "image/png" then Some ".png"
      else if String.eqb ct "video/mp4" then Some ".mp4"
      else if String.eqb ct "application/zip" then Some ".zip"
      else None
  end.

(** [prefix], then ["_{count}"] from the second output on, then the
    extension (lines 638-641). *)
Definition out_filename (prefix : string) (count : nat) (ext_inner : string) : string :=
  prefix +:+ (if (0 <? count)%nat then "_" +:+ pretty count else "") +:+ ext_inner.

Section Bundle.

Variable w : World.

(** Lines 650-659: every failure while reading, decoding or applying an
    overlay prints and exits. *)
Fixpoint composite_overlays (z : Archive) (main_member : string)
    (overlay_members : list string) (img : Image) : M Image :=
  match overlay_members with
  | [] => ret img
  | om :: rest =>
      match read_member z om with
      | None => fatal (DOverlayFailed om main_member)
      | Some overlay_bytes =>
          match image_open w overlay_bytes with
          | None => fatal (DOverlayFailed om main_member)
          | Some overlay_img =>
              match alpha_composite w img overlay_img with
              | None => fatal (DOverlayFailed om main_member)
              | Some img' => composite_overlays z main_member rest img'
              end
          end
      end
  end.

(** Lines 646-670. *)
Definition process_image (z : Archive) (record : Rec) (main_member : string)
    (main_bytes : bytes) (overlay_members : list string) (filename ext_inner : string)
    : M Info :=
  try_except
    (match image_open w main_bytes with
     | None => raise
     | Some img =>
         img' <~ composite_overlays z main_member overlay_members img ;;
         match encode_jpeg w img' with
         | None => raise
         | Some out_bytes => save_or_upload_bytes w out_bytes filename record ext_inner
         end
     end)
    (fatal (DCompositeFailed main_member)).

(** Lines 684-719; [current] is the content of the file [current_input]
    names. *)
Fixpoint overlay_chain (z : Archive) (main_member : string)
    (overlay_members : list string) (current : bytes) : M bytes :=
  match overlay_members with
  | [] => ret current
  | om :: rest =>
      match read_member z om with
      | None => fatal (DOverlayStepFailed om main_member)
      | Some overlay_bytes =>
          match overlay_to_png w overlay_bytes with
          | None => log (DOverlaySkipped om) ;; overlay_chain z main_member rest current
          | Some img =>
              emit (EvFfmpeg om) ;;
              match ffmpeg_overlay w current img with
              | FfmpegOk out => overlay_chain z main_member rest out
              | FfmpegNonZero => fatal (DFfmpegFailed om main_member)
              | FfmpegRaised => fatal (DOverlayStepFailed om main_member)
              end
          end
      end
  end.

(** Lines 672-730. *)
Definition process_video (z : Archive) (record : Rec) (main_member : string)
    (main_bytes : bytes) (overlay_members : list string) (filename ext_inner : string)
    : M Info :=
  if negb (truthy (ffmpeg_path w)) then fatal DFfmpegMissing else
  final_bytes <~ overlay_chain z main_member overlay_members main_bytes ;;
  save_or_upload_bytes w final_bytes filename record ext_inner.

(** The loop of lines 628-734 over the remaining items of [mains]. *)
Fixpoint process_groups (z : Archive) (record : Rec) (prefix : string)
    (overlays : list (string * list string)) (mains : list (string * string))
    (saved_files : list Saved) (count : nat) : M (list Saved) :=
  match mains with
  | [] => ret saved_files
  | (base, main_member) :: rest =>
      match read_member z main_member with
      | None =>
          log (DReadMainFailed main_member) ;;
          process_groups z record prefix overlays rest saved_files count
      | Some main_bytes =>
          let ext_inner := Str.lower (PathLib.suffix main_member) in
          let filename := out_filename prefix count ext_inner in
          let overlay_members := default [] (dict_get base overlays) in
          if is_jpeg_ext ext_inner then
            info <~ process_image z record main_member main_bytes overlay_members
                      filename ext_inner ;;
            process_groups z record prefix overlays rest
              (saved_files ++ [SavedInfo info]) (S count)
          else if String.eqb ext_inner ".mp4" then
            info <~ process_video z record main_member main_bytes overlay_members
                      filename ext_inner ;;
            process_groups z record prefix overlays rest
              (saved_files ++ [SavedInfo info]) (S count)
          else
            log (DUnsupportedMain main_member) ;;
            process_groups z record prefix overlays rest saved_files count
      end
  end.

(** Lines 592-735, once the archive is open. *)
Definition process_archive (z : Archive) (record : Rec) (url : string)
    : M (list Saved) :=
  let '(mains, overlays) := collect (namelist z) [] [] in
  match mains with
  | [] => log (DNoMain url) ;; ret []
  | _ :: _ =>
      if negb (pillow_installed w) then fatal DPillowMissing else
      process_groups z record (prefix_of record) overlays mains [] 0
  end.

(** Lines 736-754. *)
Definition process_plain (record : Rec) (url : string) (data : bytes)
    (ext : option string) : M (list Saved) :=
  let ext_from_url := PathLib.suffix (url_path w url) in
  let final_ext := if String.eqb ext_from_url "" then ext else Some ext_from_url in
  let final_ext := if truthy final_ext then Str.lower (default "" final_ext) else ".bin" in
  let out_name := prefix_of record +:+ final_ext in
  try_except
    (save_or_upload_bytes w data out_name record final_ext ;;
     ret [SavedName out_name])
    (log (DSaveFailed url out_name) ;; ret []).

Definition detect_zip (url : string) (data : bytes) (ext : option string) : bool :=
  bool_decide (ext = Some ".zip") || Str.endswith (Str.lower url) ".zip"
  || is_zipfile w data.

(** Lines 556-756; [None] is Python's [None]. *)
Definition download_and_process (record : Rec) : M (option (list Saved)) :=
  match url_of record with
  | None => ret None
  | Some url =>
      emit (EvDownload url) ;;
      match http_get w url with
      | HttpFailed => log (DHttpError url) ;; ret None
      | TransportFailed => log (DDownloadError url) ;; ret None
      | HttpOk data content_type =>
          let ext := get_extension_from_content_type content_type in
          if detect_zip url data ext then
            match open_zip w data with
            | None => log (DZipOpenFailed url) ;; ret None
            | Some z => saved <~ process_archive z record url ;; ret (Some saved)
            end
          else
            saved <~ process_plain record url data ext ;; ret (Some saved)
      end
  end.

End Bundle.

(** ** The script from top to bottom (lines 31-81, 403-426, 759-778) *)

(** What the user types at the four prompts; [None] for the first is the
    [input] call raising. *)
Record Console := {
  typed_choice : option string;
  typed_service_account : string;
  typed_folder : string;
  typed_conflict : string;
}.

(** A run's report: [all_saved], as written to [download_report.json]. *)
Abbreviation Report := (gmap string (option (list Saved))).

(** The state the module starts in (lines 22-28), around the given
    contents of the two destinations. *)
Definition initial_state (files : list DriveFile) (dir : gmap string bytes) : State :=
  {| DESTINATION := DestLocal; GDRIVE_SERVICE := false; GDRIVE_FOLDER_ID := None;
     CONFLICT_MODE := ModeSkip; GDRIVE_EXISTING := ∅;
     drive := files; local_dir := dir; trace := [] |}.

Definition set_destination (d : Dest) (s : State) : State :=
  {| DESTINATION := d; GDRIVE_SERVICE := GDRIVE_SERVICE s;
     GDRIVE_FOLDER_ID := GDRIVE_FOLDER_ID s; CONFLICT_MODE := CONFLICT_MODE s;
     GDRIVE_EXISTING := GDRIVE_EXISTING s; drive := drive s;
     local_dir := local_dir s; trace := trace s |}.

Definition set_service (b : bool) (s : State) : State :=
  {| DESTINATION := DESTINATION s; GDRIVE_SERVICE := b;
     GDRIVE_FOLDER_ID := GDRIVE_FOLDER_ID s; CONFLICT_MODE := CONFLICT_MODE s;
     GDRIVE_EXISTING := GDRIVE_EXISTING s; drive := drive s;
     local_dir := local_dir s; trace := trace s |}.

Definition set_folder_id (f : option string) (s : State) : State :=
  {| DESTINATION := DESTINATION s; GDRIVE_SERVICE := GDRIVE_SERVICE s;
     GDRIVE_FOLDER_ID := f; CONFLICT_MODE := CONFLICT_MODE s;
     GDRIVE_EXISTING := GDRIVE_EXISTING s; drive := drive s;
     local_dir := local_dir s; trace := trace s |}.

Definition set_conflict_mode (m : ConflictMode) (s : State) : State :=
  {| DESTINATION := DESTINATION s; GDRIVE_SERVICE := GDRIVE_SERVICE s;
     GDRIVE_FOLDER_ID := GDRIVE_FOLDER_ID s; CONFLICT_MODE := m;
     GDRIVE_EXISTING := GDRIVE_EXISTING s; drive := drive s;
     local_dir := local_dir s; trace := trace s |}.

(** Lines 104-120: file name to the ids of the objects carrying it, in
    listing order. *)
Fixpoint build_gdrive_existing_map (files : list DriveFile) (existing : gmap string (list string))
    : gmap string (list string) :=
  match files with
  | [] => existing
  | f :: rest =>
      build_gdrive_existing_map rest
        (<[df_name f := default [] (existing !! df_name f) ++ [df_id f]]> existing)
  end.

Section Script.

Variable w : World.

(** Lines 46-50. *)
Definition read_conflict_mode (cm : string) : M unit :=
  if String.eqb cm "overwrite" then modify (set_conflict_mode ModeOverwrite)
  else if String.eqb cm "skip" then modify (set_conflict_mode ModeSkip)
  else if String.eqb cm "new" then modify (set_conflict_mode ModeNew)
  else ret tt.

(** Lines 31-81.  The [global] statement of line 33 names [DESTINATION],
    [GDRIVE_SERVICE], [GDRIVE_FOLDER_ID] and [CONFLICT_MODE] only, so the
    assignment of line 78 binds a variable local to the function: the
    listing is computed, and the module-level [GDRIVE_EXISTING] keeps the
    value it had. *)
Definition prompt_destination (con : Console) : M unit :=
  let choice := Str.lower (Str.strip (default "" (typed_choice con))) in
  if negb (String.eqb choice "gdrive") then ret tt else
  modify (set_destination DestGdrive) ;;
  let sa := Str.strip (typed_service_account con) in
  let folder := Str.strip (typed_folder con) in
  read_conflict_mode (Str.lower (Str.strip (typed_conflict con))) ;;
  if String.eqb sa "" then fatal DServiceAccountMissing else
  if negb (init_gdrive_service w sa) then log DInitFailedFallback else
  modify (set_service true) ;;
  (if negb (String.eqb folder "") then
     modify (set_folder_id (Some folder)) ;;
     if folder_accessible w folder then ret tt else fatal DFolderInaccessible
   else
     match create_gdrive_folder w with
     | CreateFailed => fatal DFolderCreateFailed
     | Created id => modify (set_folder_id id)
     end) ;;
  if negb (drive_listing_ok w) then fatal DListingFailed else
  files <~ gets drive ;;
  let GDRIVE_EXISTING_local := build_gdrive_existing_map files ∅ in
  ret tt.

(** Line 420. *)
Definition already_present (existing_names : gset string) (rec : Rec) : bool :=
  existsb (fun name => Str.startswith name (rec_prefix rec)) (elements existing_names).

(** Lines 403-426: the records the rest of the script goes on with. *)
Definition filter_new (records : list Rec) : M (list Rec) :=
  mode <~ gets CONFLICT_MODE ;;
  match mode with
  | ModeNew =>
      dest <~ gets DESTINATION ;;
      existing_names <~
        match dest with
        | DestGdrive =>
            ok <~ gets gdrive_configured ;;
            if negb ok then fatal DGdriveNotConfigured else
            existing <~ gets GDRIVE_EXISTING ;;
            ret (dom existing)
        | DestLocal =>
            if local_listing_ok w then dir <~ gets local_dir ;; ret (dom dir)
            else fatal DLocalListingFailed
        end ;;
      let new_records := List.filter (fun rec => negb (already_present existing_names rec)) records in
      log (DNewModeSummary (List.length records - List.length new_records)
             (List.length new_records)) ;;
      ret new_records
  | _ => ret records
  end.

(** The loop both scripts end with (lines 767-773, and 389-395 of the
    local-only script), over the records it is given. *)
Fixpoint main_loop (process : Rec -> M (option (list Saved))) (recs : list Rec)
    (all_saved : Report) : M Report :=
  match recs with
  | [] => ret all_saved
  | rec :: rest =>
      if negb (truthy (rec_url rec)) then main_loop process rest all_saved else
      let url := default "" (rec_url rec) in
      log (DProcessing url) ;;
      saved <~ process rec ;;
      main_loop process rest (<[url := saved]> all_saved)
  end.

(** Lines 763 and 767: the records the loop of [extract_memories.py] is
    given. *)
Definition is_video (rec : Rec) : bool := String.eqb (rec_media_type rec) "Video".
Definition videos (records : list Rec) : list Rec := List.filter is_video records.
Definition looped_records (records : list Rec) : list Rec := skipn 137 (videos records).

(** [extract_memories.py], from the prompt to the report. *)
Definition extract_memories (con : Console) (records : list Rec) : M Report :=
  prompt_destination con ;;
  records' <~ filter_new records ;;
  main_loop (download_and_process w) (looped_records records') ∅.

End Script.

(** ** The local-only script ([extract_memories_only_local.py]) *)

Section LocalOnly.

Variable w : World.

Definition local_path (filename : string) : string := snapchat_dir +:+ "/" +:+ filename.

Definition local_meta (record : Rec) (url : string) (member : option string) : Meta :=
  {| meta_date := rec_date record;
     meta_media_type := rec_media_type record;
     meta_location := rec_location record;
     meta_coords := parse_location w (rec_location record);
     meta_source := Some url;
     meta_archive_member := member |}.

(** Lines 377-380 and 338-341 of the local-only script. *)
Definition embed_logged (filename : string) (meta : Meta) : M unit :=
  try_except (write_file_metadata w filename meta ;; ret tt)
             (log (DMetadataFailed filename)).

Definition wanted_member (member : string) : bool :=
  let name_lower := Str.lower member in
  Str.endswith name_lower ".jpg" || Str.endswith name_lower ".jpeg"
  || Str.endswith name_lower ".mp4".

(** Lines 311-345 of the local-only script. *)
Fixpoint extract_members (z : Archive) (record : Rec) (url prefix : string)
    (names : list string) (saved_files : list Saved) (count : nat) : M (list Saved) :=
  match names with
  | [] => ret saved_files
  | member :: rest =>
      if negb (wanted_member member)
      then extract_members z record url prefix rest saved_files count
      else
        let ext_inner := Str.lower (PathLib.suffix member) in
        let filename := out_filename prefix count ext_inner in
        match read_member z member with
        | None =>
            log (DExtractFailed member url) ;;
            extract_members z record url prefix rest saved_files count
        | Some content =>
            written <~ try_except (save_bytes_to_file w content filename ;; ret true)
                                  (log (DExtractFailed member url) ;; ret false) ;;
            if written : bool then
              embed_logged filename (local_meta record url (Some member)) ;;
              extract_members z record url prefix rest
                (saved_files ++ [SavedName (local_path filename)]) (S count)
            else extract_members z record url prefix rest saved_files count
        end
  end.

(** Lines 349-382 of the local-only script. *)
Definition save_plain_local (record : Rec) (url : string) (data : bytes)
    (ext : option string) : M (list Saved) :=
  let ext_from_url := PathLib.suffix (url_path w url) in
  let final_ext := if String.eqb ext_from_url "" then ext else Some ext_from_url in
  let final_ext := if truthy final_ext then Str.lower (default "" final_ext) else ".bin" in
  let out_name := prefix_of record +:+ final_ext in
  try_except
    (save_bytes_to_file w data out_name ;;
     embed_logged out_name (local_meta record url None) ;;
     ret [SavedName (local_path out_name)])
    (log (DSaveFailed url out_name) ;; ret []).

(** Lines 266-384 of the local-only script. *)
Definition download_and_process_local (record : Rec) : M (option (list Saved)) :=
  match url_of record with
  | None => ret None
  | Some url =>
      emit (EvDownload url) ;;
      match http_get w url with
      | HttpFailed => log (DHttpError url) ;; ret None
      | TransportFailed => log (DDownloadError url) ;; ret None
      | HttpOk data content_type =>
          let ext := get_extension_from_content_type content_type in
          if detect_zip w url data ext then
            match open_zip w data with
            | None => log (DZipOpenFailed url) ;; ret None
            | Some z =>
                saved <~ extract_members z record url (prefix_of record) (namelist z) [] 0 ;;
                (if bool_decide (saved = []) then log (DNoMedia url) else ret tt) ;;
                ret (Some saved)
            end
          else
            saved <~ save_plain_local record url data ext ;; ret (Some saved)
      end
  end.

(** Lines 387-400 of the local-only script. *)
Definition extract_memories_only_local (records : list Rec) : M Report :=
  main_loop (download_and_process_local) records ∅.

End LocalOnly.

(** ** The prefix of a record (lines 388-401)

    As everywhere in the embedding the text is taken to be ASCII: white
    space is what [Str.is_space] says. *)

(** Lines 388-393. *)
Definition sanitize_part (s : option string) : string :=
  match s with
  | None => ""
  | Some s => replace_disallowed (squeeze_spaces false (Str.strip s))
  end.

(** Lines 398-401: the value [rec['_prefix']] is given, from the date and
    the location of the row. *)
Definition assigned_prefix (date_str location_str : string) : string :=
  sanitize_part (Some date_str) +:+ "_" +:+ sanitize_part (Some location_str).

(** Lines 131-136 of the local-only script: there the prefix carries in
    front the rank of the row by date, [num_pfx], padded with zeros. *)
Definition assigned_prefix_local (num_pfx date_str location_str : string) : string :=
  num_pfx +:+ "_" +:+ sanitize_part (Some date_str) +:+ "_" +:+
  sanitize_part (Some location_str).

(** * Vocabulary of the statements *)




(** On the image path an overlay fails when it cannot be read, does not
    decode, or cannot be laid over the picture built so far. *)
Definition image_overlay_fails (w : World) (z : Archive) (img : Image) (om : string) : Prop :=
  match read_member z om with
  | None => True
  | Some overlay_bytes =>
      match image_open w overlay_bytes with
      | None => True
      | Some overlay_img => alpha_composite w img overlay_img = None
      end
  end.

(** A step of the compositing tool fails when the tool returns a
    non-zero status or cannot be run. *)
Definition tool_step_fails (a : FfmpegAnswer) : Prop :=
  match a with FfmpegOk _ => False | _ => True end.

Definition log_of (s : State) (d : Diag) : State :=
  with_trace (fun t => t ++ [EvLog d]) s.

(** The same world without the compositing tool on the path. *)
Definition without_ffmpeg (w : World) : World :=
  {| http_get := http_get w; url_path := url_path w; is_zipfile := is_zipfile w;
     open_zip := open_zip w; pillow_installed := pillow_installed w;
     image_open := image_open w; alpha_composite := alpha_composite w;
     encode_jpeg := encode_jpeg w; overlay_to_png := overlay_to_png w;
     ffmpeg_path := None; ffmpeg_overlay := ffmpeg_overlay w;
     disk_free := disk_free w; local_write_ok := local_write_ok w;
     write_left := write_left w;
     local_listing_ok := local_listing_ok w;
     init_gdrive_service := init_gdrive_service w;
     folder_accessible := folder_accessible w;
     create_gdrive_folder := create_gdrive_folder w;
     drive_listing_ok := drive_listing_ok w; drive_quota := drive_quota w;
     drive_delete_ok := drive_delete_ok w; drive_upload := drive_upload w;
     regex_coords := regex_coords w; piexif_installed := piexif_installed w;
     exif_insert := exif_insert w; mp4_tag := mp4_tag w;
     stream_write_ok := stream_write_ok w; json_dumps := json_dumps w |}.

(** The payload of the record is not an archive that holds a main with
    the extension [.mp4]. *)
Definition no_video_main (w : World) (record : Rec) : Prop :=
  forall url data content_type z base mm,
    url_of record = Some url ->
    http_get w url = HttpOk data content_type ->
    open_zip w data = Some z ->
    In (base, mm) (collect (namelist z) [] []).1 ->
    Str.lower (PathLib.suffix mm) <> ".mp4".

(** Nothing has been written, uploaded or deleted. *)
Definition is_commit (e : Event) : bool :=
  match e with
  | EvLocalWrite _ _ | EvUpload _ _ | EvDelete _ => true
  | _ => false
  end.

(** The key has a main. *)
Definition has_main (mains : list (string * string)) (base : string) : bool :=
  bool_decide (base ∈ List.map fst mains).

(** The overlays filed under keys that have a main. *)
Definition overlays_with_main (mains : list (string * string))
    (overlays : list (string * list string)) : list (string * list string) :=
  List.filter (fun kv => has_main mains kv.1) overlays.

(** What the guard of lines 213-223 leaves to do. *)
Definition gdrive_guard (w : World) (required : nat) (s : State) : option Diag :=
  if negb (gdrive_configured s) then Some DGdriveNotConfigured else
  match drive_quota w (drive s) with
  | QuotaQueryFailed => Some DQuotaQueryFailed
  | QuotaNoLimit => Some DQuotaNoLimit
  | QuotaUnparsable => Some DQuotaUnparsable
  | Quota limit usage =>
      if (limit - usage <? Z.of_nat required)%Z then Some DQuotaInsufficient else None
  end.






(** * Sample worlds and inputs *)

Module Sample.

Definition data (s : string) : bytes := list_byte_of_string s.

(** An archive that holds the listed members, each readable. *)
Definition archive_of (members : list (string * bytes)) : Archive :=
  {| namelist := List.map fst members;
     read_member := fun m => dict_get m members |}.

(** A world in which every service answers: a picture decodes to its
    own bytes unless [broken] says it does not decode, laying one picture
    over another appends it, and the compositing tool appends the overlay
    to the video, or returns a non-zero status when [tool_works] is
    false.  Downloads are answered by [get], archives recognised by
    [zip]; the compositing tool is found where [ffmpeg] says. *)
Definition faulty_world (get : string -> HttpAnswer) (zip : bytes -> option Archive)
    (ffmpeg : option string) (broken : bytes -> bool) (tool_works : bool) : World :=
  {| http_get := get;
     url_path := fun u => u;
     is_zipfile := fun d => bool_decide (is_Some (zip d));
     open_zip := zip;
     pillow_installed := true;
     image_open := fun b => if broken b then None else Some b;
     alpha_composite := fun a b => Some (a ++ b);
     encode_jpeg := fun i => Some i;
     overlay_to_png := fun b => if broken b then None else Some b;
     ffmpeg_path := ffmpeg;
     ffmpeg_overlay := fun cur img =>
       if tool_works then FfmpegOk (cur ++ img) else FfmpegNonZero;
     disk_free := fun _ => Some 1000000%Z;
     local_write_ok := fun _ => true;
     write_left := fun _ _ => None;
     local_listing_ok := true;
     init_gdrive_service := fun _ => true;
     folder_accessible := fun _ => true;
     create_gdrive_folder := Created (Some "folder-1");
     drive_listing_ok := true;
     drive_quota := fun _ => Quota 1000000 0;
     drive_delete_ok := fun _ => true;
     drive_upload := fun files _ _ => UploadOk ("id-" +:+ pretty (List.length files)) None;
     regex_coords := fun _ => None;
     piexif_installed := true;
     exif_insert := fun c _ => Some c;
     mp4_tag := fun c _ => Some c;
     stream_write_ok := fun _ => true;
     json_dumps := fun _ => data "{}" |}.

(** The same with every picture decoding and the tool working. *)
Definition world (get : string -> HttpAnswer) (zip : bytes -> option Archive)
    (ffmpeg : option string) : World :=
  faulty_world get zip ffmpeg (fun _ => false) true.

Definition no_download : string -> HttpAnswer := fun _ => TransportFailed.
Definition no_archive : bytes -> option Archive := fun _ => None.

Definition record (media_type : string) (url : option string) (prefix : string) : Rec :=
  {| rec_date := "2020-01-01 10:00:00 UTC"; rec_media_type := media_type;
     rec_location := ""; rec_url := url; rec_prefix := prefix |}.

(** The module-level state with an empty local folder and Drive folder. *)
Definition fresh : State := initial_state [] ∅.

(** A state with the Drive destination configured. *)
Definition on_drive (mode : ConflictMode) (existing : gmap string (list string))
    (files : list DriveFile) : State :=
  {| DESTINATION := DestGdrive; GDRIVE_SERVICE := true;
     GDRIVE_FOLDER_ID := Some "folder-1"; CONFLICT_MODE := mode;
     GDRIVE_EXISTING := existing; drive := files;
     local_dir := ∅; trace := [] |}.

Definition no_meta : Meta :=
  {| meta_date := ""; meta_media_type := ""; meta_location := "";
     meta_coords := None; meta_source := None; meta_archive_member := None |}.

Definition drive_file (id name : string) (content : bytes) : DriveFile :=
  {| df_id := id; df_name := name; df_content := content;
     df_mime := "application/octet-stream"; df_props := no_meta |}.

(** Two mains under one key. *)
Definition twins : Archive :=
  archive_of [("a-main.jpg", data "first"); ("a-main.jpeg", data "second")].


(** A video with three overlays, the second of which is no picture. *)
Definition layered : Archive :=
  archive_of [("v-main.mp4", data "video"); ("v-overlay1.png", data "one");
              ("v-overlay2.png", data "garbage"); ("v-overlay3.png", data "three")].

Definition is_garbage (b : bytes) : bool :=
  String.eqb (string_of_list_byte b) "garbage".

(** Two groups, the first with an overlay. *)
Definition two_groups : Archive :=
  archive_of [("abc-main.jpg", data "A"); ("abc-overlay.png", data "+o");
              ("xyz-main.jpg", data "X")].

(** A video on its own, and a video with one overlay. *)
Definition lone_video : Archive := archive_of [("abc-main.mp4", data "video")].
Definition video_pair : Archive :=
  archive_of [("abc-main.mp4", data "video"); ("abc-overlay.png", data "layer")].

(** A picture, and an overlay whose group has no main. *)
Definition stray_overlay : Archive :=
  archive_of [("a-main.jpg", data "pic"); ("b-overlay.png", data "layer")].

(** Overlays only. *)
Definition overlays_only : Archive :=
  archive_of [("b-overlay.png", data "layer"); ("notes.txt", data "text")].

Definition overlays123 : list string :=
  ["v-overlay1.png"; "v-overlay2.png"; "v-overlay3.png"].

(** Every download answers with an archive, which opens as [z]. *)
Definition serves (z : Archive) : string -> HttpAnswer :=
  fun _ => HttpOk (data "PK") (Some "application/zip").
Definition opens_as (z : Archive) : bytes -> option Archive := fun _ => Some z.

(** Every download answers with the given bytes and content type. *)
Definition plain (d : bytes) (content_type : string) : string -> HttpAnswer :=
  fun _ => HttpOk d (Some content_type).

(** The user chooses the Drive destination, an existing folder and the
    given conflict mode. *)
Definition chooses_drive (mode : string) : Console :=
  {| typed_choice := Some "gdrive"; typed_service_account := "key.json";
     typed_folder := "folder-1"; typed_conflict := mode |}.

Definition chooses_local : Console :=
  {| typed_choice := Some ""; typed_service_account := "";
     typed_folder := ""; typed_conflict := "" |}.

(** A table of 138 video rows, of which only the last has a download
    link: the one row the loop of [extract_memories.py] reaches. *)
Definition table (last : Rec) : list Rec :=
  List.repeat (record "Video" None "filler") 137 ++ [last].

Definition ffmpeg_bin : option string := Some "/usr/bin/ffmpeg".

End Sample.

Module Sample2.

(** A Drive folder with one object named [P.jpg], known to the index,
    under the given conflict mode. *)
Definition old_object : DriveFile :=
  Sample.drive_file "old-1" "P.jpg" (Sample.data "old").

Definition drive_with_old (mode : ConflictMode) : State :=
  Sample.on_drive mode {[ "P.jpg" := ["old-1"] ]} [old_object].

Definition working : World := Sample.world Sample.no_download Sample.no_archive None.

Definition picture : Rec := Sample.record "Image" (Some "u") "P".

End Sample2.

(** * Further vocabulary *)

(** The ids of the objects of a folder that carry a name, in listing
    order. *)
Definition ids_named (name : string) (files : list DriveFile) : list string :=
  List.map df_id (List.filter (fun f => String.eqb (df_name f) name) files).

(** The index holds, for every name, the ids of the objects of the
    folder that carry it. *)
Definition index_mirrors (index : gmap string (list string)) (files : list DriveFile) : Prop :=
  forall name, default [] (index !! name) = ids_named name files.

(** The ids the Drive hands out for this upload are not in use. *)
Definition upload_ids_fresh (w : World) (filename : string) (bts : bytes)
    (known : list DriveFile) : Prop :=
  forall files id link,
    drive_upload w files filename bts = UploadOk id link ->
    incl files known -> ~ In id (List.map df_id files).

(** The globals chosen at the prompt are the same in both states. *)
Definition same_config (s s' : State) : Prop :=
  DESTINATION s' = DESTINATION s /\ GDRIVE_SERVICE s' = GDRIVE_SERVICE s /\
  GDRIVE_FOLDER_ID s' = GDRIVE_FOLDER_ID s /\ CONFLICT_MODE s' = CONFLICT_MODE s.

(** The local folder is the same in both states. *)
Definition same_local (s s' : State) : Prop :=
  local_dir s' = local_dir s.

(** The Drive folder and the index are the same in both states. *)
Definition same_remote (s s' : State) : Prop :=
  drive s' = drive s /\ GDRIVE_EXISTING s' = GDRIVE_EXISTING s.

(** What the commit deletes, and what it keeps of the index entry, for a
    name the index holds [ids] for. *)
Definition deleted_ids (mode : ConflictMode) (ids : list string) : list string :=
  match mode with ModeOverwrite => ids | _ => [] end.
Definition kept_ids (mode : ConflictMode) (ids : list string) : list string :=
  match mode with ModeOverwrite => [] | _ => ids end.

Definition without_ids (ids : list string) (files : list DriveFile) : list DriveFile :=
  List.filter (fun f => negb (bool_decide (df_id f ∈ ids))) files.

(** The trace of the second state continues the trace of the first. *)
Definition grows (s s' : State) : Prop := exists t, trace s' = trace s ++ t.

(** The first thing done after [s] on the way to [s'] is [e]. *)
Definition starts_with (e : Event) (s s' : State) : Prop :=
  exists rest, trace s' = trace s ++ e :: rest.

(** The step from [s] to [s'] only adds to the trace. *)
Definition only_logs (s s' : State) : Prop :=
  same_config s s' /\ same_local s s' /\ same_remote s s' /\ grows s s'.

(** The step from [s] to [s'] leaves the configuration alone, adds to the
    trace, and touches the destination that is configured and no
    other. *)
Definition one_destination (s s' : State) : Prop :=
  same_config s s' /\ grows s s' /\
  match DESTINATION s with
  | DestLocal => same_remote s s'
  | DestGdrive => same_local s s'
  end.

(** Whatever way a computation ends, the state it ends in is related to
    the state it started from. *)
Definition keeps (R : State -> State -> Prop) {A} (m : M A) : Prop :=
  forall s, R s (final (m s)).

(** A step of the Drive side, and a step of the local side. *)
Definition steps_drive (s s' : State) : Prop :=
  same_config s s' /\ same_local s s' /\ grows s s'.
Definition steps_local (s s' : State) : Prop :=
  same_config s s' /\ same_remote s s' /\ grows s s'.

(** The same world with a Drive that refuses every delete. *)
Definition without_deletes (w : World) : World :=
  {| http_get := http_get w; url_path := url_path w; is_zipfile := is_zipfile w;
     open_zip := open_zip w; pillow_installed := pillow_installed w;
     image_open := image_open w; alpha_composite := alpha_composite w;
     encode_jpeg := encode_jpeg w; overlay_to_png := overlay_to_png w;
     ffmpeg_path := ffmpeg_path w; ffmpeg_overlay := ffmpeg_overlay w;
     disk_free := disk_free w; local_write_ok := local_write_ok w;
     write_left := write_left w;
     local_listing_ok := local_listing_ok w;
     init_gdrive_service := init_gdrive_service w;
     folder_accessible := folder_accessible w;
     create_gdrive_folder := create_gdrive_folder w;
     drive_listing_ok := drive_listing_ok w; drive_quota := drive_quota w;
     drive_delete_ok := fun _ => false; drive_upload := drive_upload w;
     regex_coords := regex_coords w; piexif_installed := piexif_installed w;
     exif_insert := exif_insert w; mp4_tag := mp4_tag w;
     stream_write_ok := stream_write_ok w; json_dumps := json_dumps w |}.

(** The same world with the given answers about free space and quota. *)
Definition with_room (free : option Z) (quota : QuotaAnswer) (w : World) : World :=
  {| http_get := http_get w; url_path := url_path w; is_zipfile := is_zipfile w;
     open_zip := open_zip w; pillow_installed := pillow_installed w;
     image_open := image_open w; alpha_composite := alpha_composite w;
     encode_jpeg := encode_jpeg w; overlay_to_png := overlay_to_png w;
     ffmpeg_path := ffmpeg_path w; ffmpeg_overlay := ffmpeg_overlay w;
     disk_free := fun _ => free; local_write_ok := local_write_ok w;
     write_left := write_left w;
     local_listing_ok := local_listing_ok w;
     init_gdrive_service := init_gdrive_service w;
     folder_accessible := folder_accessible w;
     create_gdrive_folder := create_gdrive_folder w;
     drive_listing_ok := drive_listing_ok w; drive_quota := fun _ => quota;
     drive_delete_ok := drive_delete_ok w; drive_upload := drive_upload w;
     regex_coords := regex_coords w; piexif_installed := piexif_installed w;
     exif_insert := exif_insert w; mp4_tag := mp4_tag w;
     stream_write_ok := stream_write_ok w; json_dumps := json_dumps w |}.

(** The record has a download link the loop accepts. *)
Definition has_link (rec : Rec) : bool := truthy (rec_url rec).

(** The download links of the records the loop does not pass over. *)
Definition linked_urls (recs : list Rec) : list string :=
  List.map (fun rec => default "" (rec_url rec)) (List.filter has_link recs).

(** The payload of the link cannot be had: the request fails, or what
    arrives passes for an archive and does not open. *)
Definition no_payload (w : World) (url : string) : Prop :=
  http_get w url = HttpFailed \/ http_get w url = TransportFailed \/
  exists data content_type,
    http_get w url = HttpOk data content_type /\
    detect_zip w url data (get_extension_from_content_type content_type) = true /\
    open_zip w data = None.

(** The same world with a local folder in which every write fails,
    leaving what [left] says. *)
Definition failing_writes (left : option nat) (w : World) : World :=
  {| http_get := http_get w; url_path := url_path w; is_zipfile := is_zipfile w;
     open_zip := open_zip w; pillow_installed := pillow_installed w;
     image_open := image_open w; alpha_composite := alpha_composite w;
     encode_jpeg := encode_jpeg w; overlay_to_png := overlay_to_png w;
     ffmpeg_path := ffmpeg_path w; ffmpeg_overlay := ffmpeg_overlay w;
     disk_free := disk_free w; local_write_ok := fun _ => false;
     write_left := fun _ _ => left;
     local_listing_ok := local_listing_ok w;
     init_gdrive_service := init_gdrive_service w;
     folder_accessible := folder_accessible w;
     create_gdrive_folder := create_gdrive_folder w;
     drive_listing_ok := drive_listing_ok w; drive_quota := drive_quota w;
     drive_delete_ok := drive_delete_ok w; drive_upload := drive_upload w;
     regex_coords := regex_coords w; piexif_installed := piexif_installed w;
     exif_insert := exif_insert w; mp4_tag := mp4_tag w;
     stream_write_ok := stream_write_ok w; json_dumps := json_dumps w |}.

(** The local destination is chosen and its space guard lets [bts]
    through. *)
Definition local_room (w : World) (bts : bytes) (s : State) : Prop :=
  DESTINATION s = DestLocal /\
  exists free, disk_free w (local_dir s) = Some free /\
               (Z.of_nat (List.length bts) <= free)%Z.

(** The state after the attempt to write [bts] under [filename]. *)
Definition attempted (filename : string) (bts : bytes) (s : State) : State :=
  with_trace (fun t => t ++ [EvLocalWrite filename bts]) s.

(** The state after a write of [bts] under [filename] that failed: the
    attempt has been made, and the file is as the failure left it. *)
Definition refused (w : World) (filename : string) (bts : bytes) (s : State) : State :=
  match write_left w filename bts with
  | Some n => with_local_dir (insert filename (take n bts)) (attempted filename bts s)
  | None => attempted filename bts s
  end.

(** The names the filter of mode [new] compares the records with. *)
Definition known_names (s : State) : gset string :=
  match DESTINATION s with
  | DestGdrive => dom (GDRIVE_EXISTING s)
  | DestLocal => dom (local_dir s)
  end.

(** The destination can be listed by the filter of mode [new]. *)
Definition listable (w : World) (s : State) : Prop :=
  match DESTINATION s with
  | DestGdrive => gdrive_configured s = true
  | DestLocal => local_listing_ok w = true
  end.

(** Every character of the text passes the test. *)
Fixpoint all_chars (p : ascii -> bool) (s : string) : bool :=
  match s with
  | EmptyString => true
  | String c t => p c && all_chars p t
  end.

(** The row of the table with the given date and location, with the
    prefix lines 398-401 give it. *)
Definition row (media_type date_str location_str : string) (url : option string) : Rec :=
  {| rec_date := date_str; rec_media_type := media_type; rec_location := location_str;
     rec_url := url; rec_prefix := assigned_prefix date_str location_str |}.

(** The output names of the members [members], the first of them the
    output number [count] of its record. *)
Fixpoint numbered (prefix : string) (count : nat) (members : list string) : list string :=
  match members with
  | [] => []
  | m :: rest =>
      out_filename prefix count (Str.lower (PathLib.suffix m))
      :: numbered prefix (S count) rest
  end.

(** The mains the loop over the groups commits: the ones that can be
    read and have an extension the loop knows. *)
Definition processed (z : Archive) (mains : list (string * string)) : list string :=
  List.map snd
    (List.filter
       (fun bm => bool_decide (is_Some (read_member z bm.2)) &&
                  (is_jpeg_ext (Str.lower (PathLib.suffix bm.2)) ||
                   String.eqb (Str.lower (PathLib.suffix bm.2)) ".mp4"))
       mains).

(** The step from [s] to [s'] leaves the configuration alone and, unless
    the mode is [overwrite], leaves every object of the Drive folder
    where it is: the folder only gains objects at its end. *)
Definition keeps_objects (s s' : State) : Prop :=
  same_config s s' /\
  (CONFLICT_MODE s <> ModeOverwrite -> exists added, drive s' = drive s ++ added).

(** The same row as the local-only script has it, with the prefix its
    lines 131-136 give it. *)
Definition row_local (num_pfx media_type date_str location_str : string)
    (url : option string) : Rec :=
  {| rec_date := date_str; rec_media_type := media_type; rec_location := location_str;
     rec_url := url; rec_prefix := assigned_prefix_local num_pfx date_str location_str |}.

(** The state after [bts] has been written under [filename]. *)
Definition written (filename : string) (bts : bytes) (s : State) : State :=
  with_local_dir (insert filename bts) (attempted filename bts s).

(** What both scripts do with a payload that is not an archive, once it
    has its name: the write, then the embedding when the write went
    through and the one item for the report, or the message of the
    failed write and no item. *)
Definition plain_outcome (w : World) (name url : string) (data : bytes) (meta : Meta)
    (item : Saved) (s : State) : Outcome (list Saved) :=
  if local_write_ok w name
  then Ret [item] (final (write_file_metadata w name meta (written name data s)))
  else Ret [] (log_of (refused w name data s) (DSaveFailed url name)).

(** * Properties *)

(** ** Strings and paths *)

Lemma string_app_cons (c : ascii) (a b : string) :
  String c a +:+ b = String c (a +:+ b).
Proof. reflexivity. Qed.

Lemma string_app_length (a b : string) :
  String.length (a +:+ b) = String.length a + String.length b.
Proof.
  induction a as [|c a IH]; [done |].
  rewrite string_app_cons. simpl. by rewrite IH.
Qed.









Lemma split_slash_nonempty (s : string) : Str.split_slash s <> [].
Proof.
  destruct s as [|a t]; simpl; [done |].
  destruct (Ascii.eqb a "/"); [done |]. by destruct (Str.split_slash t).
Qed.

Lemma contains_slash_cons (a : ascii) (t : string) :
  Str.contains "/" (String a t) = Ascii.eqb a "/" || Str.contains "/" t.
Proof.
  change (Str.contains "/" (String a t))
    with ((if ascii_dec "/" a then String.prefix "" t else false) || Str.contains "/" t).
  f_equal. destruct (ascii_dec "/" a) as [<-|Hne]; [by destruct t |].
  destruct (Ascii.eqb_spec a "/"); congruence.
Qed.


Lemma split_slash_single (s : string) :
  Str.contains "/" s = false -> Str.split_slash s = [s].
Proof.
  induction s as [|a t IH]; [done |].
  rewrite contains_slash_cons. intros [Ha Ht]%orb_false_elim.
  simpl. rewrite Ha. by rewrite (IH Ht).
Qed.




(** ** Control *)

Lemma bind_assoc {A B C} (m : M A) (k : A -> M B) (h : B -> M C) (s : State) :
  bind (bind m k) h s = bind m (fun a => bind (k a) h) s.
Proof. unfold bind. by destruct (m s). Qed.

Lemma bind_Exit {A B} (m : M A) (k : A -> M B) (s s' : State) :
  m s = Exit s' -> bind m k s = Exit s'.
Proof. unfold bind. by intros ->. Qed.

Lemma bind_Ret {A B} (m : M A) (k : A -> M B) (s s' : State) (a : A) :
  m s = Ret a s' -> bind m k s = k a s'.
Proof. unfold bind. by intros ->. Qed.

Lemma bind_ext {A B} (m m' : M A) (k k' : A -> M B) (s : State) :
  m s = m' s -> (forall a s', k a s' = k' a s') -> bind m k s = bind m' k' s.
Proof. unfold bind. intros -> H. by destruct (m' s). Qed.


(** ** Relations every step keeps *)

Section Keeps.

Variable R : State -> State -> Prop.
Hypothesis R_refl : forall s, R s s.
Hypothesis R_trans : forall s1 s2 s3, R s1 s2 -> R s2 s3 -> R s1 s3.

Lemma keeps_ret {A} (a : A) : keeps R (ret a).
Proof. intros s. apply R_refl. Qed.

Lemma keeps_exit {A} : keeps R (@exit A).
Proof. intros s. apply R_refl. Qed.

Lemma keeps_raise {A} : keeps R (@raise A).
Proof. intros s. apply R_refl. Qed.

Lemma keeps_gets {A} (f : State -> A) : keeps R (gets f).
Proof. intros s. apply R_refl. Qed.

Lemma keeps_bind {A B} (m : M A) (k : A -> M B) :
  keeps R m -> (forall a, keeps R (k a)) -> keeps R (bind m k).
Proof.
  intros Hm Hk s. unfold bind. specialize (Hm s).
  destruct (m s) as [a s'|s'|s']; simpl in *; [| done | done].
  eapply R_trans; [exact Hm | apply Hk].
Qed.

Lemma keeps_try_except {A} (m h : M A) :
  keeps R m -> keeps R h -> keeps R (try_except m h).
Proof.
  intros Hm Hh s. unfold try_except. specialize (Hm s).
  destruct (m s) as [a s'|s'|s']; simpl in *; [done | done |].
  eapply R_trans; [exact Hm | apply Hh].
Qed.

Hypothesis R_emit : forall e s, R s (with_trace (fun t => t ++ [e]) s).

Lemma keeps_emit (e : Event) : keeps R (emit e).
Proof. intros s. apply R_emit. Qed.

Lemma keeps_log (d : Diag) : keeps R (log d).
Proof. apply keeps_emit. Qed.

Lemma keeps_fatal {A} (d : Diag) : keeps R (@fatal A d).
Proof. apply keeps_bind; [apply keeps_log | intros; apply keeps_exit]. Qed.

Lemma keeps_composite_overlays (w : World) z mm oms img :
  keeps R (composite_overlays w z mm oms img).
Proof.
  revert img. induction oms as [|om oms IH]; intros img; simpl; [apply keeps_ret |].
  destruct (read_member z om); [| apply keeps_fatal].
  destruct (image_open w _); [| apply keeps_fatal].
  destruct (alpha_composite w _ _); [apply IH | apply keeps_fatal].
Qed.

Lemma keeps_overlay_chain (w : World) z mm oms cur :
  keeps R (overlay_chain w z mm oms cur).
Proof.
  revert cur. induction oms as [|om oms IH]; intros cur; simpl; [apply keeps_ret |].
  destruct (read_member z om); [| apply keeps_fatal].
  destruct (overlay_to_png w _).
  - apply keeps_bind; [apply keeps_emit |]. intros _.
    destruct (ffmpeg_overlay w cur i); [apply IH | apply keeps_fatal | apply keeps_fatal].
  - apply keeps_bind; [apply keeps_log | intros _; apply IH].
Qed.

End Keeps.

Lemma keeps_modify (R : State -> State -> Prop) (f : State -> State) :
  (forall s, R s (f s)) -> keeps R (modify f).
Proof. intros H s. apply H. Qed.



(** ** Archive member classification *)

Example classify_main : classify "abc-main.mp4" = Some ("abc", Main).
Proof. reflexivity. Qed.
Example classify_overlay : classify "dir/abc-Overlay.PNG" = Some ("abc", Overlay).
Proof. reflexivity. Qed.
Example classify_other : classify "readme.txt" = None.
Proof. reflexivity. Qed.


















(** ** Grouping of archive members *)












(** *** The loop over the groups, group by group *)




(** *** The members a run names *)

Section Names.

Variable P : string -> Prop.









Variable w : World.












End Names.


(** *** The mains that are dropped are not opened *)








(** Of two mains under one key, one file is written, from the second,
    and nothing is printed. *)
Example twins_run :
  let w := Sample.world Sample.no_download Sample.no_archive None in
  let r := Sample.record "Image" (Some "u") "P" in
  process_archive w Sample.twins r "u" Sample.fresh =
    Ret [SavedInfo (InfoPath "snapchat_memories/P.jpeg")]
        (with_local_dir (fun _ => {[ "P.jpeg" := Sample.data "second" ]})
           (with_trace (fun _ => [EvLocalWrite "P.jpeg" (Sample.data "second");
                                  EvEmbed "P.jpeg"]) Sample.fresh)).
Proof. vm_compute. reflexivity. Qed.

(** Two groups give two files, the second with the suffix [_1]; the
    overlay is laid over the main of its own group. *)
Example two_groups_run :
  let z := Sample.two_groups in
  let w := Sample.world (Sample.serves z) (Sample.opens_as z) None in
  let r := Sample.record "Image" (Some "u") "P" in
  exists s',
    download_and_process w r Sample.fresh
      = Ret (Some [SavedInfo (InfoPath "snapchat_memories/P.jpg");
                   SavedInfo (InfoPath "snapchat_memories/P_1.jpg")]) s' /\
    local_dir s' = {[ "P.jpg" := Sample.data "A+o"; "P_1.jpg" := Sample.data "X" ]}.
Proof. intros z w r. eexists. split; vm_compute; reflexivity. Qed.

(** A plain payload of type [image/jpeg] behind a link without extension
    is written under the prefix with [.jpg]. *)
Example plain_jpeg_run :
  let w := Sample.world (Sample.plain (Sample.data "J") "image/jpeg") Sample.no_archive None in
  let r := Sample.record "Image" (Some "https://host/media/123") "P" in
  exists s',
    download_and_process w r Sample.fresh = Ret (Some [SavedName "P.jpg"]) s' /\
    local_dir s' = {[ "P.jpg" := Sample.data "J" ]}.
Proof. intros w r. eexists. split; vm_compute; reflexivity. Qed.

(** ** Overlay failures *)

Lemma composite_overlays_app (w : World) (z : Archive) (mm : string)
    (pre post : list string) (img : Image) (s : State) :
  composite_overlays w z mm (pre ++ post) img s =
  bind (composite_overlays w z mm pre img) (composite_overlays w z mm post) s.
Proof.
  revert img s. induction pre as [|om pre IH]; intros img s; simpl; [done |].
  destruct (read_member z om); [| done].
  destruct (image_open w _); [| done].
  destruct (alpha_composite w _ _); [| done].
  apply IH.
Qed.

Lemma overlay_chain_app (w : World) (z : Archive) (mm : string)
    (pre post : list string) (cur : bytes) (s : State) :
  overlay_chain w z mm (pre ++ post) cur s =
  bind (overlay_chain w z mm pre cur) (overlay_chain w z mm post) s.
Proof.
  revert cur s. induction pre as [|om pre IH]; intros cur s; simpl; [done |].
  destruct (read_member z om); [| done].
  destruct (overlay_to_png w _).
  - rewrite bind_assoc. apply bind_ext; [done |]. intros _ s'.
    destruct (ffmpeg_overlay w cur i); [apply IH | done | done].
  - rewrite bind_assoc. apply bind_ext; [done |]. intros _ s'. apply IH.
Qed.

Lemma composite_overlays_fail (w : World) (z : Archive) (mm om : string)
    (post : list string) (img : Image) (s : State) :
  image_overlay_fails w z img om ->
  composite_overlays w z mm (om :: post) img s = Exit (log_of s (DOverlayFailed om mm)).
Proof.
  unfold image_overlay_fails. intros H. simpl.
  destruct (read_member z om); [| done].
  destruct (image_open w _); [| done].
  by rewrite H.
Qed.

(** Whatever ends in [sys.exit] while a record is processed ends the
    loop over the records. *)
Lemma main_loop_Exit (process : Rec -> M (option (list Saved))) (rec : Rec)
    (rest : list Rec) (all_saved : Report) (s s' : State) (url : string) :
  rec_url rec = Some url -> url <> "" ->
  process rec (log_of s (DProcessing url)) = Exit s' ->
  main_loop process (rec :: rest) all_saved s = Exit s'.
Proof.
  intros Hu Hne H. simpl. rewrite Hu. simpl.
  destruct (String.eqb_spec url ""); [done |]. simpl.
  unfold bind at 1. simpl. unfold log_of in H. unfold bind. by rewrite H.
Qed.

Lemma process_groups_Exit_image (w : World) (z : Archive) (record : Rec)
    (prefix base mm : string) overlays rest saved count (main_bytes : bytes)
    (s s' : State) :
  read_member z mm = Some main_bytes ->
  is_jpeg_ext (Str.lower (PathLib.suffix mm)) = true ->
  process_image w z record mm main_bytes (default [] (dict_get base overlays))
    (out_filename prefix count (Str.lower (PathLib.suffix mm)))
    (Str.lower (PathLib.suffix mm)) s = Exit s' ->
  process_groups w z record prefix overlays ((base, mm) :: rest) saved count s = Exit s'.
Proof. intros Hr Hj H. simpl. rewrite Hr, Hj. by apply bind_Exit. Qed.

Lemma process_groups_Exit_video (w : World) (z : Archive) (record : Rec)
    (prefix base mm : string) overlays rest saved count (main_bytes : bytes)
    (s s' : State) :
  read_member z mm = Some main_bytes ->
  Str.lower (PathLib.suffix mm) = ".mp4" ->
  process_video w z record mm main_bytes (default [] (dict_get base overlays))
    (out_filename prefix count ".mp4") ".mp4" s = Exit s' ->
  process_groups w z record prefix overlays ((base, mm) :: rest) saved count s = Exit s'.
Proof. intros Hr Hj H. simpl. rewrite Hr, Hj. simpl. by apply bind_Exit. Qed.

(** C5. Image main: once the main picture is decoded, an overlay that
    cannot be read, decoded or laid over the picture makes the processing
    of the group exit, with the overlays before it applied and nothing
    written.  Video main: an overlay that is read but does not decode is
    passed over with one message and the chain goes on with the remaining
    overlays from the video it had reached; a failing step of the tool
    makes the processing of the group exit.  An exit while a group is
    processed is an exit of the loop over the groups, and an exit while a
    record is processed is an exit of the loop over the records. *)
Theorem overlay_failures (w : World) (z : Archive) (record : Rec) (mm : string) :
  (* image main *)
  (forall main_bytes pre om post filename ext img img_k s s_k,
     image_open w main_bytes = Some img ->
     composite_overlays w z mm pre img s = Ret img_k s_k ->
     image_overlay_fails w z img_k om ->
     process_image w z record mm main_bytes (pre ++ om :: post) filename ext s =
       Exit (log_of s_k (DOverlayFailed om mm))) /\
  (* video main, overlay that does not decode *)
  (forall pre om post cur cur_k s s_k overlay_bytes,
     overlay_chain w z mm pre cur s = Ret cur_k s_k ->
     read_member z om = Some overlay_bytes ->
     overlay_to_png w overlay_bytes = None ->
     overlay_chain w z mm (pre ++ om :: post) cur s =
       overlay_chain w z mm post cur_k (log_of s_k (DOverlaySkipped om))) /\
  (* video main, failing step of the tool *)
  (forall main_bytes pre om post filename ext cur_k s s_k overlay_bytes img,
     truthy (ffmpeg_path w) = true ->
     overlay_chain w z mm pre main_bytes s = Ret cur_k s_k ->
     read_member z om = Some overlay_bytes ->
     overlay_to_png w overlay_bytes = Some img ->
     tool_step_fails (ffmpeg_overlay w cur_k img) ->
     exists d,
       process_video w z record mm main_bytes (pre ++ om :: post) filename ext s =
         Exit (log_of (with_trace (fun t => t ++ [EvFfmpeg om]) s_k) d) /\
       (d = DFfmpegFailed om mm \/ d = DOverlayStepFailed om mm)) /\
  (* an exit is an exit of the run *)
  (forall prefix base overlays rest saved count main_bytes s s',
     read_member z mm = Some main_bytes ->
     (is_jpeg_ext (Str.lower (PathLib.suffix mm)) = true /\
      process_image w z record mm main_bytes (default [] (dict_get base overlays))
        (out_filename prefix count (Str.lower (PathLib.suffix mm)))
        (Str.lower (PathLib.suffix mm)) s = Exit s'
      \/
      Str.lower (PathLib.suffix mm) = ".mp4" /\
      process_video w z record mm main_bytes (default [] (dict_get base overlays))
        (out_filename prefix count ".mp4") ".mp4" s = Exit s') ->
     process_groups w z record prefix overlays ((base, mm) :: rest) saved count s = Exit s') /\
  (forall process rest all_saved s s' url,
     rec_url record = Some url -> url <> "" ->
     process record (log_of s (DProcessing url)) = Exit s' ->
     main_loop process (record :: rest) all_saved s = Exit s').
Proof.
  repeat split.
  - intros main_bytes pre om post filename ext img img_k s s_k Hopen Hpre Hfail.
    unfold process_image, try_except. rewrite Hopen.
    unfold bind at 1. rewrite composite_overlays_app.
    rewrite (bind_Ret _ _ _ _ _ Hpre). by rewrite composite_overlays_fail.
  - intros pre om post cur cur_k s s_k ob Hpre Hread Hpng.
    rewrite overlay_chain_app. rewrite (bind_Ret _ _ _ _ _ Hpre).
    simpl. by rewrite Hread, Hpng.
  - intros main_bytes pre om post filename ext cur_k s s_k ob img Hff Hpre Hread Hpng Hfail.
    unfold process_video. rewrite Hff. simpl.
    unfold bind at 1. rewrite overlay_chain_app. rewrite (bind_Ret _ _ _ _ _ Hpre).
    simpl. rewrite Hread, Hpng. unfold bind at 1. simpl.
    destruct (ffmpeg_overlay w cur_k img); [done | |]; eexists; split; eauto.
  - intros prefix base overlays rest saved count main_bytes s s' Hr [[Hj H]|[Hj H]].
    + by eapply process_groups_Exit_image.
    + by eapply process_groups_Exit_video.
  - intros. by eapply main_loop_Exit.
Qed.

Lemma overlay_failures_witness :
  let r := Sample.record "Video" (Some "u") "P" in
  let w_ok := Sample.faulty_world Sample.no_download Sample.no_archive Sample.ffmpeg_bin
                Sample.is_garbage true in
  let w_bad := Sample.faulty_world Sample.no_download Sample.no_archive Sample.ffmpeg_bin
                 Sample.is_garbage false in
  let w_none := Sample.world (Sample.serves Sample.layered) (Sample.opens_as Sample.layered)
                  None in
  process_image w_ok Sample.layered r "m.jpg" (Sample.data "pic") Sample.overlays123
      "P.jpg" ".jpg" Sample.fresh
    = Exit (log_of Sample.fresh (DOverlayFailed "v-overlay2.png" "m.jpg")) /\
  overlay_chain w_ok Sample.layered "v-main.mp4" Sample.overlays123 (Sample.data "video")
      Sample.fresh
    = overlay_chain w_ok Sample.layered "v-main.mp4" ["v-overlay3.png"]
        (Sample.data "videoone")
        (log_of (with_trace (fun t => t ++ [EvFfmpeg "v-overlay1.png"]) Sample.fresh)
           (DOverlaySkipped "v-overlay2.png")) /\
  (exists d,
     process_video w_bad Sample.layered r "v-main.mp4" (Sample.data "video")
         Sample.overlays123 "P.mp4" ".mp4" Sample.fresh
       = Exit (log_of (with_trace (fun t => t ++ [EvFfmpeg "v-overlay1.png"]) Sample.fresh) d) /\
     (d = DFfmpegFailed "v-overlay1.png" "v-main.mp4" \/
      d = DOverlayStepFailed "v-overlay1.png" "v-main.mp4")) /\
  process_groups w_none Sample.layered r "P" [] [("v", "v-main.mp4")] [] 0 Sample.fresh
    = Exit (log_of Sample.fresh DFfmpegMissing) /\
  main_loop (download_and_process w_none) [r] ∅ Sample.fresh
    = Exit (log_of (with_trace (fun t => t ++ [EvDownload "u"])
                      (log_of Sample.fresh (DProcessing "u"))) DFfmpegMissing).
Proof.
  intros r w_ok w_bad w_none. split; [| split; [| split; [| split]]].
  - pose proof (overlay_failures w_ok Sample.layered r "m.jpg") as (H & _).
    apply (H (Sample.data "pic") ["v-overlay1.png"] "v-overlay2.png" ["v-overlay3.png"]
             "P.jpg" ".jpg" (Sample.data "pic") (Sample.data "picone")
             Sample.fresh Sample.fresh);
      [reflexivity | reflexivity | exact I].
  - pose proof (overlay_failures w_ok Sample.layered r "v-main.mp4") as (_ & H & _).
    apply (H ["v-overlay1.png"] "v-overlay2.png" ["v-overlay3.png"]
             (Sample.data "video") (Sample.data "videoone") Sample.fresh
             (with_trace (fun t => t ++ [EvFfmpeg "v-overlay1.png"]) Sample.fresh)
             (Sample.data "garbage"));
      reflexivity.
  - pose proof (overlay_failures w_bad Sample.layered r "v-main.mp4") as (_ & _ & H & _).
    apply (H (Sample.data "video") [] "v-overlay1.png"
             ["v-overlay2.png"; "v-overlay3.png"] "P.mp4" ".mp4"
             (Sample.data "video") Sample.fresh Sample.fresh
             (Sample.data "one") (Sample.data "one"));
      [reflexivity | reflexivity | reflexivity | reflexivity | exact I].
  - pose proof (overlay_failures w_none Sample.layered r "v-main.mp4") as (_ & _ & _ & H & _).
    apply (H "P" "v" [] [] [] 0 (Sample.data "video")); [reflexivity |].
    right. split; reflexivity.
  - pose proof (overlay_failures w_none Sample.layered r "v-main.mp4") as (_ & _ & _ & _ & H).
    apply (H (download_and_process w_none) [] ∅ Sample.fresh _ "u");
      [reflexivity | discriminate | vm_compute; reflexivity].
Defined.

(** ** The compositing tool *)

Lemma save_or_upload_bytes_without_ffmpeg (w : World) bts filename rec ext :
  save_or_upload_bytes (without_ffmpeg w) bts filename rec ext =
  save_or_upload_bytes w bts filename rec ext.
Proof. reflexivity. Qed.

Lemma process_image_without_ffmpeg (w : World) z record mm main_bytes oms filename ext :
  process_image (without_ffmpeg w) z record mm main_bytes oms filename ext =
  process_image w z record mm main_bytes oms filename ext.
Proof. reflexivity. Qed.

Lemma process_groups_without_ffmpeg (w : World) z record prefix overlays mains saved count s :
  (forall base mm, In (base, mm) mains -> Str.lower (PathLib.suffix mm) <> ".mp4") ->
  process_groups (without_ffmpeg w) z record prefix overlays mains saved count s =
  process_groups w z record prefix overlays mains saved count s.
Proof.
  revert saved count s.
  induction mains as [|[base mm] mains IH]; intros saved count s H; [done |].
  assert (Hrest : forall base mm, In (base, mm) mains ->
                                  Str.lower (PathLib.suffix mm) <> ".mp4")
    by (intros b m Hm; apply (H b); by right).
  simpl. destruct (read_member z mm) as [main_bytes|].
  - destruct (is_jpeg_ext _).
    + apply bind_ext; [done | auto].
    + destruct (String.eqb_spec (Str.lower (PathLib.suffix mm)) ".mp4") as [E|E].
      * exfalso. apply (H base mm); [by left | done].
      * apply bind_ext; [done | auto].
  - apply bind_ext; [done | auto].
Qed.

Lemma download_and_process_without_ffmpeg (w : World) (record : Rec) (s : State) :
  no_video_main w record ->
  download_and_process (without_ffmpeg w) record s = download_and_process w record s.
Proof.
  intros H. unfold download_and_process.
  destruct (url_of record) as [url|] eqn:Hu; [| done].
  apply bind_ext; [done |]. intros _ s1.
  change (http_get (without_ffmpeg w) url) with (http_get w url).
  destruct (http_get w url) as [| |data ct] eqn:Hg; [done | done |].
  change (detect_zip (without_ffmpeg w)) with (detect_zip w).
  destruct (detect_zip w url data _); [| done].
  change (open_zip (without_ffmpeg w) data) with (open_zip w data).
  destruct (open_zip w data) as [z|] eqn:Hz; [| done].
  apply bind_ext; [| done]. unfold process_archive.
  pose proof (H url data ct z) as Hz'.
  destruct (collect (namelist z) [] []) as [mains overlays]. simpl in Hz'.
  destruct mains as [|e mains]; [done |].
  change (pillow_installed (without_ffmpeg w)) with (pillow_installed w).
  destruct (negb (pillow_installed w)); [done |].
  apply process_groups_without_ffmpeg. intros base mm Hin. by eapply Hz'.
Qed.

Lemma process_groups_no_tool (w : World) z record prefix base mm overlays rest saved
    count main_bytes s :
  truthy (ffmpeg_path w) = false ->
  read_member z mm = Some main_bytes ->
  Str.lower (PathLib.suffix mm) = ".mp4" ->
  process_groups w z record prefix overlays ((base, mm) :: rest) saved count s =
    Exit (log_of s DFfmpegMissing).
Proof.
  intros Hf Hr He. simpl. rewrite Hr, He. simpl.
  unfold process_video. by rewrite Hf.
Qed.

(** C3 as the specification states it fails for a video that comes
    with no overlay: without the tool the record is fatal, although with
    the tool on the path the tool is never run and the video is written
    as it came. *)
Lemma tool_needed_without_overlays :
  let r := Sample.record "Video" (Some "u") "P" in
  let z := Sample.lone_video in
  let get := Sample.serves z in
  let zip := Sample.opens_as z in
  (collect (namelist z) [] []).2 = [] /\
  download_and_process (Sample.world get zip None) r Sample.fresh
    = Exit (log_of (with_trace (fun t => t ++ [EvDownload "u"]) Sample.fresh)
              DFfmpegMissing) /\
  exists s',
    download_and_process (Sample.world get zip Sample.ffmpeg_bin) r Sample.fresh
      = Ret (Some [SavedInfo (InfoPath "snapchat_memories/P.mp4")]) s' /\
    local_dir s' !! "P.mp4" = Some (Sample.data "video") /\
    trace s' = [EvDownload "u"; EvLocalWrite "P.mp4" (Sample.data "video");
                EvEmbed "P.mp4"].
Proof.
  intros r z get zip. split; [reflexivity |]. split; [vm_compute; reflexivity |].
  eexists. split; [vm_compute; reflexivity |]. split; vm_compute; reflexivity.
Qed.

(** C3, amended. The absence of the compositing tool is fatal exactly
    when a group whose main is an [.mp4] member is processed, with or
    without overlays: for a record whose payload is no archive with such
    a main, the absence changes nothing; a group with a readable [.mp4]
    main exits when the tool is absent; and for an archive listing
    [abc-main.mp4] and [abc-overlay.png] with a readable main and no tool,
    the processing of the record exits after the download and a single
    message, with nothing written, uploaded or deleted. *)
Theorem tool_absence (w : World) (record : Rec) (s : State) :
  (no_video_main w record ->
   download_and_process (without_ffmpeg w) record s = download_and_process w record s) /\
  (forall z prefix base mm overlays rest saved count main_bytes,
     truthy (ffmpeg_path w) = false ->
     read_member z mm = Some main_bytes ->
     Str.lower (PathLib.suffix mm) = ".mp4" ->
     process_groups w z record prefix overlays ((base, mm) :: rest) saved count s =
       Exit (log_of s DFfmpegMissing)) /\
  (forall url data content_type z main_bytes,
     url_of record = Some url ->
     http_get w url = HttpOk data content_type ->
     detect_zip w url data (get_extension_from_content_type content_type) = true ->
     open_zip w data = Some z ->
     namelist z = ["abc-main.mp4"; "abc-overlay.png"] ->
     read_member z "abc-main.mp4" = Some main_bytes ->
     truthy (ffmpeg_path w) = false ->
     exists d,
       download_and_process w record s =
         Exit (log_of (with_trace (fun t => t ++ [EvDownload url]) s) d) /\
       (d = DFfmpegMissing \/ d = DPillowMissing) /\
       List.filter is_commit (trace (final (download_and_process w record s))) =
         List.filter is_commit (trace s)).
Proof.
  split; [apply download_and_process_without_ffmpeg |].
  split; [intros; by eapply process_groups_no_tool |].
  intros url data ct z mb Hu Hg Hd Hz Hn Hr Hf.
  assert (Hdp : exists d, download_and_process w record s =
            Exit (log_of (with_trace (fun t => t ++ [EvDownload url]) s) d) /\
            (d = DFfmpegMissing \/ d = DPillowMissing)).
  { unfold download_and_process. rewrite Hu. unfold bind at 1. simpl.
    rewrite Hg, Hd, Hz. unfold bind at 1. unfold process_archive. rewrite Hn.
    change (collect ["abc-main.mp4"; "abc-overlay.png"] [] [])
      with ([("abc", "abc-main.mp4")], [("abc", ["abc-overlay.png"])]).
    cbv iota beta.
    destruct (pillow_installed w); simpl.
    - exists DFfmpegMissing. rewrite Hr.
      change (Str.lower (PathLib.suffix "abc-main.mp4")) with ".mp4". simpl.
      unfold process_video. rewrite Hf. simpl. auto.
    - exists DPillowMissing. auto. }
  destruct Hdp as (d & Hdp & Hd'). exists d. split; [done |]. split; [done |].
  rewrite Hdp. simpl. rewrite !List.filter_app. simpl. by rewrite !app_nil_r.
Qed.

Lemma tool_absence_witness :
  let r := Sample.record "Video" (Some "u") "P" in
  let w_img := Sample.world (Sample.serves Sample.twins) (Sample.opens_as Sample.twins)
                 Sample.ffmpeg_bin in
  let w_vid := Sample.world (Sample.serves Sample.video_pair)
                 (Sample.opens_as Sample.video_pair) None in
  download_and_process (without_ffmpeg w_img) r Sample.fresh
    = download_and_process w_img r Sample.fresh /\
  process_groups w_vid Sample.lone_video r "P" [] [("abc", "abc-main.mp4")] [] 0 Sample.fresh
    = Exit (log_of Sample.fresh DFfmpegMissing) /\
  exists d,
    download_and_process w_vid r Sample.fresh =
      Exit (log_of (with_trace (fun t => t ++ [EvDownload "u"]) Sample.fresh) d) /\
    (d = DFfmpegMissing \/ d = DPillowMissing) /\
    List.filter is_commit (trace (final (download_and_process w_vid r Sample.fresh))) =
      List.filter is_commit (trace Sample.fresh).
Proof.
  intros r w_img w_vid. split; [| split].
  - pose proof (tool_absence w_img r Sample.fresh) as (H & _). apply H.
    intros url data ct z base mm _ _ Hz Hin.
    injection Hz as <-. vm_compute in Hin. destruct Hin as [[= <- <-]|[]].
    vm_compute. discriminate.
  - pose proof (tool_absence w_vid r Sample.fresh) as (_ & H & _).
    apply (H Sample.lone_video "P" "abc" "abc-main.mp4" [] [] [] 0 (Sample.data "video"));
      reflexivity.
  - pose proof (tool_absence w_vid r Sample.fresh) as (_ & _ & H).
    apply (H "u" (Sample.data "PK") (Some "application/zip") Sample.video_pair
             (Sample.data "video")); reflexivity.
Defined.

(** ** Groups without a main *)

Lemma dict_get_filter {V} (P : string -> bool) (k : string) (d : list (string * V)) :
  P k = true ->
  dict_get k (List.filter (fun kv => P kv.1) d) = dict_get k d.
Proof.
  intros Hk. induction d as [|[k0 v0] d IH]; [done |]. simpl.
  destruct (P k0) eqn:H0; simpl.
  - by rewrite IH.
  - destruct (String.eqb_spec k0 k) as [->|]; [congruence | done].
Qed.

(** The loop over the groups looks at the overlays of the keys that have
    a main, and at no others. *)
Lemma process_groups_overlays (w : World) z record prefix overlays mains saved count s
    (P : string -> bool) :
  (forall base, In base (List.map fst mains) -> P base = true) ->
  process_groups w z record prefix (List.filter (fun kv => P kv.1) overlays) mains
    saved count s =
  process_groups w z record prefix overlays mains saved count s.
Proof.
  revert saved count s.
  induction mains as [|[base mm] mains IH]; intros saved count s H; [done |].
  assert (Hrest : forall b, In b (List.map fst mains) -> P b = true)
    by (intros b Hb; apply H; by right).
  simpl. rewrite dict_get_filter by (apply H; by left).
  destruct (read_member z mm) as [main_bytes|].
  - destruct (is_jpeg_ext _); [apply bind_ext; [done | auto] |].
    destruct (String.eqb _ ".mp4"); apply bind_ext; try done; auto.
  - apply bind_ext; [done | auto].
Qed.

(** C8 as the specification states it fails for a group without a main
    next to a group with one: the group is passed over and nothing at all
    is printed. *)
Lemma stray_overlay_is_silent :
  let r := Sample.record "Image" (Some "u") "P" in
  let w := Sample.world Sample.no_download Sample.no_archive None in
  let z := Sample.stray_overlay in
  dict_get "b" (collect (namelist z) [] []).2 = Some ["b-overlay.png"] /\
  dict_get "b" (collect (namelist z) [] []).1 = None /\
  exists s',
    process_archive w z r "u" Sample.fresh
      = Ret [SavedInfo (InfoPath "snapchat_memories/P.jpg")] s' /\
    List.filter (fun e => match e with EvLog _ => true | _ => false end) (trace s') = [].
Proof.
  intros r w z. split; [reflexivity |]. split; [reflexivity |].
  eexists. split; vm_compute; reflexivity.
Qed.

(** C8, amended. A group without a main is never processed and never
    fatal, and no message is printed for it: the loop over the groups
    gives the same outcome when the overlays of such groups are taken
    away.  When no group of the archive has a main, one message is
    printed, the record yields the empty list, nothing else happens, and
    the loop over the records goes on with the next record. *)
Theorem groups_without_main (w : World) (z : Archive) (record : Rec) (s : State) :
  (forall prefix overlays mains saved count,
     process_groups w z record prefix (overlays_with_main mains overlays) mains
       saved count s =
     process_groups w z record prefix overlays mains saved count s) /\
  (forall url,
     (collect (namelist z) [] []).1 = [] ->
     process_archive w z record url s = Ret [] (log_of s (DNoMain url))) /\
  (forall url data content_type rest all_saved,
     rec_url record = Some url -> url <> "" ->
     http_get w url = HttpOk data content_type ->
     detect_zip w url data (get_extension_from_content_type content_type) = true ->
     open_zip w data = Some z ->
     (collect (namelist z) [] []).1 = [] ->
     main_loop (download_and_process w) (record :: rest) all_saved s =
       main_loop (download_and_process w) rest (<[url := Some []]> all_saved)
         (log_of (with_trace (fun t => t ++ [EvDownload url])
                    (log_of s (DProcessing url))) (DNoMain url))).
Proof.
  assert (Hnone : forall url s0, (collect (namelist z) [] []).1 = [] ->
            process_archive w z record url s0 = Ret [] (log_of s0 (DNoMain url))).
  { intros url s0 H. unfold process_archive.
    destruct (collect (namelist z) [] []) as [mains overlays]. simpl in H.
    by subst mains. }
  split; [| split; [by auto |]].
  - intros prefix overlays mains saved count. apply process_groups_overlays.
    intros base Hb. unfold has_main. apply bool_decide_eq_true_2.
    by apply list_elem_of_In.
  - intros url data ct rest all_saved Hu Hne Hg Hd Hz Hc. simpl.
    rewrite Hu. simpl. destruct (String.eqb_spec url ""); [done |]. simpl.
    unfold bind at 1. simpl. unfold bind at 1.
    unfold download_and_process, url_of. rewrite Hu.
    destruct (String.eqb_spec url ""); [done |].
    unfold bind at 1. simpl. rewrite Hg, Hd, Hz.
    unfold bind at 1. by rewrite Hnone.
Qed.

Lemma groups_without_main_witness :
  let r := Sample.record "Image" (Some "u") "P" in
  let z := Sample.overlays_only in
  let w := Sample.world (Sample.serves z) (Sample.opens_as z) None in
  process_archive w z r "u" Sample.fresh = Ret [] (log_of Sample.fresh (DNoMain "u")) /\
  main_loop (download_and_process w) [r] ∅ Sample.fresh =
    Ret {[ "u" := Some [] ]}
      (log_of (with_trace (fun t => t ++ [EvDownload "u"])
                 (log_of Sample.fresh (DProcessing "u"))) (DNoMain "u")).
Proof.
  intros r z w.
  pose proof (groups_without_main w z r Sample.fresh) as (_ & H2 & H3). split.
  - apply H2. reflexivity.
  - rewrite (H3 "u" (Sample.data "PK") (Some "application/zip") [] ∅);
      [reflexivity | reflexivity | discriminate | reflexivity | reflexivity
      | reflexivity | reflexivity].
Defined.

(** ** Conflict mode [skip] *)

(** C2 as the specification states it fails for the local destination,
    which has no conflict handling: in mode [skip] a file that is already
    there is written again, and the result names the path. *)
Lemma skip_mode_writes_locally :
  let r := Sample.record "Image" (Some "u") "P" in
  let w := Sample.world Sample.no_download Sample.no_archive None in
  let s := with_local_dir (fun _ => {[ "P.jpg" := Sample.data "old" ]}) Sample.fresh in
  DESTINATION s = DestLocal /\ CONFLICT_MODE s = ModeSkip /\
  local_dir s !! "P.jpg" = Some (Sample.data "old") /\
  exists s',
    save_or_upload_bytes w (Sample.data "new") "P.jpg" r ".jpg" s
      = Ret (InfoPath "snapchat_memories/P.jpg") s' /\
    local_dir s' !! "P.jpg" = Some (Sample.data "new") /\
    trace s' = [EvLocalWrite "P.jpg" (Sample.data "new"); EvEmbed "P.jpg"].
Proof.
  intros r w s. split; [reflexivity |]. split; [reflexivity |].
  split; [vm_compute; reflexivity |].
  eexists. split; [vm_compute; reflexivity |]. split; vm_compute; reflexivity.
Qed.

Lemma filter_commit_log (t : list Event) (d : Diag) :
  List.filter is_commit (t ++ [EvLog d]) = List.filter is_commit t.
Proof. rewrite List.filter_app. simpl. apply app_nil_r. Qed.

(** The embedding returns, whatever happens to it; it prints at most the
    one message of the last strategy, and leaves the Drive folder, the
    index and the globals alone. *)
Lemma write_file_metadata_returns (w : World) (filename : string) (meta : Meta) (s : State) :
  exists b s',
    write_file_metadata w filename meta s = Ret b s' /\
    (trace s' = trace s ++ [EvEmbed filename] /\
       (b = false ->
        is_jpeg_ext (Str.lower (PathLib.suffix filename)) = true /\
        meta_coords meta = None)
     \/
     trace s' = trace s ++ [EvEmbed filename; EvLog (DMetadataFailed filename)] /\
       b = false).
Proof.
  unfold write_file_metadata, embed_exif, embed_mp4, embed_stream, failed_write.
  unfold bind, ret, gets, modify, log, emit. simpl.
  repeat case_match; simplify_eq; simpl in *;
    rewrite <- ?app_assoc; simpl;
    eexists _, _; (split; [reflexivity |]); simpl;
    rewrite <- ?app_assoc; simpl;
    try (left; split; [reflexivity | intros; simplify_eq]; fail);
    try (right; split; reflexivity).
  left. split; [reflexivity |]. intros _. split; [| done].
  by destruct (is_jpeg_ext _).
Qed.

Lemma save_or_upload_bytes_gdrive (w : World) bts filename rec ext (s : State) :
  DESTINATION s = DestGdrive ->
  save_or_upload_bytes w bts filename rec ext s =
    match gdrive_guard w (List.length bts) s with
    | Some d => Exit (log_of s d)
    | None =>
        bind (resolve_conflict w filename) (fun early =>
          match early with
          | Some info => ret info
          | None =>
              try_except
                (created <~ upload_bytes_to_gdrive w filename bts (mime_of ext)
                              (meta_of w rec) ;;
                 modify (with_existing (fun m =>
                   <[filename := default [] (m !! filename) ++ [created.1]]> m)) ;;
                 ret (InfoUploaded created.1 created.2))
                (fatal (DUploadFailed filename))
          end) s
    end.
Proof.
  intros Hd. unfold save_or_upload_bytes, gdrive_guard.
  unfold bind at 1. simpl. rewrite Hd. unfold bind at 1. simpl.
  destruct (gdrive_configured s) eqn:Hc; simpl; [| done].
  unfold check_gdrive_space. unfold bind at 1. unfold bind at 1. simpl.
  destruct (drive_quota w (drive s)) as [| | |limit usage]; simpl; try done.
  destruct (limit - usage <? Z.of_nat (List.length bts))%Z; simpl; [done |].
  unfold bind at 1. simpl. by rewrite Hc.
Qed.

Lemma resolve_conflict_skip (w : World) filename ids (s : State) :
  CONFLICT_MODE s = ModeSkip ->
  GDRIVE_EXISTING s !! filename = Some ids -> ids <> [] ->
  resolve_conflict w filename s = Ret (Some (InfoSkipped ids)) s.
Proof.
  intros Hm He Hne. unfold resolve_conflict.
  unfold bind at 1. simpl. unfold bind at 1. simpl.
  rewrite He, Hm. simpl. by destruct ids.
Qed.

(** C2, amended. Drive destination, mode [skip]: when the index
    [GDRIVE_EXISTING] holds at least one id for the name, nothing is
    uploaded or deleted and neither the folder nor the index changes,
    and once the client is configured and the quota guard passes the
    result is the skip outcome with those ids, in the unchanged state.
    Local destination: once the space guard passes, the file is written
    whatever the mode and whether or not the name exists. *)
Theorem skip_mode (w : World) (bts : bytes) (filename : string) (rec : Rec)
    (ext : string) (s : State) :
  (forall ids,
     DESTINATION s = DestGdrive -> CONFLICT_MODE s = ModeSkip ->
     GDRIVE_EXISTING s !! filename = Some ids -> ids <> [] ->
     let o := save_or_upload_bytes w bts filename rec ext s in
     drive (final o) = drive s /\
     GDRIVE_EXISTING (final o) = GDRIVE_EXISTING s /\
     List.filter is_commit (trace (final o)) = List.filter is_commit (trace s) /\
     (gdrive_configured s = true ->
      forall limit usage,
        drive_quota w (drive s) = Quota limit usage ->
        (Z.of_nat (List.length bts) <= limit - usage)%Z ->
        o = Ret (InfoSkipped ids) s)) /\
  (forall free,
     DESTINATION s = DestLocal ->
     disk_free w (local_dir s) = Some free ->
     (Z.of_nat (List.length bts) <= free)%Z ->
     exists rest,
       trace (final (save_or_upload_bytes w bts filename rec ext s)) =
         trace s ++ EvLocalWrite filename bts :: rest).
Proof.
  split.
  - intros ids Hd Hm He Hne o. subst o.
    rewrite save_or_upload_bytes_gdrive by done.
    unfold gdrive_guard.
    destruct (gdrive_configured s) eqn:Hc; simpl;
      [| split; [done |]; split; [done |]; split; [apply filter_commit_log | done]].
    destruct (drive_quota w (drive s)) as [| | |limit usage] eqn:Hq; simpl.
    1-3: split; [done |]; split; [done |]; split; [apply filter_commit_log |];
         intros _ l u [=].
    destruct (Z.ltb_spec (limit - usage) (Z.of_nat (List.length bts))) as [Hlt|Hge];
      simpl.
    + split; [done |]. split; [done |]. split; [apply filter_commit_log |].
      intros _ l u [= <- <-] Hle. lia.
    + unfold bind. rewrite (resolve_conflict_skip w filename ids s) by done.
      simpl. repeat split; done.
  - intros free Hd Hf Hle. unfold save_or_upload_bytes.
    unfold bind at 1. simpl. rewrite Hd. unfold bind at 1.
    unfold check_local_space. unfold bind at 1. simpl. rewrite Hf.
    destruct (Z.ltb_spec free (Z.of_nat (List.length bts))) as [Hlt|Hge]; [lia |].
    simpl. unfold bind at 1. unfold save_bytes_to_file. unfold bind at 1. simpl.
    destruct (local_write_ok w filename); simpl;
      [| unfold bind, failed_write; destruct (write_left w filename bts); simpl; eauto].
    unfold try_except, bind at 1. unfold bind at 1.
    match goal with |- context [write_file_metadata w filename ?m ?s0] =>
      destruct (write_file_metadata_returns w filename m s0) as (b & s' & -> & Ht)
    end.
    simpl. destruct Ht as [[Ht _]|[Ht _]]; rewrite Ht; simpl;
      rewrite <- app_assoc; simpl; eauto.
Qed.

Lemma skip_mode_witness :
  let r := Sample.record "Image" (Some "u") "P" in
  let w := Sample.world Sample.no_download Sample.no_archive None in
  let s := Sample.on_drive ModeSkip {[ "P.jpg" := ["id-7"] ]}
             [Sample.drive_file "id-7" "P.jpg" (Sample.data "old")] in
  save_or_upload_bytes w (Sample.data "new") "P.jpg" r ".jpg" s
    = Ret (InfoSkipped ["id-7"]) s /\
  exists rest,
    trace (final (save_or_upload_bytes w (Sample.data "new") "P.jpg" r ".jpg" Sample.fresh))
      = trace Sample.fresh ++ EvLocalWrite "P.jpg" (Sample.data "new") :: rest.
Proof.
  intros r w s. split.
  - pose proof (skip_mode w (Sample.data "new") "P.jpg" r ".jpg" s) as [H _].
    assert (Hl : GDRIVE_EXISTING s !! "P.jpg" = Some ["id-7"]) by (vm_compute; reflexivity).
    destruct (H ["id-7"] eq_refl eq_refl Hl ltac:(discriminate)) as (_ & _ & _ & H').
    apply (H' eq_refl 1000000%Z 0%Z eq_refl). vm_compute. discriminate.
  - pose proof (skip_mode w (Sample.data "new") "P.jpg" r ".jpg" Sample.fresh) as [_ H].
    apply (H 1000000%Z eq_refl eq_refl). vm_compute. discriminate.
Defined.

(** ** Metadata embedding *)




(** ** The index of existing Drive names *)

(** The prompt leaves the module-level index as it found it. *)
Lemma prompt_destination_index (w : World) (con : Console) (s : State) :
  GDRIVE_EXISTING (final (prompt_destination w con s)) = GDRIVE_EXISTING s.
Proof.
  unfold prompt_destination, read_conflict_mode.
  unfold bind, ret, gets, modify, fatal, log, emit, exit, bind, modify.
  repeat case_match; simplify_eq; simpl in *; try done.
Qed.

(** From the state the module starts in, the prompt ends with an empty
    index, and with mode [skip] unless the destination is the Drive. *)
Lemma prompt_destination_start (w : World) (con : Console) files dir (s1 : State) :
  prompt_destination w con (initial_state files dir) = Ret tt s1 ->
  GDRIVE_EXISTING s1 = ∅ /\
  (DESTINATION s1 = DestLocal -> CONFLICT_MODE s1 = ModeSkip).
Proof.
  intros H. split.
  - pose proof (prompt_destination_index w con (initial_state files dir)) as Hi.
    rewrite H in Hi. exact Hi.
  - revert H. unfold prompt_destination, read_conflict_mode.
    unfold bind, ret, gets, modify, fatal, log, emit, exit, bind, modify.
    repeat case_match; simplify_eq; simpl in *; intros; simplify_eq; simpl in *; done.
Qed.

Lemma already_present_empty (rec : Rec) : already_present ∅ rec = false.
Proof. unfold already_present. by rewrite elements_empty. Qed.

(** So the filter of mode [new] never drops a record. *)
Lemma filter_new_after_prompt (w : World) (con : Console) files dir records
    (s1 s2 : State) (kept : list Rec) :
  prompt_destination w con (initial_state files dir) = Ret tt s1 ->
  filter_new w records s1 = Ret kept s2 ->
  kept = records.
Proof.
  intros Hp Hf. apply prompt_destination_start in Hp as [He Hm].
  revert Hf. unfold filter_new. unfold bind at 1. simpl.
  destruct (CONFLICT_MODE s1) eqn:Hmode; try (by intros [= <- _]).
  unfold bind at 1. unfold bind at 1. simpl.
  destruct (DESTINATION s1) eqn:Hdest; [discriminate (Hm eq_refl) |].
  unfold bind at 1. simpl. destruct (gdrive_configured s1); simpl; [| done].
  unfold bind at 1. simpl. rewrite He, dom_empty_L.
  unfold ret. intros [= <- _].
  induction records as [|r records IH]; [done |]. simpl.
  rewrite already_present_empty. simpl. by rewrite IH.
Qed.

(** The filter of lines 415-426 keeps a record exactly when no existing
    name starts with its prefix. *)
Lemma already_present_spec (existing_names : gset string) (rec : Rec) :
  already_present existing_names rec = true <->
  exists name, name ∈ existing_names /\ Str.startswith name (rec_prefix rec) = true.
Proof.
  unfold already_present. rewrite existsb_exists. split.
  - intros (name & Hin & Hs). exists name. split; [| done].
    apply elem_of_elements. by apply list_elem_of_In.
  - intros (name & Hin & Hs). exists name. split; [| done].
    apply list_elem_of_In. by apply elem_of_elements.
Qed.

(** With the Drive configured, the filter drops the records whose prefix
    starts a name of the index, and only prints its summary. *)
Lemma filter_new_by_index (w : World) (records : list Rec) (s : State) :
  CONFLICT_MODE s = ModeNew -> DESTINATION s = DestGdrive ->
  gdrive_configured s = true ->
  exists d,
    filter_new w records s =
      Ret (List.filter (fun rec => negb (already_present (dom (GDRIVE_EXISTING s)) rec))
             records)
          (log_of s d).
Proof.
  intros Hm Hd Hc. unfold filter_new. unfold bind at 1. simpl. rewrite Hm.
  unfold bind at 1. simpl. rewrite Hd. unfold bind at 1. unfold bind at 1. simpl.
  rewrite Hc. simpl. eexists. reflexivity.
Qed.

(** C6, at the failing input. The Drive folder holds an object named
    [P.mp4]; the user chooses the Drive and mode [overwrite]; the one
    record the loop reaches downloads a plain [video/mp4] payload and has
    prefix [P].  The index is empty when the record is committed, so
    nothing is deleted, and after the run the folder holds two objects
    under the name: the old one, with the old bytes, and the new one. *)
Theorem overwrite_leaves_old_object :
  let w := Sample.world (Sample.plain (Sample.data "new") "video/mp4") Sample.no_archive None in
  let old := Sample.drive_file "old-1" "P.mp4" (Sample.data "old") in
  let records := Sample.table (Sample.record "Video" (Some "u") "P") in
  exists report s',
    extract_memories w (Sample.chooses_drive "overwrite") records (initial_state [old] ∅)
      = Ret report s' /\
    CONFLICT_MODE s' = ModeOverwrite /\
    report !! "u" = Some (Some [SavedName "P.mp4"]) /\
    List.map (fun f => (df_id f, df_content f))
      (List.filter (fun f => String.eqb (df_name f) "P.mp4") (drive s'))
      = [("old-1", Sample.data "old"); ("id-1", Sample.data "new")] /\
    trace s' = [EvLog (DProcessing "u"); EvDownload "u";
                EvUpload "P.mp4" (Sample.data "new")].
Proof.
  intros w old records. eexists _, _.
  split; [vm_compute; reflexivity |]. repeat split; vm_compute; reflexivity.
Qed.

(** C7, at the failing input. The Drive folder holds an object named
    [P.mp4]; the user chooses the Drive and mode [new]; the record with
    prefix [P] is the one the loop reaches.  The index is empty when the
    filter runs, so the record is kept, downloaded and uploaded, and the
    report has an entry for it. *)
Theorem new_mode_keeps_existing_record :
  let w := Sample.world (Sample.plain (Sample.data "new") "video/mp4") Sample.no_archive None in
  let old := Sample.drive_file "old-1" "P.mp4" (Sample.data "old") in
  let r := Sample.record "Video" (Some "u") "P" in
  let start := initial_state [old] ∅ in
  Str.startswith (df_name old) (rec_prefix r) = true /\
  exists s1,
    prompt_destination w (Sample.chooses_drive "new") start = Ret tt s1 /\
    CONFLICT_MODE s1 = ModeNew /\ GDRIVE_EXISTING s1 = ∅ /\
    (exists s2, filter_new w (Sample.table r) s1 = Ret (Sample.table r) s2) /\
    exists report s',
      extract_memories w (Sample.chooses_drive "new") (Sample.table r) start
        = Ret report s' /\
      report !! "u" = Some (Some [SavedName "P.mp4"]) /\
      In (EvUpload "P.mp4" (Sample.data "new")) (trace s').
Proof.
  intros w old r start. split; [reflexivity |].
  eexists. split; [vm_compute; reflexivity |].
  split; [reflexivity |]. split; [reflexivity |].
  split; [eexists; vm_compute; reflexivity |].
  eexists _, _. split; [vm_compute; reflexivity |].
  split; [vm_compute; reflexivity |]. vm_compute. tauto.
Qed.

(** *** What the commit does with an index that is in step *)

Lemma filter_all {A} (p : A -> bool) (l : list A) :
  (forall x, In x l -> p x = true) -> List.filter p l = l.
Proof.
  induction l as [|x l IH]; intros H; [done |]. simpl.
  rewrite (H x) by (by left). f_equal. apply IH. intros y Hy. apply H. by right.
Qed.

Lemma filter_none {A} (p : A -> bool) (l : list A) :
  (forall x, In x l -> p x = false) -> List.filter p l = [].
Proof.
  induction l as [|x l IH]; intros H; [done |]. simpl.
  rewrite (H x) by (by left). apply IH. intros y Hy. apply H. by right.
Qed.

Lemma filter_twice {A} (p q : A -> bool) (l : list A) :
  List.filter p (List.filter q l) = List.filter (fun x => q x && p x) l.
Proof.
  induction l as [|x l IH]; [done |]. simpl.
  destruct (q x); simpl; [destruct (p x) |]; by rewrite IH.
Qed.

Lemma delete_all_Ret (w : World) (filename : string) (ids : list string) (s s1 : State) :
  delete_all w filename ids s = Ret tt s1 ->
  drive s1 = List.filter (fun f => negb (bool_decide (df_id f ∈ ids))) (drive s) /\
  trace s1 = trace s ++ List.map EvDelete ids /\
  GDRIVE_EXISTING s1 = GDRIVE_EXISTING s /\
  Forall (fun fid => drive_delete_ok w fid = true) ids.
Proof.
  revert s. induction ids as [|fid ids IH]; intros s.
  - intros [= <-]. simpl. rewrite app_nil_r. repeat split; [| done].
    symmetry. apply filter_all. intros f _.
    by rewrite ?bool_decide_eq_false_2 by apply not_elem_of_nil.
  - simpl. unfold bind at 1. unfold try_except, delete_gdrive_file.
    unfold bind at 1. simpl.
    destruct (drive_delete_ok w fid) eqn:Hok; simpl; [| done].
    intros H. apply IH in H as (Hd & Ht & He & Hall). simpl in *.
    split; [| split; [| split]].
    + rewrite Hd, filter_twice. apply List.filter_ext. intros f.
      destruct (String.eqb_spec (df_id f) fid) as [E|E]; simpl.
      * rewrite bool_decide_eq_true_2; [done | rewrite E; left].
      * destruct (decide (df_id f ∈ ids)) as [Hin|Hin].
        -- rewrite !bool_decide_eq_true_2; [done | by right | done].
        -- rewrite !bool_decide_eq_false_2; [done | | done].
           intros [?|?]%elem_of_cons; done.
    + rewrite Ht. by rewrite <- app_assoc.
    + done.
    + by constructor.
Qed.

(** A delete that fails is fatal, before anything is uploaded. *)
Lemma delete_all_Exit (w : World) (filename : string) (pre post : list string)
    (fid : string) (s : State) :
  Forall (fun i => drive_delete_ok w i = true) pre ->
  drive_delete_ok w fid = false ->
  exists s',
    delete_all w filename (pre ++ fid :: post) s = Exit s' /\
    trace s' = trace s ++ List.map EvDelete pre ++
                 [EvDelete fid; EvLog (DDeleteFailed fid filename)].
Proof.
  intros Hpre Hf. revert s. induction Hpre as [|i pre Hi Hpre IH]; intros s.
  - simpl. unfold bind at 1. unfold try_except, delete_gdrive_file.
    unfold bind at 1. simpl. rewrite Hf. simpl.
    eexists. split; [reflexivity |]. simpl. by rewrite <- app_assoc.
  - simpl. unfold bind at 1. unfold try_except, delete_gdrive_file.
    unfold bind at 1. simpl. rewrite Hi. simpl.
    destruct (IH (with_drive (List.filter (fun f => negb (String.eqb (df_id f) i)))
                    (with_trace (fun t => t ++ [EvDelete i]) s))) as (s' & -> & Ht).
    exists s'. split; [done |]. rewrite Ht. simpl. by rewrite <- app_assoc.
Qed.

(** With mode [overwrite], a name the index knows, and an index that
    holds the id of every object of that name, a commit that returns has
    deleted those ids, then uploaded, and leaves one object under the
    name, with the new bytes. *)
Lemma overwrite_with_index_in_step (w : World) bts filename rec ext ids info (s s' : State) :
  DESTINATION s = DestGdrive -> CONFLICT_MODE s = ModeOverwrite ->
  GDRIVE_EXISTING s !! filename = Some ids ->
  (forall f, In f (drive s) -> df_name f = filename -> df_id f ∈ ids) ->
  save_or_upload_bytes w bts filename rec ext s = Ret info s' ->
  exists id link,
    info = InfoUploaded id link /\
    List.filter (fun f => String.eqb (df_name f) filename) (drive s') =
      [{| df_id := id; df_name := filename; df_content := bts;
          df_mime := mime_of ext; df_props := meta_of w rec |}] /\
    GDRIVE_EXISTING s' !! filename = Some [id] /\
    trace s' = trace s ++ List.map EvDelete ids ++ [EvUpload filename bts].
Proof.
  intros Hd Hm He Hsync. rewrite save_or_upload_bytes_gdrive by done.
  destruct (gdrive_guard w (List.length bts) s); [done |].
  unfold bind at 1.
  destruct (resolve_conflict w filename s) as [early s1|s1|s1] eqn:Hrc; [| done | done].
  assert (Hs1 : early = None /\
            drive s1 = List.filter (fun f => negb (bool_decide (df_id f ∈ ids))) (drive s) /\
            trace s1 = trace s ++ List.map EvDelete ids /\
            GDRIVE_EXISTING s1 !! filename = match ids with [] => Some [] | _ => None end).
  { revert Hrc. unfold resolve_conflict. unfold bind at 1. simpl. unfold bind at 1. simpl.
    rewrite He, Hm. simpl. destruct ids as [|i ids].
    - intros [= <- <-]. simpl. rewrite app_nil_r. split; [done |]. split; [| done].
      symmetry. apply filter_all. intros f _.
      by rewrite ?bool_decide_eq_false_2 by apply not_elem_of_nil.
    - unfold bind at 1.
      destruct (delete_all w filename (i :: ids) s) as [[] s0|s0|s0] eqn:Hdel;
        [| done | done].
      unfold bind at 1. simpl. intros [= <- <-].
      apply delete_all_Ret in Hdel as (Hdr & Htr & Hex & _). simpl.
      split; [done |]. split; [done |]. split; [done |].
      by rewrite lookup_delete_eq. }
  destruct Hs1 as (-> & Hdr & Htr & Hex).
  unfold try_except. unfold bind at 1. unfold upload_bytes_to_gdrive.
  unfold bind at 1. unfold bind at 1. simpl.
  destruct (drive_upload w (drive s1) filename bts) as [id link| |]; simpl; [| done | done].
  intros [= <- <-]. exists id, link.
  split; [done |]. simpl. split; [| split].
  - rewrite List.filter_app. simpl. rewrite String.eqb_refl.
    rewrite Hdr, filter_twice. rewrite filter_none; [done |].
    intros f Hf. destruct (String.eqb_spec (df_name f) filename) as [E|E].
    + rewrite bool_decide_eq_true_2; [done | by apply Hsync].
    + apply andb_false_r.
  - rewrite lookup_insert_eq. rewrite Hex. by destruct ids.
  - rewrite Htr. by rewrite <- app_assoc.
Qed.

(** ** The loop over the records and the report *)

(** The records are processed one after the other: the loop over a list
    is the loop over its front part, followed, from the state and report
    it ends with, by the loop over its back part. *)
Lemma main_loop_app (process : Rec -> M (option (list Saved))) (rs1 rs2 : list Rec)
    (all_saved : Report) (s : State) :
  main_loop process (rs1 ++ rs2) all_saved s =
  bind (main_loop process rs1 all_saved) (main_loop process rs2) s.
Proof.
  revert all_saved s. induction rs1 as [|rec rs1 IH]; intros all_saved s; [done |].
  simpl. destruct (negb (truthy (rec_url rec))); [apply IH |].
  rewrite !bind_assoc. apply bind_ext; [done |]. intros _ s1.
  rewrite bind_assoc. apply bind_ext; [done |]. intros saved s2. apply IH.
Qed.

Lemma main_loop_cons (process : Rec -> M (option (list Saved))) (rec : Rec)
    (rest : list Rec) (all_saved : Report) (s : State) :
  main_loop process (rec :: rest) all_saved s =
    if negb (truthy (rec_url rec)) then main_loop process rest all_saved s
    else bind (log (DProcessing (default "" (rec_url rec))))
           (fun _ => bind (process rec) (fun saved =>
              main_loop process rest (<[default "" (rec_url rec) := saved]> all_saved))) s.
Proof. simpl. by destruct (negb _). Qed.





(** *** The local-only script never stops early *)







(** * Further properties *)

(** ** The index of existing Drive names, continued *)

Lemma build_gdrive_existing_map_lookup (files : list DriveFile)
    (existing : gmap string (list string)) (name : string) :
  build_gdrive_existing_map files existing !! name =
    match ids_named name files with
    | [] => existing !! name
    | ids => Some (default [] (existing !! name) ++ ids)
    end.
Proof.
  revert existing. induction files as [|f files IH]; intros existing; [done |].
  simpl. rewrite IH. unfold ids_named. simpl.
  destruct (String.eqb_spec (df_name f) name) as [E|E]; simpl.
  - rewrite E, lookup_insert_eq. simpl.
    fold (ids_named name files).
    destruct (ids_named name files) as [|i ids]; [done |].
    by rewrite <- app_assoc.
  - rewrite lookup_insert_ne by done. done.
Qed.

(** X1. The listing of a folder, read page after page, becomes the map
    from each name to the ids of the objects carrying it, in listing
    order; a name no object carries is not a key, so no key holds the
    empty list; and reading the pages one after the other is reading
    their concatenation. *)
Theorem build_gdrive_existing_map_spec (files : list DriveFile) (name : string) :
  build_gdrive_existing_map files ∅ !! name =
    (if bool_decide (ids_named name files = []) then None
     else Some (ids_named name files)) /\
  index_mirrors (build_gdrive_existing_map files ∅) files /\
  (forall page1 page2 existing,
     build_gdrive_existing_map (page1 ++ page2) existing =
     build_gdrive_existing_map page2 (build_gdrive_existing_map page1 existing)).
Proof.
  assert (H : forall n, build_gdrive_existing_map files ∅ !! n =
            (if bool_decide (ids_named n files = []) then None
             else Some (ids_named n files))).
  { intros n. rewrite build_gdrive_existing_map_lookup, lookup_empty.
    by destruct (ids_named n files). }
  split; [apply H |]. split.
  - intros n. rewrite H. by destruct (ids_named n files).
  - intros page1. induction page1 as [|f page1 IH]; intros page2 existing; [done |].
    simpl. apply IH.
Qed.

Lemma ids_named_app (name : string) (l1 l2 : list DriveFile) :
  ids_named name (l1 ++ l2) = ids_named name l1 ++ ids_named name l2.
Proof. unfold ids_named. by rewrite List.filter_app, List.map_app. Qed.

Lemma NoDup_ids_inj (files : list DriveFile) (f g : DriveFile) :
  NoDup (List.map df_id files) -> In f files -> In g files ->
  df_id f = df_id g -> f = g.
Proof.
  induction files as [|h files IH]; [done |]. simpl.
  intros [Hni Hnd]%NoDup_cons [<-|Hf] [<-|Hg] E; try done.
  - exfalso. apply Hni. rewrite E. apply list_elem_of_In. by apply List.in_map.
  - exfalso. apply Hni. rewrite <- E. apply list_elem_of_In. by apply List.in_map.
  - auto.
Qed.

Lemma in_ids_named (name : string) (files : list DriveFile) (id : string) :
  In id (ids_named name files) <->
  exists f, In f files /\ df_name f = name /\ df_id f = id.
Proof.
  unfold ids_named. rewrite List.in_map_iff. split.
  - intros (f & E & Hf). apply List.filter_In in Hf as [Hf Hn].
    exists f. by apply String.eqb_eq in Hn.
  - intros (f & Hf & Hn & E). exists f. split; [done |].
    apply List.filter_In. split; [done |]. by apply String.eqb_eq.
Qed.

(** Deleting the objects of one name leaves the objects of the other
    names, when ids are not shared. *)
Lemma ids_named_after_delete (name other : string) (files : list DriveFile) :
  NoDup (List.map df_id files) ->
  ids_named other
    (List.filter (fun f => negb (bool_decide (df_id f ∈ ids_named name files))) files) =
  if String.eqb other name then [] else ids_named other files.
Proof.
  intros Hnd. unfold ids_named at 1. rewrite filter_twice.
  destruct (String.eqb_spec other name) as [->|Hne].
  - rewrite filter_none; [done |]. intros f Hf.
    destruct (String.eqb_spec (df_name f) name) as [E|E]; [| apply andb_false_r].
    rewrite bool_decide_eq_true_2; [done |].
    apply list_elem_of_In, in_ids_named. by exists f.
  - unfold ids_named. f_equal. apply List.filter_ext_in. intros f Hf.
    destruct (String.eqb_spec (df_name f) other) as [E|E]; [| apply andb_false_r].
    rewrite bool_decide_eq_false_2; [done |].
    intros Hin%list_elem_of_In%in_ids_named. destruct Hin as (g & Hg & Hn & Hid).
    assert (g = f) by (by eapply NoDup_ids_inj). congruence.
Qed.

(** ** What a commit to the Drive does *)

Lemma same_config_refl (s : State) : same_config s s.
Proof. by repeat split. Qed.

Lemma same_local_refl (s : State) : same_local s s.
Proof. reflexivity. Qed.

Lemma same_remote_refl (s : State) : same_remote s s.
Proof. by repeat split. Qed.

Lemma same_config_trans (s1 s2 s3 : State) :
  same_config s1 s2 -> same_config s2 s3 -> same_config s1 s3.
Proof. unfold same_config. intros (?&?&?&?) (?&?&?&?). repeat split; congruence. Qed.

Lemma same_local_trans (s1 s2 s3 : State) :
  same_local s1 s2 -> same_local s2 s3 -> same_local s1 s3.
Proof. unfold same_local. congruence. Qed.

Lemma same_remote_trans (s1 s2 s3 : State) :
  same_remote s1 s2 -> same_remote s2 s3 -> same_remote s1 s3.
Proof. unfold same_remote. intros (?&?) (?&?). split; congruence. Qed.

Lemma without_ids_nil (files : list DriveFile) : without_ids [] files = files.
Proof.
  apply filter_all. intros f _.
  by rewrite ?bool_decide_eq_false_2 by apply not_elem_of_nil.
Qed.

Lemma delete_all_frame (w : World) (filename : string) (ids : list string) (s : State) :
  let s' := final (delete_all w filename ids s) in
  same_config s s' /\ same_local s s' /\ GDRIVE_EXISTING s' = GDRIVE_EXISTING s.
Proof.
  revert s. induction ids as [|fid ids IH]; intros s; [by repeat split |].
  simpl. unfold bind at 1. unfold try_except, delete_gdrive_file.
  unfold bind at 1. simpl.
  destruct (drive_delete_ok w fid); simpl; [| by repeat split].
  match goal with |- context [delete_all w filename ids ?s0] =>
    destruct (IH s0) as (Hc & Hl & He)
  end.
  split; [exact Hc |]. split; [exact Hl | exact He].
Qed.

(** The effect of a commit to the Drive that returns: either the skip
    outcome in the unchanged state, or one upload, after the deletes of
    mode [overwrite], with the new id appended to what the index keeps
    for the name. *)
Lemma commit_gdrive_Ret (w : World) bts filename rec ext info (s s' : State) :
  DESTINATION s = DestGdrive ->
  save_or_upload_bytes w bts filename rec ext s = Ret info s' ->
  let ids := default [] (GDRIVE_EXISTING s !! filename) in
  let mode := CONFLICT_MODE s in
  (info = InfoSkipped ids /\ ids <> [] /\ mode = ModeSkip /\ s' = s) \/
  (exists id link,
     info = InfoUploaded id link /\
     (ids = [] \/ mode <> ModeSkip) /\
     drive_upload w (without_ids (deleted_ids mode ids) (drive s)) filename bts
       = UploadOk id link /\
     drive s' = without_ids (deleted_ids mode ids) (drive s) ++
                  [{| df_id := id; df_name := filename; df_content := bts;
                      df_mime := mime_of ext; df_props := meta_of w rec |}] /\
     GDRIVE_EXISTING s' = <[filename := kept_ids mode ids ++ [id]]> (GDRIVE_EXISTING s) /\
     trace s' = trace s ++ List.map EvDelete (deleted_ids mode ids) ++
                  [EvUpload filename bts] /\
     same_config s s' /\ same_local s s').
Proof.
  intros Hd. rewrite save_or_upload_bytes_gdrive by done.
  destruct (gdrive_guard w (List.length bts) s); [done |].
  unfold bind at 1.
  destruct (resolve_conflict w filename s) as [early s1|s1|s1] eqn:Hrc; [| done | done].
  (* the state and answer after the conflict handling *)
  assert (Hs1 :
    (early = Some (InfoSkipped (default [] (GDRIVE_EXISTING s !! filename))) /\
     default [] (GDRIVE_EXISTING s !! filename) <> [] /\
     CONFLICT_MODE s = ModeSkip /\ s1 = s) \/
    (early = None /\
     (default [] (GDRIVE_EXISTING s !! filename) = [] \/ CONFLICT_MODE s <> ModeSkip) /\
     drive s1 = without_ids (deleted_ids (CONFLICT_MODE s)
                  (default [] (GDRIVE_EXISTING s !! filename))) (drive s) /\
     <[filename := default [] (GDRIVE_EXISTING s1 !! filename)]> (GDRIVE_EXISTING s1) =
       <[filename := kept_ids (CONFLICT_MODE s)
                       (default [] (GDRIVE_EXISTING s !! filename))]> (GDRIVE_EXISTING s) /\
     default [] (GDRIVE_EXISTING s1 !! filename) =
       kept_ids (CONFLICT_MODE s) (default [] (GDRIVE_EXISTING s !! filename)) /\
     (forall x, <[filename := x]> (GDRIVE_EXISTING s1) =
                <[filename := x]> (GDRIVE_EXISTING s)) /\
     trace s1 = trace s ++ List.map EvDelete
                  (deleted_ids (CONFLICT_MODE s)
                     (default [] (GDRIVE_EXISTING s !! filename))) /\
     same_config s s1 /\ same_local s s1)).
  { revert Hrc. unfold resolve_conflict. unfold bind at 1. simpl. unfold bind at 1. simpl.
    destruct (default [] (GDRIVE_EXISTING s !! filename)) as [|i ids] eqn:Hids.
    - intros [= <- <-]. right.
      assert (Hd0 : deleted_ids (CONFLICT_MODE s) [] = []) by (by destruct (CONFLICT_MODE s)).
      assert (Hk0 : kept_ids (CONFLICT_MODE s) [] = []) by (by destruct (CONFLICT_MODE s)).
      rewrite Hd0, Hk0, without_ids_nil. simpl. rewrite app_nil_r, Hids.
      repeat split; try done. by left.
    - destruct (CONFLICT_MODE s) eqn:Hm.
      + intros [= <- <-]. left. by repeat split.
      + unfold bind at 1.
        destruct (delete_all w filename (i :: ids) s) as [[] s0|s0|s0] eqn:Hdel;
          [| done | done].
        unfold bind at 1. simpl. intros [= <- <-]. right.
        pose proof (delete_all_frame w filename (i :: ids) s) as Hfr.
        rewrite Hdel in Hfr. simpl in Hfr. destruct Hfr as (Hc & Hl & He).
        apply delete_all_Ret in Hdel as (Hdr & Htr & _ & _). simpl.
        split; [done |]. split; [by right |]. split; [exact Hdr |].
        rewrite He, lookup_delete_eq. simpl.
        split; [by rewrite insert_delete_eq |]. split; [done |].
        split; [intros x; by rewrite insert_delete_eq |].
        split; [exact Htr |]. split; [exact Hc | exact Hl].
      + intros [= <- <-]. right. split; [done |]. split; [by right |].
        simpl. rewrite without_ids_nil, app_nil_r, Hids.
        repeat split; done. }
  destruct Hs1 as [(-> & Hne & Hm & ->)|(-> & Hcase & Hdr & _ & Hk & Hins & Htr & Hc & Hl)].
  - intros [= <- <-]. by left.
  - unfold try_except. unfold bind at 1. unfold upload_bytes_to_gdrive.
    unfold bind at 1. unfold bind at 1. simpl.
    rewrite Hdr.
    destruct (drive_upload w _ filename bts) as [id link| |] eqn:Hup; simpl;
      [| done | done].
    intros [= <- <-]. right. exists id, link. simpl.
    split; [done |]. split; [done |]. split; [done |].
    split; [by rewrite Hdr |]. split; [by rewrite Hk, Hins |].
    split; [by rewrite Htr, <- app_assoc |]. split; [exact Hc | exact Hl].
Qed.

(** ** What a step leaves alone *)

Lemma grows_refl (s : State) : grows s s.
Proof. exists []. by rewrite app_nil_r. Qed.

Lemma grows_trans (s1 s2 s3 : State) : grows s1 s2 -> grows s2 s3 -> grows s1 s3.
Proof. intros [t1 H1] [t2 H2]. exists (t1 ++ t2). by rewrite H2, H1, app_assoc. Qed.

Lemma grows_emit (e : Event) (s : State) : grows s (with_trace (fun t => t ++ [e]) s).
Proof. by exists [e]. Qed.

Lemma only_logs_refl (s : State) : only_logs s s.
Proof.
  split; [apply same_config_refl |]. split; [apply same_local_refl |].
  split; [apply same_remote_refl | apply grows_refl].
Qed.

Lemma only_logs_trans (s1 s2 s3 : State) :
  only_logs s1 s2 -> only_logs s2 s3 -> only_logs s1 s3.
Proof.
  intros (?&?&?&?) (?&?&?&?).
  split; [by eapply same_config_trans |]. split; [by eapply same_local_trans |].
  split; [by eapply same_remote_trans | by eapply grows_trans].
Qed.

Lemma only_logs_emit (e : Event) (s : State) :
  only_logs s (with_trace (fun t => t ++ [e]) s).
Proof. repeat split; try done. apply grows_emit. Qed.

Lemma one_destination_refl (s : State) : one_destination s s.
Proof.
  split; [apply same_config_refl |]. split; [apply grows_refl |].
  destruct (DESTINATION s); [apply same_remote_refl | apply same_local_refl].
Qed.

Lemma one_destination_trans (s1 s2 s3 : State) :
  one_destination s1 s2 -> one_destination s2 s3 -> one_destination s1 s3.
Proof.
  intros (Hc1 & Hg1 & Hd1) (Hc2 & Hg2 & Hd2).
  split; [by eapply same_config_trans |]. split; [by eapply grows_trans |].
  destruct Hc1 as (Hdest & _). rewrite Hdest in Hd2.
  destruct (DESTINATION s1); [by eapply same_remote_trans | by eapply same_local_trans].
Qed.

Lemma only_logs_one_destination (s s' : State) : only_logs s s' -> one_destination s s'.
Proof.
  intros (Hc & Hl & Hr & Hg). split; [done |]. split; [done |].
  by destruct (DESTINATION s).
Qed.




Lemma steps_drive_refl (s : State) : steps_drive s s.
Proof. split; [apply same_config_refl |]. split; [apply same_local_refl | apply grows_refl]. Qed.

Lemma steps_drive_trans (s1 s2 s3 : State) :
  steps_drive s1 s2 -> steps_drive s2 s3 -> steps_drive s1 s3.
Proof.
  intros (?&?&?) (?&?&?). split; [by eapply same_config_trans |].
  split; [by eapply same_local_trans | by eapply grows_trans].
Qed.

Lemma steps_drive_emit (e : Event) (s : State) :
  steps_drive s (with_trace (fun t => t ++ [e]) s).
Proof. repeat split; try done. apply grows_emit. Qed.

Lemma steps_local_refl (s : State) : steps_local s s.
Proof. split; [apply same_config_refl |]. split; [apply same_remote_refl | apply grows_refl]. Qed.

Lemma steps_local_trans (s1 s2 s3 : State) :
  steps_local s1 s2 -> steps_local s2 s3 -> steps_local s1 s3.
Proof.
  intros (?&?&?) (?&?&?). split; [by eapply same_config_trans |].
  split; [by eapply same_remote_trans | by eapply grows_trans].
Qed.

Lemma steps_local_emit (e : Event) (s : State) :
  steps_local s (with_trace (fun t => t ++ [e]) s).
Proof. repeat split; try done. apply grows_emit. Qed.

Lemma one_destination_emit (e : Event) (s : State) :
  one_destination s (with_trace (fun t => t ++ [e]) s).
Proof. apply only_logs_one_destination, only_logs_emit. Qed.

Create HintDb frames.

#[local] Hint Resolve steps_drive_refl steps_drive_trans steps_drive_emit
  steps_local_refl steps_local_trans steps_local_emit
  one_destination_refl one_destination_trans one_destination_emit : frames.

Lemma steps_drive_with_drive (f : list DriveFile -> list DriveFile) (s : State) :
  steps_drive s (with_drive f s).
Proof. repeat split; try done. exists []. simpl. by rewrite app_nil_r. Qed.

Lemma steps_drive_with_existing f (s : State) : steps_drive s (with_existing f s).
Proof. repeat split; try done. exists []. simpl. by rewrite app_nil_r. Qed.

Lemma steps_local_with_local_dir f (s : State) : steps_local s (with_local_dir f s).
Proof. repeat split; try done. exists []. simpl. by rewrite app_nil_r. Qed.

Lemma keeps_check_gdrive_space (w : World) (n : nat) :
  keeps steps_drive (check_gdrive_space w n).
Proof.
  unfold check_gdrive_space. intros s. unfold bind, gets. simpl.
  destruct (drive_quota w (drive s)) as [| | |limit usage]; simpl;
    try apply steps_drive_emit.
  destruct (limit - usage <? Z.of_nat n)%Z; simpl;
    [apply steps_drive_emit | apply steps_drive_refl].
Qed.

Lemma keeps_delete_all (w : World) (filename : string) (ids : list string) :
  keeps steps_drive (delete_all w filename ids).
Proof.
  induction ids as [|fid ids IH]; simpl; [intros s; apply steps_drive_refl |].
  apply keeps_bind; eauto with frames.
  apply keeps_try_except; eauto with frames.
  - unfold delete_gdrive_file. apply keeps_bind; eauto with frames.
    + intros s. apply steps_drive_emit.
    + intros _. destruct (drive_delete_ok w fid).
      * apply keeps_modify. intros s. apply steps_drive_with_drive.
      * intros s. apply steps_drive_refl.
  - intros s. apply steps_drive_emit.
Qed.

Lemma keeps_resolve_conflict (w : World) (filename : string) :
  keeps steps_drive (resolve_conflict w filename).
Proof.
  unfold resolve_conflict. intros s. unfold bind at 1. simpl. unfold bind at 1. simpl.
  destruct (default [] (GDRIVE_EXISTING s !! filename)) as [|i ids];
    [apply steps_drive_refl |].
  destruct (CONFLICT_MODE s); try apply steps_drive_refl.
  apply (keeps_bind steps_drive steps_drive_trans); [apply keeps_delete_all |].
  intros _. apply (keeps_bind steps_drive steps_drive_trans).
  - apply keeps_modify. intros s0. apply steps_drive_with_existing.
  - intros _ s0. apply steps_drive_refl.
Qed.

Lemma keeps_upload_bytes_to_gdrive (w : World) filename bts mime props :
  keeps steps_drive (upload_bytes_to_gdrive w filename bts mime props).
Proof.
  unfold upload_bytes_to_gdrive.
  apply (keeps_bind steps_drive steps_drive_trans);
    [intros s; apply steps_drive_emit |].
  intros _ s. unfold bind at 1. simpl.
  destruct (drive_upload w _ filename bts); simpl;
    [| apply steps_drive_emit | apply steps_drive_refl].
  apply steps_drive_with_drive.
Qed.

Lemma keeps_check_local_space (w : World) (n : nat) :
  keeps steps_local (check_local_space w n).
Proof.
  unfold check_local_space. intros s. unfold bind, gets. simpl.
  destruct (disk_free w (local_dir s)) as [free|]; simpl; [| apply steps_local_emit].
  destruct (free <? Z.of_nat n)%Z; simpl; [apply steps_local_emit | apply steps_local_refl].
Qed.

Lemma keeps_save_bytes_to_file (w : World) bts filename :
  keeps steps_local (save_bytes_to_file w bts filename).
Proof.
  unfold save_bytes_to_file.
  apply (keeps_bind steps_local steps_local_trans);
    [intros s; apply steps_local_emit |].
  intros _. destruct (local_write_ok w filename).
  - apply keeps_modify. intros s. apply steps_local_with_local_dir.
  - intros s. unfold bind, failed_write.
    destruct (write_left w filename bts); simpl;
      [apply steps_local_with_local_dir | apply steps_local_refl].
Qed.

Lemma keeps_write_file_metadata (w : World) filename meta :
  keeps steps_local (write_file_metadata w filename meta).
Proof.
  intros s.
  unfold write_file_metadata, embed_exif, embed_mp4, embed_stream, failed_write.
  unfold bind, ret, gets, modify, log, emit. simpl.
  repeat case_match; simplify_eq; simpl;
    (split; [by repeat split |]); (split; [by repeat split |]);
    eexists; simpl; rewrite <- ?app_assoc; reflexivity.
Qed.

Lemma steps_drive_one_destination (s s' : State) :
  DESTINATION s = DestGdrive -> steps_drive s s' -> one_destination s s'.
Proof. intros Hd (Hc & Hl & Hg). split; [done |]. split; [done |]. by rewrite Hd. Qed.

Lemma steps_local_one_destination (s s' : State) :
  DESTINATION s = DestLocal -> steps_local s s' -> one_destination s s'.
Proof. intros Hd (Hc & Hl & Hg). split; [done |]. split; [done |]. by rewrite Hd. Qed.

Lemma keeps_save_or_upload_bytes (w : World) bts filename rec ext :
  keeps one_destination (save_or_upload_bytes w bts filename rec ext).
Proof.
  intros s. unfold save_or_upload_bytes. unfold bind at 1. simpl.
  destruct (DESTINATION s) eqn:Hd.
  - apply steps_local_one_destination; [done |].
    revert s Hd. intros s _. revert s.
    apply (keeps_bind steps_local steps_local_trans); [apply keeps_check_local_space |].
    intros _. apply (keeps_bind steps_local steps_local_trans);
      [apply keeps_save_bytes_to_file |].
    intros _. apply (keeps_bind steps_local steps_local_trans).
    + apply (keeps_try_except steps_local steps_local_trans).
      * apply (keeps_bind steps_local steps_local_trans);
          [apply keeps_write_file_metadata |].
        intros _ s. apply steps_local_refl.
      * intros s. apply steps_local_refl.
    + intros _ s. apply steps_local_refl.
  - apply steps_drive_one_destination; [done |].
    revert s Hd. intros s _. revert s.
    apply (keeps_bind steps_drive steps_drive_trans);
      [intros s; apply steps_drive_refl |].
    intros ok. destruct (negb ok); [intros s; apply steps_drive_emit |].
    apply (keeps_bind steps_drive steps_drive_trans); [apply keeps_check_gdrive_space |].
    intros _. apply (keeps_bind steps_drive steps_drive_trans);
      [intros s; apply steps_drive_refl |].
    intros ok'. destruct (negb ok'); [intros s; apply steps_drive_emit |].
    apply (keeps_bind steps_drive steps_drive_trans); [apply keeps_resolve_conflict |].
    intros [info|]; [intros s; apply steps_drive_refl |].
    apply (keeps_try_except steps_drive steps_drive_trans);
      [| intros s; apply steps_drive_emit].
    apply (keeps_bind steps_drive steps_drive_trans);
      [apply keeps_upload_bytes_to_gdrive |].
    intros created. apply (keeps_bind steps_drive steps_drive_trans).
    + apply keeps_modify. intros s. apply steps_drive_with_existing.
    + intros _ s. apply steps_drive_refl.
Qed.

Lemma keeps_process_groups (w : World) z record prefix overlays mains saved count :
  keeps one_destination (process_groups w z record prefix overlays mains saved count).
Proof.
  revert saved count. induction mains as [|[base mm] mains IH]; intros saved count.
  - intros s. apply one_destination_refl.
  - simpl. destruct (read_member z mm) as [main_bytes|].
    + destruct (is_jpeg_ext _).
      * apply (keeps_bind one_destination one_destination_trans); [| intros; apply IH].
        unfold process_image.
        apply (keeps_try_except one_destination one_destination_trans).
        -- destruct (image_open w main_bytes); [| intros s; apply one_destination_refl].
           apply (keeps_bind one_destination one_destination_trans).
           ++ apply (keeps_composite_overlays one_destination one_destination_refl
                       one_destination_trans one_destination_emit).
           ++ intros img'. destruct (encode_jpeg w img');
                [apply keeps_save_or_upload_bytes | intros s; apply one_destination_refl].
        -- intros s. apply one_destination_emit.
      * destruct (String.eqb _ ".mp4").
        -- apply (keeps_bind one_destination one_destination_trans); [| intros; apply IH].
           unfold process_video.
           destruct (negb _); [intros s; apply one_destination_emit |].
           apply (keeps_bind one_destination one_destination_trans).
           ++ apply (keeps_overlay_chain one_destination one_destination_refl
                       one_destination_trans one_destination_emit).
           ++ intros. apply keeps_save_or_upload_bytes.
        -- apply (keeps_bind one_destination one_destination_trans); [| intros; apply IH].
           intros s. apply one_destination_emit.
    + apply (keeps_bind one_destination one_destination_trans); [| intros; apply IH].
      intros s. apply one_destination_emit.
Qed.

Lemma keeps_download_and_process (w : World) (record : Rec) :
  keeps one_destination (download_and_process w record).
Proof.
  unfold download_and_process.
  destruct (url_of record) as [url|]; [| intros s; apply one_destination_refl].
  apply (keeps_bind one_destination one_destination_trans);
    [intros s; apply one_destination_emit |].
  intros _. destruct (http_get w url) as [| |data ct].
  - apply (keeps_bind one_destination one_destination_trans);
      [intros s; apply one_destination_emit | intros ? s; apply one_destination_refl].
  - apply (keeps_bind one_destination one_destination_trans);
      [intros s; apply one_destination_emit | intros ? s; apply one_destination_refl].
  - destruct (detect_zip w url data _).
    + destruct (open_zip w data) as [z|].
      * apply (keeps_bind one_destination one_destination_trans);
          [| intros ? s; apply one_destination_refl].
        unfold process_archive.
        destruct (collect (namelist z) [] []) as [mains overlays].
        destruct mains as [|e mains].
        -- apply (keeps_bind one_destination one_destination_trans);
             [intros s; apply one_destination_emit | intros ? s; apply one_destination_refl].
        -- destruct (negb (pillow_installed w)); [intros s; apply one_destination_emit |].
           apply keeps_process_groups.
      * apply (keeps_bind one_destination one_destination_trans);
          [intros s; apply one_destination_emit | intros ? s; apply one_destination_refl].
    + apply (keeps_bind one_destination one_destination_trans);
        [| intros ? s; apply one_destination_refl].
      unfold process_plain.
      apply (keeps_try_except one_destination one_destination_trans).
      * apply (keeps_bind one_destination one_destination_trans);
          [apply keeps_save_or_upload_bytes | intros ? s; apply one_destination_refl].
      * apply (keeps_bind one_destination one_destination_trans);
          [intros s; apply one_destination_emit | intros ? s; apply one_destination_refl].
Qed.

Lemma keeps_main_loop (R : State -> State -> Prop) process recs all_saved :
  (forall s, R s s) -> (forall s1 s2 s3, R s1 s2 -> R s2 s3 -> R s1 s3) ->
  (forall e s, R s (with_trace (fun t => t ++ [e]) s)) ->
  (forall rec, keeps R (process rec)) ->
  keeps R (main_loop process recs all_saved).
Proof.
  intros Hr Ht He Hp. revert all_saved.
  induction recs as [|rec recs IH]; intros all_saved; [intros s; apply Hr |].
  simpl. destruct (negb (truthy (rec_url rec))); [apply IH |].
  apply (keeps_bind R Ht); [intros s; apply He |].
  intros _. apply (keeps_bind R Ht); [apply Hp | intros; apply IH].
Qed.

(** X2. Whatever a commit, the processing of a record, or the loop over
    the records does, and however it ends, it leaves the globals chosen
    at the prompt as they are, only adds to what has been done before,
    and touches the configured destination alone: with the local
    destination the Drive folder and the index stay as they are, with
    the Drive destination the local folder does (so
    no metadata is embedded for what goes to the Drive). *)
Theorem one_destination_only (w : World) (s : State) :
  (forall bts filename rec ext,
     one_destination s (final (save_or_upload_bytes w bts filename rec ext s))) /\
  (forall record, one_destination s (final (download_and_process w record s))) /\
  (forall recs all_saved,
     one_destination s (final (main_loop (download_and_process w) recs all_saved s))).
Proof.
  split; [intros; apply keeps_save_or_upload_bytes |].
  split; [intros; apply keeps_download_and_process |].
  intros. apply keeps_main_loop.
  - apply one_destination_refl.
  - apply one_destination_trans.
  - apply one_destination_emit.
  - apply keeps_download_and_process.
Qed.

(** ** Commits to the Drive and the index *)

Lemma NoDup_map_filter {A B} (f : A -> B) (p : A -> bool) (l : list A) :
  NoDup (List.map f l) -> NoDup (List.map f (List.filter p l)).
Proof.
  induction l as [|x l IH]; [done |]. simpl.
  intros [Hni Hnd]%NoDup_cons. destruct (p x); simpl; [| auto].
  apply NoDup_cons. split; [| auto].
  intros Hin%list_elem_of_In%List.in_map_iff. destruct Hin as (y & E & Hy).
  apply Hni. rewrite <- E. apply list_elem_of_In, List.in_map.
  by apply List.filter_In in Hy as [Hy _].
Qed.

Lemma ids_named_single (name : string) (f : DriveFile) :
  ids_named name [f] = if String.eqb (df_name f) name then [df_id f] else [].
Proof. unfold ids_named. simpl. by destruct (String.eqb (df_name f) name). Qed.

(** X3. A commit to the Drive that returns keeps the index in step with
    the folder: when, before the call, the index holds for every name
    the ids of the objects carrying it and no two objects share an id,
    it does so after the call; and when the Drive hands out an id that
    is not in use, no two objects share an id afterwards either. *)
Theorem commit_keeps_index_in_step (w : World) bts filename rec ext info (s s' : State) :
  DESTINATION s = DestGdrive ->
  index_mirrors (GDRIVE_EXISTING s) (drive s) ->
  NoDup (List.map df_id (drive s)) ->
  save_or_upload_bytes w bts filename rec ext s = Ret info s' ->
  index_mirrors (GDRIVE_EXISTING s') (drive s') /\
  (upload_ids_fresh w filename bts (drive s) -> NoDup (List.map df_id (drive s'))).
Proof.
  intros Hd Hmir Hnd Hret.
  destruct (commit_gdrive_Ret _ _ _ _ _ _ _ _ Hd Hret)
    as [(_ & _ & _ & ->)|(id & link & _ & Hcase & Hup & Hdr & Hidx & _)]; [done |].
  set (ids := default [] (GDRIVE_EXISTING s !! filename)) in *.
  assert (Hids : ids = ids_named filename (drive s)) by apply Hmir.
  split.
  - intros name. rewrite Hidx, Hdr, ids_named_app, ids_named_single. simpl.
    destruct (String.eqb_spec filename name) as [<-|Hne].
    + rewrite lookup_insert_eq. simpl. f_equal.
      destruct (CONFLICT_MODE s); simpl; rewrite ?without_ids_nil; try done.
      unfold without_ids. rewrite Hids, ids_named_after_delete by done.
      by rewrite String.eqb_refl.
    + rewrite lookup_insert_ne by done. rewrite app_nil_r, Hmir.
      destruct (CONFLICT_MODE s); simpl; rewrite ?without_ids_nil; try done.
      unfold without_ids. rewrite Hids, ids_named_after_delete by done.
      by destruct (String.eqb_spec name filename) as [->|].
  - intros Hfresh. rewrite Hdr, List.map_app. simpl. apply NoDup_app.
    split; [by apply NoDup_map_filter |]. split; [| apply NoDup_singleton].
    intros x Hx ->%list_elem_of_singleton.
    apply (Hfresh _ _ _ Hup); [apply List.incl_filter | by apply list_elem_of_In].
Qed.

Lemma drive_with_old_mirrors (mode : ConflictMode) :
  index_mirrors (GDRIVE_EXISTING (Sample2.drive_with_old mode))
    (drive (Sample2.drive_with_old mode)).
Proof.
  intros name. unfold Sample2.drive_with_old, Sample.on_drive.
  cbn [GDRIVE_EXISTING drive]. rewrite ids_named_single.
  change (df_name Sample2.old_object) with "P.jpg".
  destruct (String.eqb_spec "P.jpg" name) as [<-|Hne].
  - rewrite lookup_singleton_eq. reflexivity.
  - rewrite lookup_singleton_ne by done. reflexivity.
Qed.

Lemma sample_upload_ids_fresh (filename : string) (bts : bytes) :
  upload_ids_fresh Sample2.working filename bts [Sample2.old_object].
Proof.
  intros files id link [= <- _] Hincl Hin.
  apply List.in_map_iff in Hin as (f & E & Hf).
  apply Hincl in Hf as [<-|[]]. discriminate E.
Qed.

Lemma commit_keeps_index_in_step_witness :
  let s := Sample2.drive_with_old ModeOverwrite in
  let s' := final (save_or_upload_bytes Sample2.working (Sample.data "new") "P.jpg"
                     Sample2.picture ".jpg" s) in
  index_mirrors (GDRIVE_EXISTING s') (drive s') /\ NoDup (List.map df_id (drive s')).
Proof.
  intros s s'.
  destruct (commit_keeps_index_in_step Sample2.working (Sample.data "new") "P.jpg"
              Sample2.picture ".jpg" (InfoUploaded "id-0" None) s s') as [H1 H2].
  - reflexivity.
  - apply drive_with_old_mirrors.
  - apply NoDup_singleton.
  - vm_compute. reflexivity.
  - split; [exact H1 |]. apply H2. apply sample_upload_ids_fresh.
Defined.

Lemma gdrive_guard_None (w : World) (n : nat) (s : State) :
  gdrive_guard w n s = None <->
  gdrive_configured s = true /\
  exists limit usage,
    drive_quota w (drive s) = Quota limit usage /\ (Z.of_nat n <= limit - usage)%Z.
Proof.
  unfold gdrive_guard. destruct (gdrive_configured s); simpl.
  - destruct (drive_quota w (drive s)) as [| | |limit usage].
    1-3: split; [done | by intros (_ & l & u & [=] & _)].
    destruct (Z.ltb_spec (limit - usage) (Z.of_nat n)); split; try done.
    + intros (_ & l & u & [= <- <-] & Hle). lia.
    + intros _. split; [done |]. exists limit, usage. split; [done | lia].
  - split; [done | by intros [[=] _]].
Qed.

(** X4. Within a run a name is uploaded once under mode [skip]: after a
    commit has uploaded a name, the next commit of that name, whatever
    its bytes, returns the skip outcome with the id of the first upload
    and changes nothing, provided the quota guard lets it through. *)
Theorem uploaded_name_is_skipped_next (w : World) bts bts' filename rec rec' ext ext'
    id link (s s1 : State) :
  DESTINATION s = DestGdrive -> CONFLICT_MODE s = ModeSkip ->
  save_or_upload_bytes w bts filename rec ext s = Ret (InfoUploaded id link) s1 ->
  (exists limit usage,
     drive_quota w (drive s1) = Quota limit usage /\
     (Z.of_nat (List.length bts') <= limit - usage)%Z) ->
  GDRIVE_EXISTING s1 !! filename = Some [id] /\
  save_or_upload_bytes w bts' filename rec' ext' s1 = Ret (InfoSkipped [id]) s1.
Proof.
  intros Hd Hm Hret Hq.
  assert (Hconf : gdrive_configured s = true).
  { rewrite save_or_upload_bytes_gdrive in Hret by done.
    destruct (gdrive_guard w (List.length bts) s) eqn:Hg; [done |].
    by apply gdrive_guard_None in Hg as [? _]. }
  destruct (commit_gdrive_Ret _ _ _ _ _ _ _ _ Hd Hret)
    as [([=] & _)|(id' & link' & [= <- <-] & Hcase & _ & _ & Hidx & _ & Hc & _)].
  destruct Hcase as [Hnil|Hne]; [| done].
  rewrite Hm, Hnil in Hidx. simpl in Hidx.
  assert (Hl : GDRIVE_EXISTING s1 !! filename = Some [id])
    by (rewrite Hidx; apply lookup_insert_eq).
  split; [done |].
  destruct Hc as (Hd1 & Hs1 & Hf1 & Hm1).
  rewrite save_or_upload_bytes_gdrive by congruence.
  assert (Hg : gdrive_guard w (List.length bts') s1 = None).
  { apply gdrive_guard_None. split; [| done].
    unfold gdrive_configured in *. by rewrite Hs1, Hf1. }
  rewrite Hg. unfold bind.
  rewrite (resolve_conflict_skip w filename [id] s1); [done | congruence | done | done].
Qed.

Lemma uploaded_name_is_skipped_next_witness :
  let w := Sample2.working in
  let s := Sample.on_drive ModeSkip ∅ [] in
  let s1 := final (save_or_upload_bytes w (Sample.data "new") "P.jpg" Sample2.picture
                     ".jpg" s) in
  GDRIVE_EXISTING s1 !! "P.jpg" = Some ["id-0"] /\
  save_or_upload_bytes w (Sample.data "newer") "P.jpg" Sample2.picture ".jpg" s1
    = Ret (InfoSkipped ["id-0"]) s1.
Proof.
  intros w s s1.
  apply (uploaded_name_is_skipped_next w (Sample.data "new") (Sample.data "newer") "P.jpg"
           Sample2.picture Sample2.picture ".jpg" ".jpg" "id-0" None s s1).
  - reflexivity.
  - reflexivity.
  - vm_compute. reflexivity.
  - exists 1000000%Z, 0%Z. split; [reflexivity |]. vm_compute. discriminate.
Defined.

(** X5. Outside mode [skip] on a known name, a commit to the Drive that
    returns has uploaded; under mode [new], or for a name the index does
    not hold, it has deleted nothing: the folder gains one object, the
    objects already there stay, and the index entry of the name gains
    the new id at its end.  Mode [new] is no protection at commit
    time. *)
Theorem commit_without_conflict_handling (w : World) bts filename rec ext info
    (s s' : State) :
  DESTINATION s = DestGdrive ->
  CONFLICT_MODE s = ModeNew \/ GDRIVE_EXISTING s !! filename = None ->
  save_or_upload_bytes w bts filename rec ext s = Ret info s' ->
  exists id link,
    info = InfoUploaded id link /\
    drive s' = drive s ++
                 [{| df_id := id; df_name := filename; df_content := bts;
                     df_mime := mime_of ext; df_props := meta_of w rec |}] /\
    GDRIVE_EXISTING s' !! filename =
      Some (default [] (GDRIVE_EXISTING s !! filename) ++ [id]) /\
    trace s' = trace s ++ [EvUpload filename bts].
Proof.
  intros Hd Hcase Hret.
  destruct (commit_gdrive_Ret _ _ _ _ _ _ _ _ Hd Hret)
    as [(_ & Hne & Hm & _)|(id & link & -> & _ & _ & Hdr & Hidx & Htr & _)].
  - destruct Hcase as [Hn|Hn]; [congruence | by rewrite Hn in Hne].
  - exists id, link. split; [done |].
    assert (Hdel : deleted_ids (CONFLICT_MODE s)
                     (default [] (GDRIVE_EXISTING s !! filename)) = []).
    { destruct Hcase as [-> | ->]; [done |]. simpl. by destruct (CONFLICT_MODE s). }
    assert (Hkept : kept_ids (CONFLICT_MODE s)
                      (default [] (GDRIVE_EXISTING s !! filename)) =
                    default [] (GDRIVE_EXISTING s !! filename)).
    { destruct Hcase as [-> | ->]; [done |]. simpl. by destruct (CONFLICT_MODE s). }
    rewrite Hdel, without_ids_nil in Hdr. rewrite Hdel in Htr. rewrite Hkept in Hidx.
    split; [done |]. split; [| done]. rewrite Hidx. apply lookup_insert_eq.
Qed.

Lemma commit_without_conflict_handling_witness :
  let s := Sample2.drive_with_old ModeNew in
  exists id link s',
    save_or_upload_bytes Sample2.working (Sample.data "new") "P.jpg" Sample2.picture
      ".jpg" s = Ret (InfoUploaded id link) s' /\
    List.map df_id (drive s') = ["old-1"; id] /\
    GDRIVE_EXISTING s' !! "P.jpg" = Some ["old-1"; id].
Proof.
  intros s.
  destruct (commit_without_conflict_handling Sample2.working (Sample.data "new") "P.jpg"
              Sample2.picture ".jpg" (InfoUploaded "id-1" None) s
              (final (save_or_upload_bytes Sample2.working (Sample.data "new") "P.jpg"
                        Sample2.picture ".jpg" s)))
    as (id & link & [= <- <-] & Hdr & Hidx & _).
  - reflexivity.
  - by left.
  - vm_compute. reflexivity.
  - exists "id-1", None,
      (final (save_or_upload_bytes Sample2.working (Sample.data "new") "P.jpg"
                Sample2.picture ".jpg" s)).
    split; [vm_compute; reflexivity |].
    split; [by rewrite Hdr | exact Hidx].
Defined.

Lemma files_after_delete (name other : string) (files : list DriveFile) :
  NoDup (List.map df_id files) ->
  List.filter (fun f => String.eqb (df_name f) other)
    (without_ids (ids_named name files) files) =
  if String.eqb other name then []
  else List.filter (fun f => String.eqb (df_name f) other) files.
Proof.
  intros Hnd. unfold without_ids. rewrite filter_twice.
  destruct (String.eqb_spec other name) as [->|Hne].
  - apply filter_none. intros f Hf.
    destruct (String.eqb_spec (df_name f) name) as [E|E]; [| apply andb_false_r].
    rewrite bool_decide_eq_true_2; [done |].
    apply list_elem_of_In, in_ids_named. by exists f.
  - apply List.filter_ext_in. intros f Hf.
    destruct (String.eqb_spec (df_name f) other) as [E|E]; [| apply andb_false_r].
    rewrite bool_decide_eq_false_2; [done |].
    intros Hin%list_elem_of_In%in_ids_named. destruct Hin as (g & Hg & Hn & Hid).
    assert (g = f) by (by eapply NoDup_ids_inj). congruence.
Qed.

(** X6. Mode [overwrite] with the index in step with the folder and no
    shared ids: a commit that returns has first deleted every object of
    the name, then uploaded; afterwards exactly one object carries the
    name, with the new bytes, and the objects of every other name are
    the ones that were there before. *)
Theorem overwrite_replaces_known_objects (w : World) bts filename rec ext info
    (s s' : State) :
  DESTINATION s = DestGdrive -> CONFLICT_MODE s = ModeOverwrite ->
  index_mirrors (GDRIVE_EXISTING s) (drive s) ->
  NoDup (List.map df_id (drive s)) ->
  save_or_upload_bytes w bts filename rec ext s = Ret info s' ->
  exists id link,
    info = InfoUploaded id link /\
    List.filter (fun f => String.eqb (df_name f) filename) (drive s') =
      [{| df_id := id; df_name := filename; df_content := bts;
          df_mime := mime_of ext; df_props := meta_of w rec |}] /\
    (forall other, other <> filename ->
       List.filter (fun f => String.eqb (df_name f) other) (drive s') =
       List.filter (fun f => String.eqb (df_name f) other) (drive s)) /\
    trace s' = trace s ++ List.map EvDelete (ids_named filename (drive s)) ++
                 [EvUpload filename bts].
Proof.
  intros Hd Hm Hmir Hnd Hret.
  destruct (commit_gdrive_Ret _ _ _ _ _ _ _ _ Hd Hret)
    as [(_ & _ & Hskip & _)|(id & link & -> & _ & _ & Hdr & _ & Htr & _)];
    [congruence |].
  rewrite Hm in Hdr, Htr. simpl in Hdr, Htr. rewrite (Hmir filename) in Hdr, Htr.
  exists id, link. split; [done |]. split; [| split; [| done]].
  - rewrite Hdr, List.filter_app, files_after_delete by done.
    rewrite String.eqb_refl. simpl. by rewrite String.eqb_refl.
  - intros other Hne. rewrite Hdr, List.filter_app, files_after_delete by done.
    simpl. destruct (String.eqb_spec other filename); [done |].
    destruct (String.eqb_spec filename other); [congruence |]. apply app_nil_r.
Qed.

Lemma overwrite_replaces_known_objects_witness :
  let s := Sample2.drive_with_old ModeOverwrite in
  let s' := final (save_or_upload_bytes Sample2.working (Sample.data "new") "P.jpg"
                     Sample2.picture ".jpg" s) in
  exists id,
    List.filter (fun f => String.eqb (df_name f) "P.jpg") (drive s') =
      [{| df_id := id; df_name := "P.jpg"; df_content := Sample.data "new";
          df_mime := mime_of ".jpg"; df_props := meta_of Sample2.working Sample2.picture |}] /\
    trace s' = [EvDelete "old-1"; EvUpload "P.jpg" (Sample.data "new")].
Proof.
  intros s s'.
  destruct (overwrite_replaces_known_objects Sample2.working (Sample.data "new") "P.jpg"
              Sample2.picture ".jpg" (InfoUploaded "id-0" None) s s')
    as (id & link & [= <- <-] & Hone & _ & Htr).
  - reflexivity.
  - reflexivity.
  - apply drive_with_old_mirrors.
  - apply NoDup_singleton.
  - vm_compute. reflexivity.
  - exists "id-0". split; [exact Hone | exact Htr].
Defined.

(** X7. Mode [overwrite], guard passed: the ids the index holds for the
    name are deleted in order, and the first delete that fails ends the
    run: the ids after it are not tried, nothing is uploaded, and the
    index still lists the ids that were deleted. *)
Theorem overwrite_stops_at_failed_delete (w : World) bts filename rec ext
    (pre post : list string) (fid : string) (s : State) :
  DESTINATION s = DestGdrive -> CONFLICT_MODE s = ModeOverwrite ->
  gdrive_configured s = true ->
  (exists limit usage,
     drive_quota w (drive s) = Quota limit usage /\
     (Z.of_nat (List.length bts) <= limit - usage)%Z) ->
  GDRIVE_EXISTING s !! filename = Some (pre ++ fid :: post) ->
  Forall (fun i => drive_delete_ok w i = true) pre ->
  drive_delete_ok w fid = false ->
  exists s',
    save_or_upload_bytes w bts filename rec ext s = Exit s' /\
    trace s' = trace s ++ List.map EvDelete pre ++
                 [EvDelete fid; EvLog (DDeleteFailed fid filename)] /\
    GDRIVE_EXISTING s' = GDRIVE_EXISTING s.
Proof.
  intros Hd Hm Hc Hq He Hpre Hf.
  rewrite save_or_upload_bytes_gdrive by done.
  assert (Hg : gdrive_guard w (List.length bts) s = None)
    by (by apply gdrive_guard_None).
  rewrite Hg. unfold bind at 1. unfold resolve_conflict.
  unfold bind at 1. simpl. unfold bind at 1. simpl. rewrite He, Hm. simpl.
  destruct (pre ++ fid :: post) as [|i ids] eqn:Hids; [by destruct pre |].
  rewrite <- Hids. unfold bind at 1.
  destruct (delete_all_Exit w filename pre post fid s Hpre Hf) as (s' & Hdel & Htr).
  pose proof (delete_all_frame w filename (pre ++ fid :: post) s) as (_ & _ & Hidx).
  rewrite Hdel in Hidx |- *. simpl in Hidx. by exists s'.
Qed.

Lemma overwrite_stops_at_failed_delete_witness :
  let w := without_deletes Sample2.working in
  let s := Sample2.drive_with_old ModeOverwrite in
  exists s',
    save_or_upload_bytes w (Sample.data "new") "P.jpg" Sample2.picture ".jpg" s = Exit s' /\
    trace s' = trace s ++ List.map EvDelete [] ++
                 [EvDelete "old-1"; EvLog (DDeleteFailed "old-1" "P.jpg")] /\
    GDRIVE_EXISTING s' = GDRIVE_EXISTING s.
Proof.
  intros w s.
  apply (overwrite_stops_at_failed_delete w (Sample.data "new") "P.jpg" Sample2.picture
           ".jpg" [] [] "old-1" s).
  - reflexivity.
  - reflexivity.
  - reflexivity.
  - exists 1000000%Z, 0%Z. split; [reflexivity |]. vm_compute. discriminate.
  - vm_compute. reflexivity.
  - constructor.
  - reflexivity.
Defined.

(** ** The capacity guard *)

Lemma bind_starts {A B} (m : M A) (k : A -> M B) (e : Event) (s : State) :
  starts_with e s (final (m s)) -> (forall a, keeps grows (k a)) ->
  starts_with e s (final (bind m k s)).
Proof.
  intros [rest Hm] Hk. unfold bind.
  destruct (m s) as [a s1|s1|s1]; simpl in *; [| by exists rest | by exists rest].
  destruct (Hk a s1) as [t Ht]. exists (rest ++ t).
  by rewrite Ht, Hm, <- app_assoc.
Qed.

Lemma try_except_starts {A} (m h : M A) (e : Event) (s : State) :
  starts_with e s (final (m s)) -> keeps grows h ->
  starts_with e s (final (try_except m h s)).
Proof.
  intros [rest Hm] Hh. unfold try_except.
  destruct (m s) as [a s1|s1|s1]; simpl in *; [by exists rest | by exists rest |].
  destruct (Hh s1) as [t Ht]. exists (rest ++ t).
  by rewrite Ht, Hm, <- app_assoc.
Qed.

Lemma emit_starts {A} (e : Event) (k : M A) (s : State) :
  keeps grows k -> starts_with e s (final ((emit e ;; k) s)).
Proof.
  intros Hk. unfold bind, emit, modify.
  destruct (Hk (with_trace (fun t => t ++ [e]) s)) as [t Ht]. exists t.
  rewrite Ht. simpl. by rewrite <- app_assoc.
Qed.

Lemma keeps_grows_drive {A} (m : M A) : keeps steps_drive m -> keeps grows m.
Proof. intros H s. by destruct (H s) as (_ & _ & Hg). Qed.

Lemma keeps_grows_local {A} (m : M A) : keeps steps_local m -> keeps grows m.
Proof. intros H s. by destruct (H s) as (_ & _ & Hg). Qed.

Lemma keeps_grows_ret {A} (a : A) : keeps grows (ret a).
Proof. intros s. apply grows_refl. Qed.

Lemma keeps_grows_fatal {A} (d : Diag) : keeps grows (@fatal A d).
Proof. intros s. apply grows_emit. Qed.

(** Past the guard the local commit begins with the write. *)
Lemma local_commit_starts (w : World) bts filename rec (s : State) :
  starts_with (EvLocalWrite filename bts) s
    (final ((save_bytes_to_file w bts filename ;;
             try_except (write_file_metadata w filename (meta_of w rec) ;; ret tt) (ret tt) ;;
             ret (InfoPath (snapchat_dir +:+ "/" +:+ filename))) s)).
Proof.
  apply bind_starts.
  - unfold save_bytes_to_file. apply emit_starts.
    destruct (local_write_ok w filename).
    + intros s0. apply steps_local_with_local_dir.
    + intros s0. unfold bind, failed_write.
      destruct (write_left w filename bts); simpl;
        [apply steps_local_with_local_dir | apply grows_refl].
  - intros _. apply (keeps_bind grows grows_trans); [| intros; apply keeps_grows_ret].
    apply (keeps_try_except grows grows_trans); [| apply keeps_grows_ret].
    apply (keeps_bind grows grows_trans); [| intros; apply keeps_grows_ret].
    apply keeps_grows_local, keeps_write_file_metadata.
Qed.

(** Past the conflict handling the Drive commit begins with the
    upload. *)
Lemma upload_starts (w : World) bts filename mime props (s : State) :
  starts_with (EvUpload filename bts) s
    (final (try_except
              (created <~ upload_bytes_to_gdrive w filename bts mime props ;;
               modify (with_existing (fun m =>
                 <[filename := default [] (m !! filename) ++ [created.1]]> m)) ;;
               ret (InfoUploaded created.1 created.2))
              (fatal (DUploadFailed filename)) s)).
Proof.
  apply try_except_starts; [| apply keeps_grows_fatal].
  apply bind_starts.
  - unfold upload_bytes_to_gdrive. apply emit_starts.
    intros s0. unfold bind, gets. simpl.
    destruct (drive_upload w (drive s0) filename bts); simpl;
      [| apply grows_emit | apply grows_refl].
    unfold bind, modify. simpl. exists []. simpl. by rewrite app_nil_r.
  - intros created. apply (keeps_bind grows grows_trans); [| intros; apply keeps_grows_ret].
    apply keeps_modify. intros s0. exists []. simpl. by rewrite app_nil_r.
Qed.

(** In mode [overwrite] the handling of a known name begins with the
    deletion of the first id. *)
Lemma overwrite_starts (w : World) filename (i : string) (ids : list string) (s : State) :
  starts_with (EvDelete i) s (final (delete_all w filename (i :: ids) s)).
Proof.
  cbn [delete_all]. apply bind_starts;
    [| intros; apply keeps_grows_drive, keeps_delete_all].
  apply try_except_starts; [| apply keeps_grows_fatal].
  unfold delete_gdrive_file. apply emit_starts.
  destruct (drive_delete_ok w i); [| intros s0; apply grows_refl].
  apply keeps_modify. intros s0. exists []. simpl. by rewrite app_nil_r.
Qed.

(** X8. The capacity guard comes first, for both destinations and also
    for a commit that would be skipped.  A commit that returns has found
    room for its bytes (local: free space known and large enough; Drive:
    client configured, limit known, limit minus usage large enough).  A
    commit that finds no room, or cannot tell (free space unknown; Drive
    not configured, quota query failed, no limit reported, limit not
    readable), ends the run having done nothing but print its one
    message.  With room found the guard prints nothing and the commit
    proceeds: locally the write is the next thing done; on the Drive the
    known name is skipped in mode [skip], its first object is deleted in
    mode [overwrite], and otherwise the upload is the next thing
    done. *)
Theorem capacity_guard_first (w : World) bts filename rec ext (s : State) :
  let o := save_or_upload_bytes w bts filename rec ext s in
  (forall info s',
     o = Ret info s' ->
     match DESTINATION s with
     | DestLocal =>
         exists free, disk_free w (local_dir s) = Some free /\
                      (Z.of_nat (List.length bts) <= free)%Z
     | DestGdrive =>
         gdrive_configured s = true /\
         exists limit usage,
           drive_quota w (drive s) = Quota limit usage /\
           (Z.of_nat (List.length bts) <= limit - usage)%Z
     end) /\
  (DESTINATION s = DestLocal ->
   (disk_free w (local_dir s) = None -> o = Exit (log_of s DDiskUnknown)) /\
   (forall free,
      disk_free w (local_dir s) = Some free ->
      (free < Z.of_nat (List.length bts))%Z ->
      o = Exit (log_of s DDiskInsufficient)) /\
   (forall free,
      disk_free w (local_dir s) = Some free ->
      (Z.of_nat (List.length bts) <= free)%Z ->
      starts_with (EvLocalWrite filename bts) s (final o))) /\
  (DESTINATION s = DestGdrive ->
   (gdrive_configured s = false -> o = Exit (log_of s DGdriveNotConfigured)) /\
   (gdrive_configured s = true ->
    (drive_quota w (drive s) = QuotaQueryFailed ->
     o = Exit (log_of s DQuotaQueryFailed)) /\
    (drive_quota w (drive s) = QuotaNoLimit ->
     o = Exit (log_of s DQuotaNoLimit)) /\
    (drive_quota w (drive s) = QuotaUnparsable ->
     o = Exit (log_of s DQuotaUnparsable)) /\
    (forall limit usage,
       drive_quota w (drive s) = Quota limit usage ->
       (limit - usage < Z.of_nat (List.length bts))%Z ->
       o = Exit (log_of s DQuotaInsufficient)) /\
    (forall limit usage,
       drive_quota w (drive s) = Quota limit usage ->
       (Z.of_nat (List.length bts) <= limit - usage)%Z ->
       match default [] (GDRIVE_EXISTING s !! filename), CONFLICT_MODE s with
       | i :: ids, ModeSkip => o = Ret (InfoSkipped (i :: ids)) s
       | i :: ids, ModeOverwrite => starts_with (EvDelete i) s (final o)
       | _, _ => starts_with (EvUpload filename bts) s (final o)
       end))).
Proof.
  intros o. subst o.
  assert (Hlocal : DESTINATION s = DestLocal ->
    save_or_upload_bytes w bts filename rec ext s =
      match disk_free w (local_dir s) with
      | None => Exit (log_of s DDiskUnknown)
      | Some free =>
          if (free <? Z.of_nat (List.length bts))%Z then Exit (log_of s DDiskInsufficient)
          else bind (save_bytes_to_file w bts filename) (fun _ =>
                 bind (try_except (bind (write_file_metadata w filename (meta_of w rec))
                                     (fun _ => ret tt)) (ret tt))
                   (fun _ => ret (InfoPath (snapchat_dir +:+ "/" +:+ filename)))) s
      end).
  { intros Hd. unfold save_or_upload_bytes. unfold bind at 1. simpl. rewrite Hd.
    unfold bind at 1. unfold check_local_space. unfold bind at 1. simpl.
    destruct (disk_free w (local_dir s)) as [free|]; [| done].
    by destruct (free <? Z.of_nat (List.length bts))%Z. }
  split; [| split].
  - intros info s' Hret. destruct (DESTINATION s) eqn:Hd.
    + rewrite Hlocal in Hret by done.
      destruct (disk_free w (local_dir s)) as [free|]; [| done].
      destruct (Z.ltb_spec free (Z.of_nat (List.length bts))); [done |].
      exists free. split; [done | lia].
    + rewrite save_or_upload_bytes_gdrive in Hret by done.
      destruct (gdrive_guard w (List.length bts) s) eqn:Hg; [done |].
      by apply gdrive_guard_None.
  - intros Hd. split; [| split].
    + intros Hf. by rewrite Hlocal, Hf.
    + intros free Hf Hlt. rewrite Hlocal, Hf by done.
      destruct (Z.ltb_spec free (Z.of_nat (List.length bts))); [done | lia].
    + intros free Hf Hle. rewrite Hlocal, Hf by done.
      destruct (Z.ltb_spec free (Z.of_nat (List.length bts))); [lia |].
      apply local_commit_starts.
  - intros Hd. rewrite save_or_upload_bytes_gdrive by done. unfold gdrive_guard.
    split; [by intros -> |]. intros ->. cbn [negb].
    split; [by intros -> |]. split; [by intros -> |]. split; [by intros -> |].
    split.
    + intros limit usage -> Hlt.
      destruct (Z.ltb_spec (limit - usage) (Z.of_nat (List.length bts))); [done | lia].
    + intros limit usage -> Hle.
      destruct (Z.ltb_spec (limit - usage) (Z.of_nat (List.length bts))); [lia |].
      destruct (default [] (GDRIVE_EXISTING s !! filename)) as [|i ids] eqn:HE;
        destruct (CONFLICT_MODE s) eqn:Hm;
        unfold bind at 1; unfold resolve_conflict;
        unfold bind at 1; simpl; unfold bind at 1; simpl; rewrite HE, ?Hm;
        try apply upload_starts; [done |].
      change (starts_with (EvDelete i) s
                (final (bind (bind (delete_all w filename (i :: ids))
                                (fun _ => bind (modify (with_existing (delete filename)))
                                            (fun _ => ret None)))
                          (fun early : option Info =>
                             match early with
                             | Some info => ret info
                             | None =>
                                 try_except
                                   (created <~ upload_bytes_to_gdrive w filename bts
                                                 (mime_of ext) (meta_of w rec) ;;
                                    modify (with_existing (fun m =>
                                      <[filename := default [] (m !! filename) ++
                                                    [created.1]]> m)) ;;
                                    ret (InfoUploaded created.1 created.2))
                                   (fatal (DUploadFailed filename))
                             end) s))).
      apply bind_starts.
      * apply bind_starts; [apply overwrite_starts |].
        intros _. apply (keeps_bind grows grows_trans); [| intros; apply keeps_grows_ret].
        apply keeps_modify. intros s0. exists []. simpl. by rewrite app_nil_r.
      * intros [info|]; [apply keeps_grows_ret |].
        intros s0. destruct (upload_starts w bts filename (mime_of ext) (meta_of w rec) s0)
          as [rest Hr]. by eexists.
Qed.

Lemma capacity_guard_first_witness :
  let bts := Sample.data "new" in
  let r := Sample2.picture in
  (exists free, disk_free Sample2.working (local_dir Sample.fresh) = Some free /\
                (Z.of_nat (List.length bts) <= free)%Z) /\
  save_or_upload_bytes (with_room None QuotaNoLimit Sample2.working) bts "P.jpg" r ".jpg"
    Sample.fresh = Exit (log_of Sample.fresh DDiskUnknown) /\
  save_or_upload_bytes (with_room (Some 2%Z) QuotaNoLimit Sample2.working) bts "P.jpg" r
    ".jpg" Sample.fresh = Exit (log_of Sample.fresh DDiskInsufficient) /\
  save_or_upload_bytes (with_room None QuotaQueryFailed Sample2.working) bts "P.jpg" r ".jpg"
    (Sample2.drive_with_old ModeSkip)
    = Exit (log_of (Sample2.drive_with_old ModeSkip) DQuotaQueryFailed) /\
  save_or_upload_bytes (with_room None QuotaUnparsable Sample2.working) bts "P.jpg" r ".jpg"
    (Sample2.drive_with_old ModeSkip)
    = Exit (log_of (Sample2.drive_with_old ModeSkip) DQuotaUnparsable) /\
  save_or_upload_bytes (with_room None (Quota 10 8) Sample2.working) bts "P.jpg" r ".jpg"
    (Sample2.drive_with_old ModeSkip)
    = Exit (log_of (Sample2.drive_with_old ModeSkip) DQuotaInsufficient) /\
  starts_with (EvDelete "old-1") (Sample2.drive_with_old ModeOverwrite)
    (final (save_or_upload_bytes (with_room None (Quota 10 2) Sample2.working) bts "P.jpg" r
              ".jpg" (Sample2.drive_with_old ModeOverwrite))).
Proof.
  intros bts r. split; [| split; [| split; [| split; [| split; [| split]]]]].
  - pose proof (capacity_guard_first Sample2.working bts "P.jpg" r ".jpg" Sample.fresh)
      as (H & _).
    apply (H (InfoPath "snapchat_memories/P.jpg")
             (final (save_or_upload_bytes Sample2.working bts "P.jpg" r ".jpg" Sample.fresh))).
    vm_compute. reflexivity.
  - pose proof (capacity_guard_first (with_room None QuotaNoLimit Sample2.working) bts
                  "P.jpg" r ".jpg" Sample.fresh) as (_ & H & _).
    apply H; reflexivity.
  - pose proof (capacity_guard_first (with_room (Some 2%Z) QuotaNoLimit Sample2.working) bts
                  "P.jpg" r ".jpg" Sample.fresh) as (_ & H & _).
    apply (proj1 (proj2 (H eq_refl)) 2%Z); [reflexivity | vm_compute; reflexivity].
  - pose proof (capacity_guard_first (with_room None QuotaQueryFailed Sample2.working) bts
                  "P.jpg" r ".jpg" (Sample2.drive_with_old ModeSkip)) as (_ & _ & H).
    destruct (proj2 (H eq_refl) eq_refl) as (Hq & _). apply Hq. reflexivity.
  - pose proof (capacity_guard_first (with_room None QuotaUnparsable Sample2.working) bts
                  "P.jpg" r ".jpg" (Sample2.drive_with_old ModeSkip)) as (_ & _ & H).
    destruct (proj2 (H eq_refl) eq_refl) as (_ & _ & Hq & _). apply Hq. reflexivity.
  - pose proof (capacity_guard_first (with_room None (Quota 10 8) Sample2.working) bts
                  "P.jpg" r ".jpg" (Sample2.drive_with_old ModeSkip)) as (_ & _ & H).
    destruct (proj2 (H eq_refl) eq_refl) as (_ & _ & _ & Hq & _).
    apply (Hq 10%Z 8%Z); [reflexivity | vm_compute; reflexivity].
  - pose proof (capacity_guard_first (with_room None (Quota 10 2) Sample2.working) bts
                  "P.jpg" r ".jpg" (Sample2.drive_with_old ModeOverwrite)) as (_ & _ & H).
    destruct (proj2 (H eq_refl) eq_refl) as (_ & _ & _ & _ & Hq).
    apply (Hq 10%Z 2%Z); [reflexivity | vm_compute; discriminate].
Defined.

(** ** The loop over the records, continued *)

Lemma no_payload_None (w : World) (record : Rec) (url : string) (s : State) :
  url_of record = Some url -> no_payload w url ->
  exists d,
    download_and_process w record s =
      Ret None (log_of (with_trace (fun t => t ++ [EvDownload url]) s) d) /\
    download_and_process_local w record s =
      Ret None (log_of (with_trace (fun t => t ++ [EvDownload url]) s) d).
Proof.
  intros Hu Hn. unfold download_and_process, download_and_process_local.
  rewrite Hu. unfold bind at 1 3. simpl.
  destruct Hn as [->|[->|(data & ct & -> & Hz & Ho)]].
  - by exists (DHttpError url).
  - by exists (DDownloadError url).
  - rewrite Hz, Ho. by exists (DZipOpenFailed url).
Qed.

(** X9. A payload that cannot be had is the business of its record
    alone, in both scripts: one message is printed, nothing is written,
    uploaded or deleted, the record yields [None], the report maps the
    link to [None], and the loop goes on with the next record. *)
Theorem failed_download_is_not_fatal (w : World) (record : Rec) (url : string)
    (rest : list Rec) (all_saved : Report) (s : State) :
  rec_url record = Some url -> url <> "" -> no_payload w url ->
  exists d,
    let s1 := log_of (with_trace (fun t => t ++ [EvDownload url])
                        (log_of s (DProcessing url))) d in
    main_loop (download_and_process w) (record :: rest) all_saved s =
      main_loop (download_and_process w) rest (<[url := None]> all_saved) s1 /\
    main_loop (download_and_process_local w) (record :: rest) all_saved s =
      main_loop (download_and_process_local w) rest (<[url := None]> all_saved) s1 /\
    local_dir s1 = local_dir s /\ drive s1 = drive s /\
    List.filter is_commit (trace s1) = List.filter is_commit (trace s).
Proof.
  intros Hu Hne Hn.
  assert (Hu' : url_of record = Some url).
  { unfold url_of. rewrite Hu. by destruct (String.eqb_spec url ""). }
  destruct (no_payload_None w record url (log_of s (DProcessing url)) Hu' Hn)
    as (d & H1 & H2).
  exists d. cbv zeta. rewrite !main_loop_cons, Hu. simpl.
  destruct (String.eqb_spec url ""); [done |]. simpl.
  unfold bind at 1 3. simpl. unfold bind at 1 2.
  unfold log_of in H1, H2. rewrite H1, H2.
  split; [done |]. split; [done |]. split; [done |]. split; [done |].
  simpl. rewrite !List.filter_app. simpl. by rewrite !app_nil_r.
Qed.

Lemma failed_download_is_not_fatal_witness :
  let w := Sample.world Sample.no_download Sample.no_archive None in
  let r := Sample.record "Video" (Some "u") "P" in
  exists d,
    main_loop (download_and_process w) [r] ∅ Sample.fresh =
      Ret {[ "u" := None ]}
        (log_of (with_trace (fun t => t ++ [EvDownload "u"])
                   (log_of Sample.fresh (DProcessing "u"))) d).
Proof.
  intros w r.
  destruct (failed_download_is_not_fatal w r "u" [] ∅ Sample.fresh) as (d & H & _).
  - reflexivity.
  - discriminate.
  - right. left. reflexivity.
  - exists d. rewrite H. reflexivity.
Defined.

(** X10. The loop passes over the records without a download link (none,
    or the empty text) as if they were not in the table: they are not
    processed, nothing is printed for them, and they get no entry in the
    report. *)
Theorem records_without_link_are_passed_over (process : Rec -> M (option (list Saved)))
    (recs : list Rec) (all_saved : Report) (s : State) :
  main_loop process recs all_saved s =
  main_loop process (List.filter has_link recs) all_saved s.
Proof.
  revert all_saved s. induction recs as [|rec recs IH]; intros all_saved s; [done |].
  rewrite main_loop_cons. cbn [List.filter]. unfold has_link at 1.
  destruct (truthy (rec_url rec)) eqn:Ht; cbn [negb]; [| apply IH].
  rewrite main_loop_cons, Ht. cbn [negb].
  apply bind_ext; [done |]. intros _ s1. apply bind_ext; [done |]. intros saved s2.
  apply IH.
Qed.

Lemma main_loop_dom (process : Rec -> M (option (list Saved)))
    (recs : list Rec) (all_saved report : Report) (s s' : State) :
  main_loop process recs all_saved s = Ret report s' ->
  dom report = dom all_saved ∪ list_to_set (linked_urls recs).
Proof.
  revert all_saved s. induction recs as [|rec recs IH]; intros all_saved s.
  - intros [= <- _]. unfold linked_urls. cbn [List.filter List.map].
    by rewrite list_to_set_nil, (right_id_L ∅ (∪)).
  - rewrite main_loop_cons. unfold linked_urls. cbn [List.filter]. unfold has_link at 1.
    destruct (truthy (rec_url rec)) eqn:Ht; cbn [negb List.map].
    + unfold bind at 1. simpl. unfold bind at 1.
      destruct (process rec _) as [saved s1|s1|s1]; [| done | done].
      intros H. apply IH in H. rewrite H, dom_insert_L.
      fold (linked_urls recs).
      by rewrite (comm_L (∪) {[_]} (dom all_saved)), (assoc_L (∪)).
    + intros H. apply IH in H. by rewrite H.
Qed.

(** X11. The keys of the report, from the table the script is given.
    When [extract_memories.py], started in the state the module sets up,
    reaches its end, the keys of its report are exactly the non-empty
    download links of the records of media type Video from the 138th
    such record on: no picture and none of the first 137 videos has an
    entry.  The keys of the report of the local-only script are exactly
    the non-empty download links of all the records. *)
Theorem report_keys (w : World) (records : list Rec) (report : Report) (s' : State) :
  (forall con files dir,
     extract_memories w con records (initial_state files dir) = Ret report s' ->
     dom report = list_to_set (linked_urls (skipn 137 (List.filter is_video records)))) /\
  (forall s,
     extract_memories_only_local w records s = Ret report s' ->
     dom report = list_to_set (linked_urls records)).
Proof.
  split.
  - intros con files dir H. unfold extract_memories in H. unfold bind at 1 in H.
    destruct (prompt_destination w con (initial_state files dir)) as [[] s0|s0|s0] eqn:Hp;
      [| done | done].
    unfold bind at 1 in H.
    destruct (filter_new w records s0) as [kept s1|s1|s1] eqn:Hf; [| done | done].
    rewrite (filter_new_after_prompt w con files dir records s0 s1 kept Hp Hf) in H.
    apply main_loop_dom in H. by rewrite dom_empty_L, (left_id_L ∅ (∪)) in H.
  - intros s H. unfold extract_memories_only_local in H.
    apply main_loop_dom in H. by rewrite dom_empty_L, (left_id_L ∅ (∪)) in H.
Qed.

Lemma report_keys_witness :
  let w := Sample.world (Sample.plain (Sample.data "new") "video/mp4") Sample.no_archive None in
  let recs := [Sample.record "Video" (Some "u") "P"; Sample.record "Video" None "Q";
               Sample.record "Image" (Some "v") "R"] in
  dom ({[ "u" := Some [SavedName "snapchat_memories/P.mp4"];
          "v" := Some [SavedName "snapchat_memories/R.mp4"] ]} : Report) =
    list_to_set (linked_urls recs) /\
  dom (∅ : Report) = list_to_set (linked_urls (skipn 137 (List.filter is_video recs))).
Proof.
  intros w recs. split.
  - apply (proj2 (report_keys w recs _
                      (final (extract_memories_only_local w recs Sample.fresh)))
                   Sample.fresh).
    vm_compute. reflexivity.
  - apply (proj1 (report_keys w recs ∅
                    (final (extract_memories w Sample.chooses_local recs
                              (initial_state [] ∅))))
                 Sample.chooses_local [] ∅).
    vm_compute. reflexivity.
Defined.

(** X12. The report is keyed by link, so of several records with one
    link the last one processed has the entry: when the loop over a
    table that ends with a linked record reaches its end, the report is
    the report of the table without that record, with the entry of the
    link replaced by what the record yielded. *)
Theorem last_record_has_the_entry (process : Rec -> M (option (list Saved)))
    (recs : list Rec) (rec : Rec) (url : string) (all_saved report : Report)
    (s s' : State) :
  rec_url rec = Some url -> url <> "" ->
  main_loop process (recs ++ [rec]) all_saved s = Ret report s' ->
  exists report1 s1 saved,
    main_loop process recs all_saved s = Ret report1 s1 /\
    process rec (log_of s1 (DProcessing url)) = Ret saved s' /\
    report = <[url := saved]> report1 /\
    report !! url = Some saved.
Proof.
  intros Hu Hne. rewrite main_loop_app. unfold bind at 1.
  destruct (main_loop process recs all_saved s) as [report1 s1|s1|s1]; [| done | done].
  rewrite main_loop_cons, Hu. simpl. destruct (String.eqb_spec url ""); [done |]. simpl.
  unfold bind at 1. simpl. unfold bind at 1.
  destruct (process rec _) as [saved s2|s2|s2] eqn:Hp; [| done | done].
  intros [= <- <-]. exists report1, s1, saved.
  split; [done |]. split; [exact Hp |]. split; [done |]. apply lookup_insert_eq.
Qed.

Lemma last_record_has_the_entry_witness :
  let w := Sample.world (Sample.plain (Sample.data "new") "video/mp4") Sample.no_archive None in
  let recs := [Sample.record "Video" (Some "u") "P"] in
  let rec := Sample.record "Video" (Some "u") "Q" in
  exists (report : Report) saved,
    report !! "u" = Some saved /\ saved = Some [SavedName "Q.mp4"].
Proof.
  intros w recs rec.
  destruct (last_record_has_the_entry (download_and_process w) recs rec "u" ∅
              {[ "u" := Some [SavedName "Q.mp4"] ]}
              Sample.fresh
              (final (main_loop (download_and_process w) (recs ++ [rec]) ∅ Sample.fresh)))
    as (report1 & s1 & saved & _ & _ & Hr & _).
  - reflexivity.
  - discriminate.
  - vm_compute. reflexivity.
  - exists {[ "u" := Some [SavedName "Q.mp4"] ]}, saved.
    assert (Hs : ({[ "u" := Some [SavedName "Q.mp4"] ]} : Report) !! "u" = Some saved)
      by (rewrite Hr; apply lookup_insert_eq).
    split; [exact Hs |]. rewrite lookup_singleton_eq in Hs. congruence.
Defined.

(** X28. A [None] in the report means that the payload could not be
    had, and nothing else: in both scripts the processing of a record
    yields [None] only when the record has no download link, the request
    fails, or what arrives passes for an archive and does not open.  An
    archive without usable members, a refused write or a skipped upload
    all yield a list. *)
Theorem none_means_no_payload (w : World) (record : Rec) (s s' : State) :
  download_and_process w record s = Ret None s' \/
  download_and_process_local w record s = Ret None s' ->
  url_of record = None \/
  exists url, url_of record = Some url /\ no_payload w url.
Proof.
  unfold no_payload. intros [H|H]; revert H.
  - unfold download_and_process.
    destruct (url_of record) as [url|]; [| by left].
    intros H. right. exists url. split; [done |].
    unfold bind at 1 in H. simpl in H.
    destruct (http_get w url) as [| |data ct]; [by left | by right; left |].
    right. right. exists data, ct. split; [done |].
    destruct (detect_zip w url data _).
    + split; [done |]. destruct (open_zip w data) as [z|]; [| done].
      exfalso. unfold bind at 1 in H.
      by destruct (process_archive w z record url _).
    + exfalso. unfold bind at 1 in H.
      by destruct (process_plain w record url data _ _).
  - unfold download_and_process_local.
    destruct (url_of record) as [url|]; [| by left].
    intros H. right. exists url. split; [done |].
    unfold bind at 1 in H. simpl in H.
    destruct (http_get w url) as [| |data ct]; [by left | by right; left |].
    right. right. exists data, ct. split; [done |].
    destruct (detect_zip w url data _).
    + split; [done |]. destruct (open_zip w data) as [z|]; [| done].
      exfalso. unfold bind at 1 in H.
      destruct (extract_members w z record url _ _ _ _ _) as [v s1|s1|s1]; [| done | done].
      unfold bind at 1 in H. by destruct (bool_decide (v = [])).
    + exfalso. unfold bind at 1 in H.
      by destruct (save_plain_local w record url data _ _).
Qed.

Lemma none_means_no_payload_witness :
  let w := Sample.world Sample.no_download Sample.no_archive None in
  let r := Sample.record "Video" (Some "u") "P" in
  url_of r = None \/ exists url, url_of r = Some url /\ no_payload w url.
Proof.
  intros w r.
  apply (none_means_no_payload w r Sample.fresh
           (final (download_and_process w r Sample.fresh))).
  left. vm_compute. reflexivity.
Defined.

(** ** A local write that fails *)

Lemma refused_write_raises (w : World) bts filename rec ext (s : State) :
  local_room w bts s -> local_write_ok w filename = false ->
  save_or_upload_bytes w bts filename rec ext s = Raise (refused w filename bts s).
Proof.
  intros (Hd & free & Hf & Hle) Hw. unfold save_or_upload_bytes.
  unfold bind at 1. simpl. rewrite Hd.
  unfold bind at 1. unfold check_local_space. unfold bind at 1. simpl. rewrite Hf.
  destruct (Z.ltb_spec free (Z.of_nat (length bts))); [lia |]. simpl.
  unfold bind at 1. unfold save_bytes_to_file. unfold bind at 1. simpl.
  rewrite Hw. unfold bind, failed_write, refused, attempted.
  by destruct (write_left w filename bts).
Qed.

(** X13. What a failed write at the local destination does depends on
    which path commits.  For a plain download the failure is printed and
    the record yields the empty list; for a picture of an archive it is
    reported as a compositing failure and ends the run; for a video of
    an archive nothing catches it and it leaves the record's processing
    as an error.  In each case the attempt is the last thing done
    before that, no metadata is embedded, and the folder is as the
    failure left it: unchanged when the file could not be opened,
    otherwise with the first bytes of the payload under the name, in
    place of what was there, and every other file as it was. *)
Theorem refused_write_three_ways (w : World) :
  (forall name, local_write_ok w name = false) ->
  (forall record url data ext s,
     local_room w data s ->
     exists name,
       process_plain w record url data ext s =
         Ret [] (log_of (refused w name data s) (DSaveFailed url name))) /\
  (forall z record main_member main_bytes overlay_members filename ext_inner
          img img' out_bytes s s1,
     image_open w main_bytes = Some img ->
     composite_overlays w z main_member overlay_members img s = Ret img' s1 ->
     encode_jpeg w img' = Some out_bytes ->
     local_room w out_bytes s1 ->
     process_image w z record main_member main_bytes overlay_members filename ext_inner s =
       Exit (log_of (refused w filename out_bytes s1) (DCompositeFailed main_member))) /\
  (forall z record main_member main_bytes overlay_members filename ext_inner
          final_bytes s s1,
     truthy (ffmpeg_path w) = true ->
     overlay_chain w z main_member overlay_members main_bytes s = Ret final_bytes s1 ->
     local_room w final_bytes s1 ->
     process_video w z record main_member main_bytes overlay_members filename ext_inner s =
       Raise (refused w filename final_bytes s1)) /\
  (forall name bts s,
     trace (refused w name bts s) = trace s ++ [EvLocalWrite name bts] /\
     (forall other, other <> name ->
        local_dir (refused w name bts s) !! other = local_dir s !! other) /\
     (write_left w name bts = None /\ local_dir (refused w name bts s) = local_dir s \/
      exists n, write_left w name bts = Some n /\
                local_dir (refused w name bts s) !! name = Some (take n bts))).
Proof.
  intros Hw. split; [| split; [| split]].
  - intros record url data ext s Hr. unfold process_plain.
    eexists. unfold try_except. unfold bind at 1.
    rewrite (refused_write_raises w data _ record _ s Hr (Hw _)). reflexivity.
  - intros z record mm mb oms filename ext_inner img img' out s s1 Hi Hc He Hr.
    unfold process_image, try_except. rewrite Hi. unfold bind at 1. rewrite Hc, He.
    by rewrite (refused_write_raises w out filename record ext_inner s1 Hr (Hw _)).
  - intros z record mm mb oms filename ext_inner fb s s1 Hf Hc Hr.
    unfold process_video. rewrite Hf. simpl. unfold bind at 1. rewrite Hc.
    apply (refused_write_raises w fb filename record ext_inner s1 Hr (Hw _)).
  - intros name bts s. unfold refused.
    destruct (write_left w name bts) as [n|]; simpl.
    + split; [done |]. split; [by intros other Ho; rewrite lookup_insert_ne |].
      right. exists n. split; [done |]. apply lookup_insert_eq.
    + split; [done |]. split; [done |]. by left.
Qed.

Lemma refused_write_three_ways_witness :
  let w := failing_writes (Some 1%nat)
             (Sample.world Sample.no_download Sample.no_archive Sample.ffmpeg_bin) in
  let s := with_local_dir (insert "P.jpg" (Sample.data "old")) Sample.fresh in
  (exists name,
     process_plain w Sample2.picture "u.jpg" (Sample.data "new") None s =
       Ret [] (log_of (refused w name (Sample.data "new") s)
                 (DSaveFailed "u.jpg" name))) /\
  process_image w (Sample.archive_of []) Sample2.picture "a-main.jpg" (Sample.data "m") []
      "P.jpg" ".jpg" s =
    Exit (log_of (refused w "P.jpg" (Sample.data "m") s)
            (DCompositeFailed "a-main.jpg")) /\
  process_video w (Sample.archive_of []) Sample2.picture "a-main.mp4" (Sample.data "m") []
      "P.mp4" ".mp4" s =
    Raise (refused w "P.mp4" (Sample.data "m") s) /\
  local_dir s !! "P.jpg" = Some (Sample.data "old") /\
  local_dir (refused w "P.jpg" (Sample.data "new") s) !! "P.jpg" = Some (Sample.data "n").
Proof.
  intros w s.
  assert (Hroom : forall d, (Z.of_nat (length d) <= 1000000)%Z -> local_room w d s).
  { intros d Hd. split; [reflexivity |]. exists 1000000%Z. by split. }
  destruct (refused_write_three_ways w (fun _ => eq_refl)) as (Hp & Hi & Hv & Hl).
  split; [| split; [| split; [| split]]].
  - apply Hp, Hroom. vm_compute. discriminate.
  - apply (Hi (Sample.archive_of []) Sample2.picture "a-main.jpg" (Sample.data "m") []
              "P.jpg" ".jpg" (Sample.data "m") (Sample.data "m") (Sample.data "m")
              s s); try reflexivity.
    apply Hroom. vm_compute. discriminate.
  - apply (Hv (Sample.archive_of []) Sample2.picture "a-main.mp4" (Sample.data "m") []
              "P.mp4" ".mp4" (Sample.data "m") s s).
    + reflexivity.
    + reflexivity.
    + apply Hroom. vm_compute. discriminate.
  - reflexivity.
  - destruct (Hl "P.jpg" (Sample.data "new") s) as (_ & _ & [[H _]|(n & Hn & Hx)]).
    + discriminate H.
    + injection Hn as <-. exact Hx.
Defined.

(** ** What the report of a plain download does not tell *)

(** X14. The entry a plain download gets in the report is the bare file
    name whether or not anything was uploaded: under the Drive
    destination in mode [skip], when the index holds the name the link's
    extension gives, nothing is uploaded or changed and the record still
    yields the one-name list an upload would have yielded. *)
Theorem skipped_plain_download_is_listed (w : World) (record : Rec) (url : string)
    (data : bytes) (ext : option string) (sfx : string) (ids : list string) (s : State) :
  PathLib.suffix (url_path w url) = sfx -> sfx <> "" ->
  DESTINATION s = DestGdrive -> CONFLICT_MODE s = ModeSkip ->
  gdrive_guard w (List.length data) s = None ->
  GDRIVE_EXISTING s !! (prefix_of record +:+ Str.lower sfx) = Some ids -> ids <> [] ->
  process_plain w record url data ext s =
    Ret [SavedName (prefix_of record +:+ Str.lower sfx)] s.
Proof.
  intros Hs Hne Hd Hm Hg Hi Hids. unfold process_plain. rewrite Hs.
  destruct (String.eqb_spec sfx ""); [done |]. cbn [truthy default].
  destruct (String.eqb_spec sfx ""); [done |]. cbn [negb]. unfold id.
  unfold try_except. unfold bind at 1.
  rewrite (save_or_upload_bytes_gdrive w data _ record _ s Hd), Hg.
  unfold bind at 1. by rewrite (resolve_conflict_skip w _ ids s Hm Hi Hids).
Qed.

Lemma skipped_plain_download_is_listed_witness :
  let s := Sample2.drive_with_old ModeSkip in
  process_plain Sample2.working Sample2.picture "u.JPG" (Sample.data "new") None s =
    Ret [SavedName "P.jpg"] s.
Proof.
  intros s.
  apply (skipped_plain_download_is_listed Sample2.working Sample2.picture "u.JPG"
           (Sample.data "new") None ".JPG" ["old-1"] s); try reflexivity; discriminate.
Defined.

(** ** The prompt and the filter *)

(** X15. The message of a failed client initialisation promises a fall
    back to the local folder that does not happen.  The prompt returns
    with the destination still set to the Drive and no client, nothing
    else is asked or checked, and the first commit of the run, whatever
    it commits, ends the run as not configured without writing anything
    anywhere. *)
Theorem no_fall_back_to_local (w : World) (con : Console) (s : State) :
  Str.lower (Str.strip (default "" (typed_choice con))) = "gdrive" ->
  Str.strip (typed_service_account con) <> "" ->
  init_gdrive_service w (Str.strip (typed_service_account con)) = false ->
  GDRIVE_SERVICE s = false ->
  exists s1,
    prompt_destination w con s = Ret tt s1 /\
    DESTINATION s1 = DestGdrive /\
    last (trace s1) = Some (EvLog DInitFailedFallback) /\
    local_dir s1 = local_dir s /\ drive s1 = drive s /\
    forall bts filename rec ext,
      save_or_upload_bytes w bts filename rec ext s1 =
        Exit (log_of s1 DGdriveNotConfigured).
Proof.
  intros Hc Hsa Hi Hs. unfold prompt_destination. rewrite Hc.
  change (String.eqb "gdrive" "gdrive") with true. cbn [negb].
  assert (Hmode : exists s0, read_conflict_mode (Str.lower (Str.strip (typed_conflict con)))
                               (set_destination DestGdrive s) = Ret tt s0 /\
                             DESTINATION s0 = DestGdrive /\ GDRIVE_SERVICE s0 = false /\
                             local_dir s0 = local_dir s /\ drive s0 = drive s).
  { unfold read_conflict_mode. repeat case_match; eexists; (split; [reflexivity |]); done. }
  destruct Hmode as (s0 & Hr & Hd0 & Hs0 & Hl0 & Hdr0).
  destruct (String.eqb_spec (Str.strip (typed_service_account con)) ""); [done |].
  rewrite Hi. cbn [negb].
  exists (log_of s0 DInitFailedFallback).
  split; [| split; [| split; [| split; [| split]]]].
  - unfold bind at 1. cbn [modify]. unfold bind at 1. by rewrite Hr.
  - exact Hd0.
  - simpl. apply last_snoc.
  - exact Hl0.
  - exact Hdr0.
  - intros bts filename rec ext.
    rewrite save_or_upload_bytes_gdrive by exact Hd0.
    unfold gdrive_guard, gdrive_configured. simpl. by rewrite Hs0.
Qed.

Lemma no_fall_back_to_local_witness :
  let w := Sample.faulty_world Sample.no_download Sample.no_archive None (fun _ => false) true in
  let w' := {| http_get := http_get w; url_path := url_path w; is_zipfile := is_zipfile w;
     open_zip := open_zip w; pillow_installed := pillow_installed w;
     image_open := image_open w; alpha_composite := alpha_composite w;
     encode_jpeg := encode_jpeg w; overlay_to_png := overlay_to_png w;
     ffmpeg_path := ffmpeg_path w; ffmpeg_overlay := ffmpeg_overlay w;
     disk_free := disk_free w; local_write_ok := local_write_ok w;
     write_left := write_left w;
     local_listing_ok := local_listing_ok w;
     init_gdrive_service := fun _ => false;
     folder_accessible := folder_accessible w;
     create_gdrive_folder := create_gdrive_folder w;
     drive_listing_ok := drive_listing_ok w; drive_quota := drive_quota w;
     drive_delete_ok := drive_delete_ok w; drive_upload := drive_upload w;
     regex_coords := regex_coords w; piexif_installed := piexif_installed w;
     exif_insert := exif_insert w; mp4_tag := mp4_tag w;
     stream_write_ok := stream_write_ok w; json_dumps := json_dumps w |} in
  exists s1,
    prompt_destination w' (Sample.chooses_drive "skip") Sample.fresh = Ret tt s1 /\
    DESTINATION s1 = DestGdrive /\
    save_or_upload_bytes w' (Sample.data "new") "P.jpg" Sample2.picture ".jpg" s1 =
      Exit (log_of s1 DGdriveNotConfigured).
Proof.
  intros w w'.
  destruct (no_fall_back_to_local w' (Sample.chooses_drive "skip") Sample.fresh)
    as (s1 & Hp & Hd & _ & _ & _ & Hc); try reflexivity; try discriminate.
  exists s1. split; [exact Hp |]. split; [exact Hd |]. apply Hc.
Defined.

(** X16. With anything but the Drive chosen at the first prompt, an
    input that fails included, no further question is asked and the
    conflict mode stays [skip], so the filter of mode [new] is never
    applied to a local folder: from the state the module sets up, the
    whole run is the loop over the videos from the 138th on, started in
    that very state. *)
Theorem local_run_has_no_conflict_mode (w : World) (con : Console) (records : list Rec)
    (files : list DriveFile) (dir : gmap string bytes) :
  Str.lower (Str.strip (default "" (typed_choice con))) <> "gdrive" ->
  extract_memories w con records (initial_state files dir) =
    main_loop (download_and_process w) (skipn 137 (List.filter is_video records)) ∅
      (initial_state files dir).
Proof.
  intros Hc. unfold extract_memories, prompt_destination.
  destruct (String.eqb_spec (Str.lower (Str.strip (default "" (typed_choice con)))) "gdrive");
    [done |].
  cbn [negb]. unfold bind at 1. cbn [ret]. unfold bind at 1.
  unfold filter_new. unfold bind at 1. reflexivity.
Qed.

Lemma local_run_has_no_conflict_mode_witness :
  let w := Sample.world (Sample.plain (Sample.data "new") "video/mp4") Sample.no_archive None in
  let con := {| typed_choice := None; typed_service_account := "key.json";
                typed_folder := "folder-1"; typed_conflict := "new" |} in
  extract_memories w con [Sample.record "Video" (Some "u") "P"] (initial_state [] {[ "P.mp4" := [] ]}) =
    Ret ∅ (initial_state [] {[ "P.mp4" := [] ]}).
Proof.
  intros w con. rewrite (local_run_has_no_conflict_mode w con); [reflexivity | discriminate].
Defined.

(** X17. What the filter of mode [new] keeps.  In mode [new], with a
    destination that can be listed, the filter returns, in their order,
    exactly the records none of the known names starts with the prefix
    of, and does nothing but print its summary; the known names are the
    keys of the index under the Drive destination, the names in the
    folder under the local one.  In the other modes it returns the
    records as they are and prints nothing. *)
Theorem new_mode_filter (w : World) (records : list Rec) (s : State) :
  (CONFLICT_MODE s = ModeNew -> listable w s ->
   exists kept d,
     filter_new w records s = Ret kept (log_of s d) /\
     kept = List.filter (fun rec => negb (already_present (known_names s) rec)) records /\
     forall rec,
       In rec kept <->
       In rec records /\
       ~ exists name, name ∈ known_names s /\
                      Str.startswith name (rec_prefix rec) = true) /\
  (CONFLICT_MODE s <> ModeNew -> filter_new w records s = Ret records s).
Proof.
  split.
  - intros Hm Hl. unfold listable, known_names in *.
    exists (List.filter (fun rec => negb (already_present (known_names s) rec)) records).
    unfold known_names.
    assert (Hspec : forall names rec,
              In rec (List.filter (fun rec => negb (already_present names rec)) records) <->
              In rec records /\
              ~ exists name, name ∈ names /\ Str.startswith name (rec_prefix rec) = true).
    { intros names rec. rewrite filter_In, <- already_present_spec.
      destruct (already_present names rec); simpl; split; intros [H1 H2]; by split. }
    unfold filter_new. unfold bind at 1. simpl. rewrite Hm.
    unfold bind at 1. simpl.
    destruct (DESTINATION s) eqn:Hd.
    + rewrite Hl. unfold bind at 1. unfold bind at 1. simpl.
      eexists. split; [reflexivity |]. split; [done |]. apply Hspec.
    + unfold bind at 1. unfold bind at 1. simpl. rewrite Hl. simpl.
      eexists. split; [reflexivity |]. split; [done |]. apply Hspec.
  - intros Hm. unfold filter_new. unfold bind at 1. simpl.
    by destruct (CONFLICT_MODE s).
Qed.

Lemma new_mode_filter_witness :
  let s := Sample2.drive_with_old ModeNew in
  let recs := [Sample2.picture; Sample.record "Image" (Some "v") "Q"] in
  exists d,
    filter_new Sample2.working recs s = Ret [Sample.record "Image" (Some "v") "Q"] (log_of s d).
Proof.
  intros s recs.
  destruct (proj1 (new_mode_filter Sample2.working recs s) eq_refl eq_refl)
    as (kept & d & H & Hk & _).
  exists d. rewrite H, Hk. reflexivity.
Defined.

(** ** Prefixes and file names *)

Lemma all_chars_app (p : ascii -> bool) (a b : string) :
  all_chars p (a +:+ b) = all_chars p a && all_chars p b.
Proof.
  induction a as [|c a IH]; [done |].
  rewrite string_app_cons. simpl. by rewrite IH, andb_assoc.
Qed.

Lemma all_chars_impl (p q : ascii -> bool) (s : string) :
  (forall c, p c = true -> q c = true) -> all_chars p s = true -> all_chars q s = true.
Proof.
  intros Hpq. induction s as [|c s IH]; [done |]. simpl.
  intros [Hc Hs]%andb_true_iff. by rewrite (Hpq c Hc), (IH Hs).
Qed.

Lemma replace_disallowed_allowed (s : string) :
  all_chars allowed_char (replace_disallowed s) = true.
Proof.
  induction s as [|c s IH]; [done |]. simpl. rewrite IH, andb_true_r.
  by destruct (allowed_char c) eqn:Hc.
Qed.

Lemma allowed_not_space (c : ascii) : allowed_char c = true -> Str.is_space c = false.
Proof. destruct c as [[] [] [] [] [] [] [] []]; vm_compute; congruence. Qed.

Lemma allowed_not_slash (c : ascii) :
  allowed_char c = true -> negb (Ascii.eqb c "/") = true.
Proof. destruct c as [[] [] [] [] [] [] [] []]; vm_compute; congruence. Qed.

Lemma lstrip_no_space (s : string) :
  all_chars (fun c => negb (Str.is_space c)) s = true -> Str.lstrip s = s.
Proof. destruct s as [|c s]; [done |]. simpl. by destruct (Str.is_space c). Qed.

Lemma rstrip_no_space (s : string) :
  all_chars (fun c => negb (Str.is_space c)) s = true -> Str.rstrip s = s.
Proof.
  induction s as [|c s IH]; [done |]. simpl.
  intros [Hc Hs]%andb_true_iff. rewrite (IH Hs).
  destruct s; [| done]. by destruct (Str.is_space c).
Qed.

Lemma squeeze_spaces_no_space (b : bool) (s : string) :
  all_chars (fun c => negb (Str.is_space c)) s = true -> squeeze_spaces b s = s.
Proof.
  revert b. induction s as [|c s IH]; intros b; [done |]. simpl.
  intros [Hc Hs]%andb_true_iff. destruct (Str.is_space c); [done |]. by rewrite (IH _ Hs).
Qed.

Lemma replace_disallowed_id (s : string) :
  all_chars allowed_char s = true -> replace_disallowed s = s.
Proof.
  induction s as [|c s IH]; [done |]. simpl.
  intros [Hc Hs]%andb_true_iff. by rewrite Hc, (IH Hs).
Qed.

Lemma sanitize_part_id (s : string) :
  all_chars allowed_char s = true -> sanitize_part (Some s) = s.
Proof.
  intros H.
  assert (Hn : all_chars (fun c => negb (Str.is_space c)) s = true).
  { apply (all_chars_impl allowed_char); [| done].
    intros c Hc. by rewrite (allowed_not_space c Hc). }
  unfold sanitize_part, Str.strip.
  by rewrite (lstrip_no_space s Hn), (rstrip_no_space s Hn),
             (squeeze_spaces_no_space false s Hn), replace_disallowed_id.
Qed.

(** X18. The prefix a row is given is safe as a file name stem, whatever
    the date and the location of the export say: it consists of ASCII
    letters, digits, dots, underscores and hyphens only, so it holds no
    path separator and no white space; it is never empty, so processing
    always names the outputs after it and [sanitize_prefix], the fall
    back of line 562, is never used; and sanitising is idempotent, a
    text that is clean already being left as it is. *)
Theorem assigned_prefix_is_clean (media_type date_str location_str : string)
    (url : option string) :
  let p := assigned_prefix date_str location_str in
  all_chars allowed_char p = true /\
  all_chars (fun c => negb (Ascii.eqb c "/")) p = true /\
  all_chars (fun c => negb (Str.is_space c)) p = true /\
  p <> "" /\
  prefix_of (row media_type date_str location_str url) = p /\
  sanitize_part (Some p) = p /\
  forall s, sanitize_part (Some (sanitize_part s)) = sanitize_part s.
Proof.
  intros p.
  assert (Hp : all_chars allowed_char p = true).
  { unfold p, assigned_prefix, sanitize_part.
    by rewrite !all_chars_app, !replace_disallowed_allowed. }
  assert (Hne : p <> "").
  { unfold p, assigned_prefix. intros H. apply (f_equal String.length) in H.
    rewrite !string_app_length in H. simpl in H. lia. }
  split; [done |]. split.
  { apply (all_chars_impl allowed_char); [apply allowed_not_slash | done]. }
  split.
  { apply (all_chars_impl allowed_char); [| done].
    intros c Hc. by rewrite (allowed_not_space c Hc). }
  split; [done |]. split.
  { unfold prefix_of, row. cbn [rec_prefix]. fold p.
    by destruct (String.eqb_spec p ""). }
  split; [by apply sanitize_part_id |].
  intros [s|]; [| done]. apply sanitize_part_id.
  unfold sanitize_part. apply replace_disallowed_allowed.
Qed.

(** ** The extension a content type gives *)

Lemma lower_ascii_space (c : ascii) : Str.is_space (Str.lower_ascii c) = Str.is_space c.
Proof. destruct c as [[] [] [] [] [] [] [] []]; reflexivity. Qed.

Lemma lower_ascii_semicolon (c : ascii) :
  Ascii.eqb (Str.lower_ascii c) ";" = Ascii.eqb c ";".
Proof. destruct c as [[] [] [] [] [] [] [] []]; reflexivity. Qed.

Lemma lower_ascii_twice (c : ascii) :
  Str.lower_ascii (Str.lower_ascii c) = Str.lower_ascii c.
Proof. destruct c as [[] [] [] [] [] [] [] []]; reflexivity. Qed.

Lemma lower_twice (s : string) : Str.lower (Str.lower s) = Str.lower s.
Proof. induction s as [|c s IH]; [done |]. simpl. by rewrite lower_ascii_twice, IH. Qed.

Lemma lower_before_semicolon (s : string) :
  Str.before_semicolon (Str.lower s) = Str.lower (Str.before_semicolon s).
Proof.
  induction s as [|c s IH]; [done |]. simpl. rewrite lower_ascii_semicolon.
  destruct (Ascii.eqb c ";"); [done |]. simpl. by rewrite IH.
Qed.

Lemma lower_lstrip (s : string) : Str.lstrip (Str.lower s) = Str.lower (Str.lstrip s).
Proof.
  induction s as [|c s IH]; [done |]. simpl. rewrite lower_ascii_space.
  by destruct (Str.is_space c).
Qed.

Lemma lower_rstrip (s : string) : Str.rstrip (Str.lower s) = Str.lower (Str.rstrip s).
Proof.
  induction s as [|c s IH]; [done |]. simpl. rewrite IH, lower_ascii_space.
  destruct (Str.rstrip s); simpl; [| done]. by destruct (Str.is_space c).
Qed.

Lemma before_semicolon_app (ct params : string) :
  all_chars (fun c => negb (Ascii.eqb c ";")) ct = true ->
  Str.before_semicolon (ct +:+ ";" +:+ params) = ct /\ Str.before_semicolon ct = ct.
Proof.
  induction ct as [|c ct IH]; [done |]. rewrite string_app_cons. simpl.
  intros [Hc Hs]%andb_true_iff. destruct (Ascii.eqb c ";"); [done |].
  destruct (IH Hs) as [-> ->]. done.
Qed.

(** X19. The extension is read off the media type of the header alone:
    parameters after a semicolon are not looked at, and neither is the
    case of the letters.  A header that is missing, empty, or names a
    type other than the five known ones gives no extension. *)
Theorem content_type_is_normalised (ct ct' params : string) :
  (all_chars (fun c => negb (Ascii.eqb c ";")) ct = true ->
   get_extension_from_content_type (Some (ct +:+ ";" +:+ params)) =
   get_extension_from_content_type (Some ct)) /\
  (Str.lower ct = Str.lower ct' ->
   get_extension_from_content_type (Some ct) =
   get_extension_from_content_type (Some ct')) /\
  (forall e, get_extension_from_content_type (Some ct) = Some e ->
     ct <> "" /\ In e [".jpg"; ".png"; ".mp4"; ".zip"]).
Proof.
  split; [| split].
  - intros H. unfold get_extension_from_content_type.
    destruct (before_semicolon_app ct params H) as [-> ->].
    destruct ct as [|c ct]; [done |]. by rewrite string_app_cons.
  - intros H.
    assert (Hn : forall t, Str.lower (Str.strip (Str.before_semicolon t)) =
                           Str.strip (Str.before_semicolon (Str.lower t))).
    { intros t. unfold Str.strip.
      by rewrite lower_before_semicolon, lower_lstrip, lower_rstrip. }
    unfold get_extension_from_content_type. rewrite !Hn, H.
    destruct ct as [|c ct], ct' as [|c' ct']; try done.
  - intros e. unfold get_extension_from_content_type.
    destruct (String.eqb_spec ct ""); [done |].
    repeat case_match; intros [= <-]; (split; [done |]); simpl; tauto.
Qed.

Lemma content_type_is_normalised_witness :
  get_extension_from_content_type (Some "Image/JPEG; charset=binary") = Some ".jpg" /\
  get_extension_from_content_type (Some "VIDEO/MP4") =
    get_extension_from_content_type (Some "video/mp4").
Proof.
  destruct (content_type_is_normalised "Image/JPEG" "image/jpeg" " charset=binary")
    as (Hp & Hl & _).
  split.
  - change (Some "Image/JPEG; charset=binary")
      with (Some ("Image/JPEG" +:+ ";" +:+ " charset=binary")).
    rewrite (Hp eq_refl), (Hl eq_refl). reflexivity.
  - apply (content_type_is_normalised "VIDEO/MP4" "video/mp4" ""). reflexivity.
Defined.

(** ** Output names *)

Lemma string_app_assoc (a b c : string) : (a +:+ b) +:+ c = a +:+ b +:+ c.
Proof. induction a as [|x a IH]; [done |]. rewrite !string_app_cons. by rewrite IH. Qed.

Lemma string_app_inj_2 (a b e e' : string) :
  String.length e = String.length e' -> a +:+ e = b +:+ e' -> a = b /\ e = e'.
Proof.
  revert b. induction a as [|c a IH]; intros [|c' b] Hl H.
  - done.
  - apply (f_equal String.length) in H. rewrite !string_app_length in H. simpl in H. lia.
  - apply (f_equal String.length) in H. rewrite !string_app_length in H. simpl in H. lia.
  - rewrite !string_app_cons in H. injection H as -> H.
    destruct (IH b Hl H) as [-> ->]. done.
Qed.

Lemma counter_inj (c c' : nat) :
  (if (0 <? c)%nat then "_" +:+ pretty c else "") =
  (if (0 <? c')%nat then "_" +:+ pretty c' else "") -> c = c'.
Proof.
  destruct c as [|c], c' as [|c']; try done.
  change (0 <? S c)%nat with true. change (0 <? S c')%nat with true. cbv iota.
  rewrite !string_app_cons. change ("" +:+ ?x) with x. intros [= H].
  by apply (inj pretty) in H.
Qed.

(** X20. The names of the outputs of one archive do not collide: for the
    extensions a main member can have, the name built from a prefix, the
    running count and the extension determines both the count and the
    extension.  Since the count grows with every output, no output of a
    record is written over another output of that record. *)
Theorem out_filename_inj (prefix : string) (c c' : nat) (e e' : string) :
  In e main_exts -> In e' main_exts ->
  out_filename prefix c e = out_filename prefix c' e' ->
  c = c' /\ e = e'.
Proof.
  intros He He' H. unfold out_filename in H.
  apply (inj (String.app prefix)) in H.
  set (m := if (0 <? c)%nat then "_" +:+ pretty c else "") in *.
  set (m' := if (0 <? c')%nat then "_" +:+ pretty c' else "") in *.
  assert (Hcase : m = m' /\ e = e').
  { unfold main_exts in He, He'. simpl in He, He'.
    destruct He as [<-|[<-|[<-|[]]]], He' as [<-|[<-|[<-|[]]]].
    - by apply string_app_inj_2.
    - change (m' +:+ ".jpeg") with (m' +:+ "." +:+ "jpeg") in H.
      rewrite <- string_app_assoc in H. by apply string_app_inj_2 in H as [_ [=]].
    - by apply string_app_inj_2 in H as [_ [=]].
    - change (m +:+ ".jpeg") with (m +:+ "." +:+ "jpeg") in H.
      rewrite <- string_app_assoc in H. by apply string_app_inj_2 in H as [_ [=]].
    - by apply string_app_inj_2.
    - change (m +:+ ".jpeg") with (m +:+ "." +:+ "jpeg") in H.
      rewrite <- string_app_assoc in H. by apply string_app_inj_2 in H as [_ [=]].
    - by apply string_app_inj_2 in H as [_ [=]].
    - change (m' +:+ ".jpeg") with (m' +:+ "." +:+ "jpeg") in H.
      rewrite <- string_app_assoc in H. by apply string_app_inj_2 in H as [_ [=]].
    - by apply string_app_inj_2. }
  destruct Hcase as [Hm ->]. split; [| done]. by apply counter_inj.
Qed.

Lemma out_filename_inj_witness :
  out_filename "P" 0 ".jpg" <> out_filename "P" 1 ".jpg" /\
  out_filename "P" 1 ".jpg" <> out_filename "P" 1 ".jpeg".
Proof.
  split; intros H.
  - apply (out_filename_inj "P" 0 1 ".jpg" ".jpg") in H as [H _];
      [discriminate | by left | by left].
  - apply (out_filename_inj "P" 1 1 ".jpg" ".jpeg") in H as [_ H];
      [discriminate | by left | right; by left].
Defined.

(** ** Members in folders *)

Lemma split_slash_app (folder nm : string) :
  Str.split_slash (folder +:+ "/" +:+ nm) = Str.split_slash folder ++ Str.split_slash nm.
Proof.
  induction folder as [|c f IH]; [done |].
  rewrite string_app_cons. simpl. destruct (Ascii.eqb c "/").
  - by rewrite IH.
  - rewrite IH. pose proof (split_slash_nonempty f) as Hne.
    by destruct (Str.split_slash f).
Qed.

Lemma name_in_folder (folder nm : string) :
  Str.contains "/" nm = false -> nm <> "" -> nm <> "." ->
  PathLib.name (folder +:+ "/" +:+ nm) = nm /\ PathLib.name nm = nm.
Proof.
  intros Hs H0 H1. unfold PathLib.name.
  rewrite split_slash_app, (split_slash_single nm Hs), List.filter_app. simpl.
  destruct (String.eqb_spec nm ""); [done |]. destruct (String.eqb_spec nm "."); [done |].
  simpl. by rewrite last_last.
Qed.

(** X21. Only the last component of a member's path counts for its
    classification: a member in a folder of the archive is filed as the
    same file name at the top of the archive would be, under the same
    key, so a main in one folder is grouped with the overlays of the
    same base in any other, and two mains of one base in different
    folders compete for the one entry of that base. *)
Theorem classify_ignores_folders (folder nm : string) :
  Str.contains "/" nm = false -> nm <> "" -> nm <> "." ->
  classify (folder +:+ "/" +:+ nm) = classify nm.
Proof.
  intros Hs H0 H1. destruct (name_in_folder folder nm Hs H0 H1) as [Hf Hn].
  unfold classify, member_stem, member_ext. by rewrite Hf, Hn.
Qed.

Lemma classify_ignores_folders_witness :
  classify "a/b/x-main.jpg" = classify "x-main.jpg" /\
  classify "x-main.jpg" = Some ("x", Main).
Proof.
  split; [| reflexivity].
  apply (classify_ignores_folders "a/b" "x-main.jpg"); [reflexivity | done | done].
Defined.

(** ** What embedding metadata can touch *)

Lemma sidecar_is_another_file (filename : string) :
  filename <> filename +:+ ":snapchat_metadata".
Proof.
  intros H. apply (f_equal String.length) in H.
  rewrite string_app_length in H. simpl in H. lia.
Qed.

(** The three things the embedding can do to the folder. *)
Lemma write_file_metadata_folder (w : World) (filename : string) (meta : Meta) (s : State) :
  let s' := final (write_file_metadata w filename meta s) in
  drive s' = drive s /\ GDRIVE_EXISTING s' = GDRIVE_EXISTING s /\
  (local_dir s' = local_dir s \/
   (exists content content',
      local_dir s !! filename = Some content /\
      local_dir s' = <[filename := content']> (local_dir s) /\
      (is_jpeg_ext (Str.lower (PathLib.suffix filename)) = true \/
       Str.lower (PathLib.suffix filename) = ".mp4")) \/
   exists written,
     local_dir s' = <[filename +:+ ":snapchat_metadata" := written]> (local_dir s)).
Proof.
  cbv zeta.
  unfold write_file_metadata, embed_exif, embed_mp4, embed_stream, failed_write.
  unfold bind, ret, gets, modify, log, emit. simpl.
  repeat case_match; simplify_eq; simpl in *;
    (split; [done |]); (split; [done |]);
    first
      [ by left
      | right; right; by eexists
      | right; left; eexists _, _; split; [eassumption |]; split; [reflexivity |];
        first [ left; by apply negb_false_iff
              | right; by apply String.eqb_eq, negb_false_iff ] ].
Qed.

(** X22. Embedding metadata is confined to the file it is asked to tag
    and to the file of the same name with [:snapchat_metadata] appended,
    which the last strategy writes next to it: it removes no file,
    creates no file but that one, leaves every other file as it is,
    writes into one of the two and never into both, never touches the
    Drive or the index, and when the file has none of the extensions
    [.jpg], [.jpeg] and [.mp4] it leaves the file itself as it is. *)
Theorem write_file_metadata_is_confined (w : World) (filename : string) (meta : Meta)
    (s : State) :
  let s' := final (write_file_metadata w filename meta s) in
  let sidecar := filename +:+ ":snapchat_metadata" in
  dom (local_dir s) ⊆ dom (local_dir s') /\
  dom (local_dir s') ⊆ dom (local_dir s) ∪ {[ sidecar ]} /\
  (forall other, other <> filename -> other <> sidecar ->
     local_dir s' !! other = local_dir s !! other) /\
  (local_dir s' !! filename = local_dir s !! filename \/
   local_dir s' !! sidecar = local_dir s !! sidecar) /\
  drive s' = drive s /\ GDRIVE_EXISTING s' = GDRIVE_EXISTING s /\
  (is_jpeg_ext (Str.lower (PathLib.suffix filename)) = false ->
   Str.lower (PathLib.suffix filename) <> ".mp4" ->
   local_dir s' !! filename = local_dir s !! filename).
Proof.
  intros s' sidecar.
  pose proof (sidecar_is_another_file filename) as Hne.
  destruct (write_file_metadata_folder w filename meta s)
    as (Hd & Hi & [Hl|[(c & c' & Hc & Hl & He)|(x & Hl)]]);
    fold s' in Hd, Hi, Hl; rewrite Hl.
  - split; [done |]. split; [apply union_subseteq_l |]. split; [done |].
    split; [by left |]. done.
  - apply elem_of_dom_2 in Hc.
    split; [rewrite dom_insert_L; apply union_subseteq_r |].
    split.
    { rewrite dom_insert_L. apply union_least; [| apply union_subseteq_l].
      apply singleton_subseteq_l, elem_of_union_l, Hc. }
    split; [by intros other Ho _; rewrite lookup_insert_ne |].
    split; [right; by rewrite lookup_insert_ne |].
    split; [done |]. split; [done |].
    intros Hj Hm. destruct He as [He|He]; congruence.
  - fold sidecar.
    split; [rewrite dom_insert_L; apply union_subseteq_r |].
    split; [by rewrite dom_insert_L, (comm_L (∪)) |].
    split; [by intros other _ Ho; rewrite lookup_insert_ne |].
    split; [left; by rewrite lookup_insert_ne |].
    split; [done |]. split; [done |].
    intros _ _. by rewrite lookup_insert_ne.
Qed.

Lemma write_file_metadata_is_confined_witness :
  let s := with_local_dir (insert "P.txt" (Sample.data "x")) Sample.fresh in
  let s' := final (write_file_metadata Sample2.working "P.txt" Sample.no_meta s) in
  local_dir s' !! "P.txt" = local_dir s !! "P.txt" /\
  dom (local_dir s') ⊆ dom (local_dir s) ∪ {[ "P.txt:snapchat_metadata" ]} /\
  local_dir s' !! "P.txt:snapchat_metadata" = Some (Sample.data "{}").
Proof.
  intros s s'.
  destruct (write_file_metadata_is_confined Sample2.working "P.txt" Sample.no_meta s)
    as (_ & Hdom & _ & _ & _ & _ & H).
  split; [apply H; [reflexivity | discriminate] |].
  split; [exact Hdom | vm_compute; reflexivity].
Defined.

(** ** Archives in the local-only script *)

Lemma saved_bytes (w : World) (content : bytes) (filename : string) (s : State) :
  local_write_ok w filename = true ->
  save_bytes_to_file w content filename s =
    Ret tt (with_local_dir (insert filename content) (attempted filename content s)).
Proof.
  intros Hw. unfold save_bytes_to_file. unfold bind at 1. simpl. by rewrite Hw.
Qed.

Lemma embed_logged_frame (w : World) (filename : string) (meta : Meta) (s : State) :
  exists s', embed_logged w filename meta s = Ret tt s' /\ steps_local s s' /\
             List.filter is_commit (trace s') = List.filter is_commit (trace s).
Proof.
  pose proof (keeps_write_file_metadata w filename meta s) as Hk.
  destruct (write_file_metadata_returns w filename meta s) as (b & s' & Hrun & Ht).
  rewrite Hrun in Hk. simpl in Hk. exists s'.
  split; [by unfold embed_logged, try_except, bind; rewrite Hrun |]. split; [done |].
  destruct Ht as [[-> _]|[-> _]]; rewrite List.filter_app; simpl; by rewrite app_nil_r.
Qed.

(** X23. The local-only script takes the pictures and videos out of an
    archive as they are: with every wanted member readable and every
    write succeeding, the record yields the paths of one output for each
    member whose name ends in [.jpg], [.jpeg] or [.mp4], whatever the
    case of the letters, in archive order and numbered in that order,
    main or overlay marker or none; the writes of the run are exactly
    the contents of these members under these names, so nothing is
    composited, and the Drive is not touched. *)
Theorem local_only_takes_members_as_they_are (w : World) (z : Archive) (record : Rec)
    (url prefix : string) (names : list string) (saved_files : list Saved) (count : nat)
    (s : State) :
  (forall m, In m names -> wanted_member m = true -> is_Some (read_member z m)) ->
  (forall filename, local_write_ok w filename = true) ->
  exists s',
    extract_members w z record url prefix names saved_files count s =
      Ret (saved_files ++
           List.map (fun f => SavedName (local_path f))
             (numbered prefix count (List.filter wanted_member names))) s' /\
    steps_local s s' /\
    List.filter is_commit (trace s') =
      List.filter is_commit (trace s) ++
      List.map (fun mf => EvLocalWrite mf.2 (default [] (read_member z mf.1)))
        (zip (List.filter wanted_member names)
             (numbered prefix count (List.filter wanted_member names))).
Proof.
  intros Hr Hw. revert saved_files count s.
  induction names as [|m names IH]; intros saved_files count s.
  - exists s. simpl. rewrite !app_nil_r. split; [done |]. split; [apply steps_local_refl | done].
  - assert (Hr' : forall m', In m' names -> wanted_member m' = true ->
                             is_Some (read_member z m'))
      by (intros m' Hin; apply Hr; by right).
    specialize (IH Hr'). cbn [extract_members List.filter].
    destruct (wanted_member m) eqn:Hwm; cbn [negb]; [| apply IH].
    destruct (Hr m (or_introl eq_refl) Hwm) as [content Hc]. rewrite Hc.
    unfold bind at 1. unfold try_except at 1. unfold bind at 1.
    rewrite (saved_bytes w content _ s (Hw _)). cbn [ret].
    unfold bind at 1.
    match goal with |- context [embed_logged w ?f ?mt ?s0] =>
      destruct (embed_logged_frame w f mt s0) as (s1 & He & Hk & Ht)
    end.
    rewrite He.
    destruct (IH (saved_files ++
                  [SavedName (local_path (out_filename prefix count
                                            (Str.lower (PathLib.suffix m))))])
                 (S count) s1) as (s' & Hrun & Hsteps & Htrace).
    exists s'. split; [| split].
    + rewrite Hrun. cbn [numbered List.map]. by rewrite <- app_assoc.
    + eapply steps_local_trans; [| exact Hsteps].
      eapply steps_local_trans; [| exact Hk].
      eapply steps_local_trans; [apply steps_local_emit | apply steps_local_with_local_dir].
    + rewrite Htrace, Ht. cbn [numbered zip zip_with List.map fst snd].
      rewrite Hc. simpl. rewrite List.filter_app. simpl. by rewrite <- app_assoc.
Qed.

Lemma local_only_takes_members_as_they_are_witness :
  let z := Sample.archive_of [("a-main.jpg", Sample.data "m"); ("a-overlay.png", Sample.data "o");
                              ("clip.MP4", Sample.data "v")] in
  exists s',
    extract_members Sample2.working z Sample2.picture "u" "P" (namelist z) [] 0 Sample.fresh =
      Ret [SavedName "snapchat_memories/P.jpg"; SavedName "snapchat_memories/P_1.mp4"] s' /\
    List.filter is_commit (trace s') =
      [EvLocalWrite "P.jpg" (Sample.data "m"); EvLocalWrite "P_1.mp4" (Sample.data "v")].
Proof.
  intros z.
  destruct (local_only_takes_members_as_they_are Sample2.working z Sample2.picture "u" "P"
              (namelist z) [] 0 Sample.fresh) as (s' & Hrun & _ & Ht).
  - intros m [<-|[<-|[<-|[]]]] _; by eexists.
  - reflexivity.
  - exists s'. split; [exact Hrun | exact Ht].
Defined.

(** ** An upload that fails *)

Lemma delete_all_ok (w : World) (filename : string) (ids : list string) (s : State) :
  Forall (fun i => drive_delete_ok w i = true) ids ->
  exists s1, delete_all w filename ids s = Ret tt s1.
Proof.
  intros H. revert s. induction H as [|i ids Hi _ IH]; intros s; [by eexists |].
  simpl. unfold bind at 1. unfold try_except, delete_gdrive_file.
  unfold bind at 1. simpl. rewrite Hi. simpl. apply IH.
Qed.

(** X24. Mode [overwrite] is not atomic.  When the objects of the name
    have been deleted and the upload then fails, for lack of quota or
    for any other reason, the run ends there: the old objects are gone,
    nothing has taken their place, and with the index in step with the
    folder no object of that name is left. *)
Theorem overwrite_then_failed_upload (w : World) bts filename rec ext
    (ids : list string) (s : State) :
  DESTINATION s = DestGdrive -> CONFLICT_MODE s = ModeOverwrite ->
  gdrive_guard w (List.length bts) s = None ->
  GDRIVE_EXISTING s !! filename = Some ids -> ids <> [] ->
  Forall (fun i => drive_delete_ok w i = true) ids ->
  (forall id link, drive_upload w (without_ids ids (drive s)) filename bts <> UploadOk id link) ->
  exists s' d,
    save_or_upload_bytes w bts filename rec ext s = Exit s' /\
    (d = DUploadQuota \/ d = DUploadFailed filename) /\
    trace s' = trace s ++ List.map EvDelete ids ++ [EvUpload filename bts; EvLog d] /\
    drive s' = without_ids ids (drive s) /\
    GDRIVE_EXISTING s' !! filename = None /\
    (index_mirrors (GDRIVE_EXISTING s) (drive s) ->
     List.filter (fun f => String.eqb (df_name f) filename) (drive s') = []).
Proof.
  intros Hd Hm Hg He Hne Hok Hup.
  rewrite save_or_upload_bytes_gdrive by done. rewrite Hg.
  unfold bind at 1. unfold resolve_conflict.
  unfold bind at 1. simpl. unfold bind at 1. simpl. rewrite He, Hm. simpl.
  destruct ids as [|i ids'] eqn:Hids; [by destruct Hne |]. rewrite <- Hids in *.
  unfold bind at 1.
  destruct (delete_all_ok w filename ids s Hok) as (s1 & Hdel). rewrite Hdel.
  apply delete_all_Ret in Hdel as (Hdr & Htr & Hidx & _).
  fold (without_ids ids (drive s)) in Hdr.
  unfold bind at 1. simpl. unfold try_except, upload_bytes_to_gdrive.
  unfold bind at 1. unfold bind at 1. simpl. unfold bind at 1. simpl. rewrite Hdr.
  assert (Hgone : index_mirrors (GDRIVE_EXISTING s) (drive s) ->
                  List.filter (fun f => String.eqb (df_name f) filename)
                    (without_ids ids (drive s)) = []).
  { intros Hmir. unfold without_ids. rewrite filter_twice. apply filter_none.
    intros f Hf. destruct (String.eqb_spec (df_name f) filename) as [E|E];
      [| apply andb_false_r].
    rewrite bool_decide_eq_true_2; [done |].
    specialize (Hmir filename). rewrite He in Hmir. simpl in Hmir. rewrite Hmir.
    apply list_elem_of_In, in_ids_named. by exists f. }
  destruct (drive_upload w (without_ids ids (drive s)) filename bts) as [id link| |] eqn:Hu.
  - by destruct (Hup id link).
  - eexists _, DUploadQuota. split; [reflexivity |]. split; [by left |]. simpl.
    split; [by rewrite Htr, <- !app_assoc |]. split; [done |].
    split; [by rewrite Hidx, lookup_delete_eq | by rewrite Hdr].
  - eexists _, (DUploadFailed filename). split; [reflexivity |]. split; [by right |]. simpl.
    split; [by rewrite Htr, <- !app_assoc |]. split; [done |].
    split; [by rewrite Hidx, lookup_delete_eq | by rewrite Hdr].
Qed.

Lemma overwrite_then_failed_upload_witness :
  let w0 := Sample2.working in
  let w := {| http_get := http_get w0; url_path := url_path w0; is_zipfile := is_zipfile w0;
     open_zip := open_zip w0; pillow_installed := pillow_installed w0;
     image_open := image_open w0; alpha_composite := alpha_composite w0;
     encode_jpeg := encode_jpeg w0; overlay_to_png := overlay_to_png w0;
     ffmpeg_path := ffmpeg_path w0; ffmpeg_overlay := ffmpeg_overlay w0;
     disk_free := disk_free w0; local_write_ok := local_write_ok w0;
     write_left := write_left w0;
     local_listing_ok := local_listing_ok w0;
     init_gdrive_service := init_gdrive_service w0;
     folder_accessible := folder_accessible w0;
     create_gdrive_folder := create_gdrive_folder w0;
     drive_listing_ok := drive_listing_ok w0; drive_quota := drive_quota w0;
     drive_delete_ok := drive_delete_ok w0; drive_upload := fun _ _ _ => UploadError;
     regex_coords := regex_coords w0; piexif_installed := piexif_installed w0;
     exif_insert := exif_insert w0; mp4_tag := mp4_tag w0;
     stream_write_ok := stream_write_ok w0; json_dumps := json_dumps w0 |} in
  let s := Sample2.drive_with_old ModeOverwrite in
  exists s',
    save_or_upload_bytes w (Sample.data "new") "P.jpg" Sample2.picture ".jpg" s = Exit s' /\
    drive s = [Sample2.old_object] /\ drive s' = [].
Proof.
  intros w0 w s.
  destruct (overwrite_then_failed_upload w (Sample.data "new") "P.jpg" Sample2.picture
              ".jpg" ["old-1"] s) as (s' & d & Hrun & _ & _ & Hdr & _).
  - reflexivity.
  - reflexivity.
  - reflexivity.
  - reflexivity.
  - discriminate.
  - by constructor.
  - discriminate.
  - exists s'. split; [exact Hrun |]. split; [reflexivity |]. rewrite Hdr. reflexivity.
Defined.

(** ** The outputs of an archive, under the local destination *)

Lemma keeps_process_image (w : World) z record mm main_bytes oms filename ext :
  keeps one_destination (process_image w z record mm main_bytes oms filename ext).
Proof.
  unfold process_image.
  apply (keeps_try_except one_destination one_destination_trans).
  - destruct (image_open w main_bytes); [| intros s; apply one_destination_refl].
    apply (keeps_bind one_destination one_destination_trans).
    + apply (keeps_composite_overlays one_destination one_destination_refl
               one_destination_trans one_destination_emit).
    + intros img'. destruct (encode_jpeg w img');
        [apply keeps_save_or_upload_bytes | intros s; apply one_destination_refl].
  - intros s. apply one_destination_emit.
Qed.

Lemma keeps_process_video (w : World) z record mm main_bytes oms filename ext :
  keeps one_destination (process_video w z record mm main_bytes oms filename ext).
Proof.
  unfold process_video.
  destruct (negb _); [intros s; apply one_destination_emit |].
  apply (keeps_bind one_destination one_destination_trans).
  - apply (keeps_overlay_chain one_destination one_destination_refl
             one_destination_trans one_destination_emit).
  - intros. apply keeps_save_or_upload_bytes.
Qed.

Lemma local_commit_info (w : World) bts filename rec ext info (s s' : State) :
  DESTINATION s = DestLocal ->
  save_or_upload_bytes w bts filename rec ext s = Ret info s' ->
  info = InfoPath (local_path filename).
Proof.
  intros Hd. unfold save_or_upload_bytes. unfold bind at 1. simpl. rewrite Hd.
  unfold bind at 1. destruct (check_local_space w _ s) as [[] s1|s1|s1]; [| done | done].
  unfold bind at 1. destruct (save_bytes_to_file w _ _ s1) as [[] s2|s2|s2]; [| done | done].
  unfold bind at 1. destruct (try_except _ _ s2) as [[] s3|s3|s3]; [| done | done].
  by intros [= <- _].
Qed.

Lemma process_image_info (w : World) z record mm main_bytes oms filename ext info
    (s s' : State) :
  DESTINATION s = DestLocal ->
  process_image w z record mm main_bytes oms filename ext s = Ret info s' ->
  info = InfoPath (local_path filename).
Proof.
  intros Hd. unfold process_image, try_except.
  destruct (image_open w main_bytes) as [img|]; [| done].
  unfold bind at 1.
  pose proof (keeps_composite_overlays one_destination one_destination_refl
                one_destination_trans one_destination_emit w z mm oms img s) as Hk.
  destruct (composite_overlays w z mm oms img s) as [img' s1|s1|s1]; [| done | done].
  destruct Hk as ((Hd1 & _) & _). simpl in Hd1. rewrite Hd in Hd1.
  destruct (encode_jpeg w img') as [out|]; [| done].
  destruct (save_or_upload_bytes w out filename record ext s1) as [i s2|s2|s2] eqn:Hs;
    [| done | done].
  intros [= <- _]. by apply (local_commit_info w out filename record ext i s1 s2).
Qed.

Lemma process_video_info (w : World) z record mm main_bytes oms filename ext info
    (s s' : State) :
  DESTINATION s = DestLocal ->
  process_video w z record mm main_bytes oms filename ext s = Ret info s' ->
  info = InfoPath (local_path filename).
Proof.
  intros Hd. unfold process_video. destruct (negb _); [done |].
  unfold bind at 1.
  pose proof (keeps_overlay_chain one_destination one_destination_refl
                one_destination_trans one_destination_emit w z mm oms main_bytes s) as Hk.
  destruct (overlay_chain w z mm oms main_bytes s) as [fb s1|s1|s1]; [| done | done].
  destruct Hk as ((Hd1 & _) & _). simpl in Hd1. rewrite Hd in Hd1.
  by apply local_commit_info.
Qed.

(** X25. Under the local destination the outputs of an archive are
    numbered by the mains that are committed, in the order their keys
    were first seen: when the loop over the groups returns, it has added
    to the list one path per main that could be read and has a known
    extension, the first named by the prefix alone, the next ones by the
    prefix followed by [_1], [_2] and so on, each with the lower-cased
    extension of its main.  A main that cannot be read or has an unknown
    extension takes no number. *)
Theorem archive_outputs_are_numbered (w : World) (z : Archive) (record : Rec)
    (prefix : string) (overlays : list (string * list string))
    (mains : list (string * string)) (saved_files v : list Saved) (count : nat)
    (s s' : State) :
  DESTINATION s = DestLocal ->
  process_groups w z record prefix overlays mains saved_files count s = Ret v s' ->
  v = saved_files ++
      List.map (fun f => SavedInfo (InfoPath (local_path f)))
        (numbered prefix count (processed z mains)).
Proof.
  revert saved_files count s.
  induction mains as [|[base mm] mains IH]; intros saved_files count s Hd.
  - intros [= <- _]. by rewrite app_nil_r.
  - cbn [process_groups]. unfold processed. cbn [List.filter snd].
    fold (processed z mains).
    destruct (read_member z mm) as [main_bytes|] eqn:Hr.
    + rewrite bool_decide_eq_true_2 by (by eexists). cbn [andb].
      destruct (is_jpeg_ext (Str.lower (PathLib.suffix mm))) eqn:Hj; cbn [orb].
      * unfold bind at 1.
        pose proof (keeps_process_image w z record mm main_bytes
                      (default [] (dict_get base overlays))
                      (out_filename prefix count (Str.lower (PathLib.suffix mm)))
                      (Str.lower (PathLib.suffix mm)) s) as Hk.
        destruct (process_image w z record mm main_bytes _ _ _ s) as [info s1|s1|s1] eqn:Hp;
          [| done | done].
        destruct Hk as ((Hd1 & _) & _). simpl in Hd1. rewrite Hd in Hd1.
        apply (process_image_info _ _ _ _ _ _ _ _ _ _ _ Hd) in Hp as ->.
        intros H. apply (IH _ _ _ Hd1) in H as ->.
        cbn [List.map numbered]. by rewrite <- app_assoc.
      * destruct (String.eqb (Str.lower (PathLib.suffix mm)) ".mp4") eqn:Hv.
        -- unfold bind at 1.
           pose proof (keeps_process_video w z record mm main_bytes
                         (default [] (dict_get base overlays))
                         (out_filename prefix count (Str.lower (PathLib.suffix mm)))
                         (Str.lower (PathLib.suffix mm)) s) as Hk.
           destruct (process_video w z record mm main_bytes _ _ _ s) as [info s1|s1|s1] eqn:Hp;
             [| done | done].
           destruct Hk as ((Hd1 & _) & _). simpl in Hd1. rewrite Hd in Hd1.
           apply (process_video_info _ _ _ _ _ _ _ _ _ _ _ Hd) in Hp as ->.
           intros H. apply (IH _ _ _ Hd1) in H as ->.
           cbn [List.map numbered]. by rewrite <- app_assoc.
        -- unfold bind at 1. simpl. apply IH. exact Hd.
    + rewrite bool_decide_eq_false_2 by (by intros [? [=]]). cbn [andb].
      unfold bind at 1. simpl. apply IH. exact Hd.
Qed.

Lemma archive_outputs_are_numbered_witness :
  let z := Sample.archive_of [("a-main.jpg", Sample.data "m"); ("b-main.mp4", Sample.data "v")] in
  let w := Sample.world Sample.no_download Sample.no_archive Sample.ffmpeg_bin in
  let mains := [("a", "a-main.jpg"); ("gone", "gone-main.jpg"); ("b", "b-main.mp4")] in
  exists s',
    process_groups w z Sample2.picture "P" [] mains [] 0 Sample.fresh =
      Ret [SavedInfo (InfoPath "snapchat_memories/P.jpg");
           SavedInfo (InfoPath "snapchat_memories/P_1.mp4")] s'.
Proof.
  intros z w mains.
  exists (final (process_groups w z Sample2.picture "P" [] mains [] 0 Sample.fresh)).
  assert (H : exists v, process_groups w z Sample2.picture "P" [] mains [] 0 Sample.fresh =
                        Ret v (final (process_groups w z Sample2.picture "P" [] mains [] 0
                                        Sample.fresh)))
    by (eexists; vm_compute; reflexivity).
  destruct H as (v & H). rewrite H.
  by rewrite (archive_outputs_are_numbered w z Sample2.picture "P" [] mains [] v 0
                Sample.fresh _ eq_refl H).
Defined.

(** ** Only mode [overwrite] removes objects *)

Lemma keeps_objects_refl (s : State) : keeps_objects s s.
Proof. split; [apply same_config_refl |]. intros _. exists []. by rewrite app_nil_r. Qed.

Lemma keeps_objects_trans (s1 s2 s3 : State) :
  keeps_objects s1 s2 -> keeps_objects s2 s3 -> keeps_objects s1 s3.
Proof.
  intros [Hc1 Ho1] [Hc2 Ho2]. split; [by eapply same_config_trans |].
  intros Hm. destruct (Ho1 Hm) as [a1 H1].
  destruct Ho2 as [a2 H2].
  { destruct Hc1 as (_ & _ & _ & ->). done. }
  exists (a1 ++ a2). by rewrite H2, H1, app_assoc.
Qed.

Lemma keeps_objects_emit (e : Event) (s : State) :
  keeps_objects s (with_trace (fun t => t ++ [e]) s).
Proof. split; [by repeat split |]. intros _. exists []. simpl. by rewrite app_nil_r. Qed.

Lemma upload_adds (w : World) filename bts mime props (s : State) :
  exists added,
    drive (final (try_except
             (created <~ upload_bytes_to_gdrive w filename bts mime props ;;
              modify (with_existing (fun m =>
                <[filename := default [] (m !! filename) ++ [created.1]]> m)) ;;
              ret (InfoUploaded created.1 created.2))
             (fatal (DUploadFailed filename)) s)) = drive s ++ added.
Proof.
  unfold try_except, upload_bytes_to_gdrive. unfold bind, gets, modify, fatal, log, emit,
    bind, modify, exit, raise, ret. simpl.
  destruct (drive_upload w (drive s) filename bts); simpl;
    first [by eexists | exists []; by rewrite app_nil_r].
Qed.

Lemma keeps_objects_commit (w : World) bts filename rec ext :
  keeps keeps_objects (save_or_upload_bytes w bts filename rec ext).
Proof.
  intros s.
  pose proof (keeps_save_or_upload_bytes w bts filename rec ext s) as (Hc & _ & Hdest).
  split; [done |]. intros Hmode. destruct (DESTINATION s) eqn:Hd.
  - destruct Hdest as [Hdr _]. exists []. by rewrite Hdr, app_nil_r.
  - rewrite save_or_upload_bytes_gdrive by done.
    destruct (gdrive_guard w (length bts) s); [exists []; simpl; by rewrite app_nil_r |].
    unfold bind at 1. unfold resolve_conflict.
    unfold bind at 1. simpl. unfold bind at 1. simpl.
    destruct (default [] (GDRIVE_EXISTING s !! filename)) as [|i ids]; [apply upload_adds |].
    destruct (CONFLICT_MODE s); [| done | apply upload_adds].
    exists []. simpl. by rewrite app_nil_r.
Qed.

Section Outward.

Variable w : World.
Variable R : State -> State -> Prop.
Hypothesis R_refl : forall s, R s s.
Hypothesis R_trans : forall s1 s2 s3, R s1 s2 -> R s2 s3 -> R s1 s3.
Hypothesis R_emit : forall e s, R s (with_trace (fun t => t ++ [e]) s).
Hypothesis R_commit :
  forall bts filename rec ext, keeps R (save_or_upload_bytes w bts filename rec ext).

Lemma outward_process_groups z record prefix overlays mains saved count :
  keeps R (process_groups w z record prefix overlays mains saved count).
Proof.
  revert saved count. induction mains as [|[base mm] mains IH]; intros saved count.
  - intros s. apply R_refl.
  - simpl. destruct (read_member z mm) as [main_bytes|].
    + destruct (is_jpeg_ext _).
      * apply (keeps_bind R R_trans); [| intros; apply IH].
        unfold process_image. apply (keeps_try_except R R_trans).
        -- destruct (image_open w main_bytes); [| intros s; apply R_refl].
           apply (keeps_bind R R_trans).
           ++ apply (keeps_composite_overlays R R_refl R_trans R_emit).
           ++ intros img'. destruct (encode_jpeg w img');
                [apply R_commit | intros s; apply R_refl].
        -- apply (keeps_fatal R R_refl R_trans R_emit).
      * destruct (String.eqb _ ".mp4").
        -- apply (keeps_bind R R_trans); [| intros; apply IH].
           unfold process_video.
           destruct (negb _); [apply (keeps_fatal R R_refl R_trans R_emit) |].
           apply (keeps_bind R R_trans).
           ++ apply (keeps_overlay_chain R R_refl R_trans R_emit).
           ++ intros. apply R_commit.
        -- apply (keeps_bind R R_trans); [| intros; apply IH]. intros s. apply R_emit.
    + apply (keeps_bind R R_trans); [| intros; apply IH]. intros s. apply R_emit.
Qed.

Lemma outward_download_and_process (record : Rec) :
  keeps R (download_and_process w record).
Proof.
  unfold download_and_process.
  destruct (url_of record) as [url|]; [| intros s; apply R_refl].
  apply (keeps_bind R R_trans); [intros s; apply R_emit |].
  intros _. destruct (http_get w url) as [| |data ct].
  - apply (keeps_bind R R_trans); [intros s; apply R_emit | intros ? s; apply R_refl].
  - apply (keeps_bind R R_trans); [intros s; apply R_emit | intros ? s; apply R_refl].
  - destruct (detect_zip w url data _).
    + destruct (open_zip w data) as [z|].
      * apply (keeps_bind R R_trans); [| intros ? s; apply R_refl].
        unfold process_archive.
        destruct (collect (namelist z) [] []) as [mains overlays].
        destruct mains as [|e mains].
        -- apply (keeps_bind R R_trans);
             [intros s; apply R_emit | intros ? s; apply R_refl].
        -- destruct (negb (pillow_installed w));
             [apply (keeps_fatal R R_refl R_trans R_emit) |].
           apply outward_process_groups.
      * apply (keeps_bind R R_trans); [intros s; apply R_emit | intros ? s; apply R_refl].
    + apply (keeps_bind R R_trans); [| intros ? s; apply R_refl].
      unfold process_plain. apply (keeps_try_except R R_trans).
      * apply (keeps_bind R R_trans); [apply R_commit | intros ? s; apply R_refl].
      * apply (keeps_bind R R_trans); [intros s; apply R_emit | intros ? s; apply R_refl].
Qed.

End Outward.

(** X26. Only mode [overwrite] removes anything from the Drive folder.
    In the modes [skip] and [new], whatever a commit, the processing of
    a record or the whole loop does, and however it ends, every object
    that was in the folder is still there, unchanged and in its place:
    the folder has only gained objects at its end. *)
Theorem only_overwrite_removes_objects (w : World) (s : State) :
  CONFLICT_MODE s <> ModeOverwrite ->
  (forall bts filename rec ext,
     exists added,
       drive (final (save_or_upload_bytes w bts filename rec ext s)) = drive s ++ added) /\
  (forall record,
     exists added, drive (final (download_and_process w record s)) = drive s ++ added) /\
  (forall recs all_saved,
     exists added,
       drive (final (main_loop (download_and_process w) recs all_saved s)) =
         drive s ++ added).
Proof.
  intros Hm.
  assert (Hrec : forall record, keeps keeps_objects (download_and_process w record)).
  { intros record. apply outward_download_and_process.
    - apply keeps_objects_refl.
    - apply keeps_objects_trans.
    - apply keeps_objects_emit.
    - apply keeps_objects_commit. }
  split; [| split].
  - intros bts filename rec ext.
    by apply (keeps_objects_commit w bts filename rec ext s).
  - intros record. by apply (Hrec record s).
  - intros recs all_saved.
    apply (keeps_main_loop keeps_objects (download_and_process w) recs all_saved
             keeps_objects_refl keeps_objects_trans keeps_objects_emit Hrec s), Hm.
Qed.

Lemma only_overwrite_removes_objects_witness :
  let w := Sample.world (Sample.plain (Sample.data "new") "image/jpeg") Sample.no_archive None in
  let s := Sample2.drive_with_old ModeNew in
  exists added,
    drive (final (main_loop (download_and_process w) [Sample2.picture] ∅ s)) =
      [Sample2.old_object] ++ added.
Proof.
  intros w s.
  destruct (only_overwrite_removes_objects w s) as (_ & _ & H); [discriminate |].
  apply (H [Sample2.picture] ∅).
Defined.

(** ** The two scripts on a plain download *)

(** X27. On a download that is not an archive the two scripts do the
    same thing under different names.  For one row of the table, with
    the local destination chosen and the space guard passed,
    [extract_memories.py] and the local-only script choose the same
    extension, attempt the write of the same bytes, embed the same
    metadata when the write went through, and print and go on when it
    did not; neither exits or raises.  They differ in the name, which
    in the local-only script has the rank of the row in front, and in
    the report, where the first lists the bare file name and the second
    the path of the file. *)
Theorem plain_download_in_both_scripts (w : World)
    (num_pfx media_type date_str location_str url : string)
    (data : bytes) (ext : option string) (s : State) :
  local_room w data s ->
  exists final_ext,
    let name := assigned_prefix date_str location_str +:+ final_ext in
    let name_local := num_pfx +:+ "_" +:+ name in
    let meta := meta_of w (row media_type date_str location_str (Some url)) in
    process_plain w (row media_type date_str location_str (Some url)) url data ext s =
      plain_outcome w name url data meta (SavedName name) s /\
    save_plain_local w (row_local num_pfx media_type date_str location_str (Some url))
        url data ext s =
      plain_outcome w name_local url data meta (SavedName (local_path name_local)) s.
Proof.
  intros (Hd & free & Hf & Hle).
  set (r := row media_type date_str location_str (Some url)).
  set (r' := row_local num_pfx media_type date_str location_str (Some url)).
  assert (Hmeta : local_meta w r' url None = meta_of w r) by reflexivity.
  assert (Hp : prefix_of r = assigned_prefix date_str location_str).
  { unfold prefix_of, r, row. cbn [rec_prefix].
    destruct (String.eqb_spec (assigned_prefix date_str location_str) ""); [| done].
    apply (f_equal String.length) in e. unfold assigned_prefix in e.
    rewrite !string_app_length in e. simpl in e. lia. }
  assert (Hp' : prefix_of r' = num_pfx +:+ "_" +:+ assigned_prefix date_str location_str).
  { unfold prefix_of, r', row_local. cbn [rec_prefix].
    destruct (String.eqb_spec (assigned_prefix_local num_pfx date_str location_str) "");
      [| done].
    apply (f_equal String.length) in e. unfold assigned_prefix_local in e.
    rewrite !string_app_length in e. simpl in e. lia. }
  unfold process_plain, save_plain_local. rewrite Hp, Hp', Hmeta.
  set (final_ext := if truthy _ then _ else _). exists final_ext. cbv zeta.
  rewrite !string_app_assoc.
  set (name := assigned_prefix date_str location_str +:+ final_ext).
  set (name' := num_pfx +:+ "_" +:+ name).
  unfold plain_outcome. split.
  - unfold save_or_upload_bytes, try_except.
    unfold bind at 1 2. simpl. rewrite Hd.
    unfold bind at 1. unfold check_local_space. unfold bind at 1. simpl. rewrite Hf.
    destruct (Z.ltb_spec free (Z.of_nat (length data))); [lia |]. simpl.
    unfold bind at 1. unfold save_bytes_to_file. unfold bind at 1. simpl.
    destruct (local_write_ok w name); simpl.
    + unfold bind, modify. simpl. fold (attempted name data s). fold (written name data s).
      by destruct (write_file_metadata_returns w name (meta_of w r) (written name data s))
        as (b & s' & -> & _).
    + unfold bind, failed_write, refused, attempted.
      by destruct (write_left w name data).
  - unfold try_except. unfold bind at 1. unfold save_bytes_to_file. unfold bind at 1. simpl.
    destruct (local_write_ok w name'); simpl.
    + unfold bind, modify, embed_logged, try_except, bind. simpl.
      fold (attempted name' data s). fold (written name' data s).
      by destruct (write_file_metadata_returns w name' (meta_of w r) (written name' data s))
        as (b & s' & -> & _).
    + unfold bind, failed_write, refused, attempted.
      by destruct (write_left w name' data).
Qed.

Lemma plain_download_in_both_scripts_witness :
  let w := Sample2.working in
  let date_str := "2020-01-01 10:00:00 UTC" in
  exists s1 s2,
    process_plain w (row "Image" date_str "" (Some "u.jpg")) "u.jpg" (Sample.data "new")
        None Sample.fresh =
      Ret [SavedName "2020-01-01_10_00_00_UTC_.jpg"] s1 /\
    save_plain_local w (row_local "0007" "Image" date_str "" (Some "u.jpg")) "u.jpg"
        (Sample.data "new") None Sample.fresh =
      Ret [SavedName "snapchat_memories/0007_2020-01-01_10_00_00_UTC_.jpg"] s2.
Proof.
  intros w date_str.
  destruct (plain_download_in_both_scripts w "0007" "Image" date_str "" "u.jpg"
              (Sample.data "new") None Sample.fresh) as (e & H1 & H2).
  - split; [reflexivity |]. exists 1000000%Z. split; [reflexivity |]. vm_compute. discriminate.
  - eexists _, _. split; vm_compute; reflexivity.
Defined.
